(** * Hybrid retrieval and index federation (HLAI): a shallow embedding

    The development follows the Python sources
      - [src/utils.py]    ([compute_id], [sliding_window_chunks],
                           [compute_files_digest]),
      - [src/chunker.py]  ([build_chunks]),
      - [src/indexer.py]  ([ChunkIndex]),
      - [src/rerank.py]   ([Reranker]),
      - [src/corpus.py]   ([CorpusManager]),
      - [src/qa.py]       ([SimpleGenerator]).

    Conventions of the embedding.
      - A Python [str] is the sequence of its UTF-8 bytes ([string]); [int]
        is [Z]; a [float] score is an exact rational ([Qc]), so rounding is
        not represented.
      - A [dict] is an association list in insertion order: iteration
        order of Python dictionaries is insertion order, and the code
        relies on it wherever it sorts stably.
      - A call that can raise returns an [outcome]; stateful methods of
        [CorpusManager] run in a state-and-exception monad whose state
        survives a raised exception, as object state does in Python.
      - Models, nearest-neighbour search, BM25 scoring, the cross-encoder
        and the PDF extractor are libraries outside the repository: they
        are the fields of a [Backend] record. *)

From Stdlib Require Import List String Ascii ZArith QArith Qcanon Lia Bool.
From Stdlib Require Import Permutation Sorted.
From Stdlib Require Import DecimalString DecimalZ DecimalPos.
Import ListNotations.
Local Open Scope string_scope.
Local Open Scope list_scope.
Local Open Scope Z_scope.

Set Implicit Arguments.
Set Warnings "-register-all".

(** ** Python values shared by all modules *)

Module Py.

Inductive exn : Type :=
| RuntimeError (msg : string)
| ValueError
| TypeError
| KeyError
| IndexError
| AttributeError
| ZeroDivisionError
| OSError.

Inductive outcome (A : Type) : Type :=
| Ok (a : A)
| Raise (e : exn).
Arguments Ok {A} a.
Arguments Raise {A} e.

Definition obind {A B} (m : outcome A) (k : A -> outcome B) : outcome B :=
  match m with
  | Ok a => k a
  | Raise e => Raise e
  end.

(** [l[:k]] for any integer [k]: a negative bound counts from the end. *)
Definition slice_to {A} (k : Z) (l : list A) : list A :=
  if 0 <=? k then firstn (Z.to_nat k) l
  else firstn (Z.to_nat (Z.of_nat (List.length l) + k)) l.

Definition len {A} (l : list A) : Z := Z.of_nat (List.length l).

(** *** Dictionaries, in insertion order *)

Section Dict.
Variables K V : Type.
Variable keq : K -> K -> bool.

Definition dict : Type := list (K * V).

Fixpoint dict_get (d : dict) (k : K) : option V :=
  match d with
  | [] => None
  | (k', v) :: d' => if keq k' k then Some v else dict_get d' k
  end.

Definition dict_mem (d : dict) (k : K) : bool :=
  match dict_get d k with Some _ => true | None => false end.

(** [d[k] = v]: an existing key keeps its position, a new key is
    appended. *)
Fixpoint dict_set (d : dict) (k : K) (v : V) : dict :=
  match d with
  | [] => [(k, v)]
  | (k', v') :: d' =>
      if keq k' k then (k', v) :: d' else (k', v') :: dict_set d' k v
  end.

(** [del d[k]] / [d.pop(k, None)]. *)
Fixpoint dict_del (d : dict) (k : K) : dict :=
  match d with
  | [] => []
  | (k', v') :: d' =>
      if keq k' k then dict_del d' k else (k', v') :: dict_del d' k
  end.

Definition dict_keys (d : dict) : list K := map fst d.

(** [d.get(k, default)]. *)
Definition dict_get_or (d : dict) (k : K) (default : V) : V :=
  match dict_get d k with Some v => v | None => default end.
End Dict.

(** *** [sorted(..., reverse=True)] and [list.sort(reverse=True)]

    Python's sort is stable, and with [reverse=True] elements that
    compare equal keep their original order.  [gtb a b] says that the
    key of [a] is strictly greater than the key of [b]. *)

Section Sort.
Variable A : Type.
Variable gtb : A -> A -> bool.

Fixpoint insert_desc (x : A) (l : list A) : list A :=
  match l with
  | [] => [x]
  | y :: l' => if gtb y x then y :: insert_desc x l' else x :: y :: l'
  end.

Fixpoint sorted_desc (l : list A) : list A :=
  match l with
  | [] => []
  | x :: l' => insert_desc x (sorted_desc l')
  end.
End Sort.

(** *** Scores *)

Definition score : Type := Qc.

Definition score_ltb (a b : score) : bool :=
  match (a ?= b)%Qc with Lt => true | _ => false end.

Definition score_eqb (a b : score) : bool :=
  match (a ?= b)%Qc with Eq => true | _ => false end.

(** [max] of a non-empty sequence of scores. *)
Fixpoint score_max (x : score) (l : list score) : score :=
  match l with
  | [] => x
  | y :: l' => score_max (if score_ltb x y then y else x) l'
  end.

(** [str(n)] for an integer: its decimal digits, ["-"] first when it
    is negative. *)
Definition str_of_Z (n : Z) : string :=
  NilZero.string_of_int (Z.to_int n).

(** *** State and exceptions

    A method is a function of the object state; the state reached when
    an exception is raised is kept, since Python does not roll back. *)

Definition M (S A : Type) : Type := S -> outcome A * S.

Definition ret {S A} (a : A) : M S A := fun s => (Ok a, s).
Definition raise {S A} (e : exn) : M S A := fun s => (Raise e, s).
Definition lift {S A} (o : outcome A) : M S A := fun s => (o, s).
Definition bind {S A B} (m : M S A) (k : A -> M S B) : M S B :=
  fun s =>
    match m s with
    | (Ok a, s') => k a s'
    | (Raise e, s') => (Raise e, s')
    end.
Definition gets {S A} (f : S -> A) : M S A := fun s => (Ok (f s), s).
Definition modify {S} (f : S -> S) : M S unit := fun s => (Ok tt, f s).

(** [try: m  except Exception: h]. *)
Definition try_except {S A} (m : M S A) (h : M S A) : M S A :=
  fun s =>
    match m s with
    | (Ok a, s') => (Ok a, s')
    | (Raise _, s') => h s'
    end.

(** [for x in l: body(x)]. *)
Fixpoint for_each {S A} (l : list A) (body : A -> M S unit) : M S unit :=
  match l with
  | [] => ret tt
  | x :: l' => bind (body x) (fun _ => for_each l' body)
  end.

(** [[f(x) for x in l]] when [f] can raise. *)
Fixpoint map_outcome {A B} (f : A -> outcome B) (l : list A)
  : outcome (list B) :=
  match l with
  | [] => Ok []
  | x :: l' =>
      obind (f x) (fun y => obind (map_outcome f l') (fun r => Ok (y :: r)))
  end.

(** [s.strip()] for ASCII white space. *)
Definition is_space (c : ascii) : bool :=
  let n := nat_of_ascii c in
  ((9 <=? n) && (n <=? 13))%nat || (n =? 32)%nat.

Fixpoint lstrip (s : string) : string :=
  match s with
  | String c s' => if is_space c then lstrip s' else s
  | EmptyString => s
  end.

Fixpoint rstrip (s : string) : string :=
  match s with
  | EmptyString => EmptyString
  | String c s' =>
      match rstrip s' with
      | EmptyString => if is_space c then EmptyString else String c EmptyString
      | r => String c r
      end
  end.

Definition strip (s : string) : string := rstrip (lstrip s).

End Py.
Export Py.

Declare Scope py_scope.
Delimit Scope py_scope with py.
Notation "x <- m ;; k" := (bind m (fun x => k))
  (at level 61, m at next level, right associativity) : py_scope.
Notation "m ;;; k" := (bind m (fun _ => k))
  (at level 61, right associativity) : py_scope.
Notation "x <~ m ;; k" := (obind m (fun x => k))
  (at level 61, m at next level, right associativity) : py_scope.
Local Open Scope py_scope.

(** ** [hashlib.sha256] (FIPS 180-4) *)

Module Sha256.

Definition w32 (x : Z) : Z := x mod 2 ^ 32.
Definition add32 (x y : Z) : Z := w32 (x + y).
Definition rotr (n x : Z) : Z :=
  Z.lor (Z.shiftr x n) (w32 (Z.shiftl x (32 - n))).
Definition not32 (x : Z) : Z := 2 ^ 32 - 1 - x.

Definition Ch (x y z : Z) : Z := Z.lxor (Z.land x y) (Z.land (not32 x) z).
Definition Maj (x y z : Z) : Z :=
  Z.lxor (Z.lxor (Z.land x y) (Z.land x z)) (Z.land y z).
Definition Sigma0 (x : Z) : Z :=
  Z.lxor (Z.lxor (rotr 2 x) (rotr 13 x)) (rotr 22 x).
Definition Sigma1 (x : Z) : Z :=
  Z.lxor (Z.lxor (rotr 6 x) (rotr 11 x)) (rotr 25 x).
Definition sigma0 (x : Z) : Z :=
  Z.lxor (Z.lxor (rotr 7 x) (rotr 18 x)) (Z.shiftr x 3).
Definition sigma1 (x : Z) : Z :=
  Z.lxor (Z.lxor (rotr 17 x) (rotr 19 x)) (Z.shiftr x 10).

(** The first 64 primes. *)
Definition primes : list Z :=
  [2; 3; 5; 7; 11; 13; 17; 19; 23; 29; 31; 37; 41; 43; 47; 53; 59; 61; 67;
   71; 73; 79; 83; 89; 97; 101; 103; 107; 109; 113; 127; 131; 137; 139; 149;
   151; 157; 163; 167; 173; 179; 181; 191; 193; 197; 199; 211; 223; 227;
   229; 233; 239; 241; 251; 257; 263; 269; 271; 277; 281; 283; 293; 307;
   311].

(** Integer cube root below [2 ^ bits], one bit at a time. *)
Fixpoint cbrt_bits (bits : nat) (n r : Z) : Z :=
  match bits with
  | O => r
  | S b =>
      let r' := r + 2 ^ Z.of_nat b in
      cbrt_bits b n (if r' * r' * r' <=? n then r' else r)
  end.

(** The round constants: the first 32 bits of the fractional parts of the
    cube roots of the first 64 primes. *)
Definition K : list Z :=
  Eval vm_compute in map (fun p => w32 (cbrt_bits 36 (p * 2 ^ 96) 0)) primes.

Record state : Type := State {
  ha : Z; hb : Z; hc : Z; hd : Z; he : Z; hf : Z; hg : Z; hh : Z
}.

(** The initial hash value: the first 32 bits of the fractional parts of
    the square roots of the first 8 primes. *)
Definition frac_sqrt (p : Z) : Z := w32 (Z.sqrt (p * 2 ^ 64)).

Definition H0 : state :=
  Eval vm_compute in
    State (frac_sqrt 2) (frac_sqrt 3) (frac_sqrt 5) (frac_sqrt 7)
          (frac_sqrt 11) (frac_sqrt 13) (frac_sqrt 17) (frac_sqrt 19).

Definition bytes_of_string (s : string) : list Z :=
  map (fun c => Z.of_N (N_of_ascii c)) (list_ascii_of_string s).

(** Big-endian bytes of [x], [n] of them. *)
Fixpoint be_bytes (n : nat) (x : Z) : list Z :=
  match n with
  | O => []
  | S n' => (Z.shiftr x (8 * Z.of_nat n')) mod 256 :: be_bytes n' x
  end.

Definition pad (msg : list Z) : list Z :=
  let l := Z.of_nat (List.length msg) in
  let zeros := Z.to_nat ((55 - l) mod 64) in
  msg ++ [0x80] ++ repeat 0 zeros ++ be_bytes 8 (8 * l).

Fixpoint words (n : nat) (bs : list Z) : list Z :=
  match n, bs with
  | S n', b0 :: b1 :: b2 :: b3 :: bs' =>
      (b0 * 2 ^ 24 + b1 * 2 ^ 16 + b2 * 2 ^ 8 + b3) :: words n' bs'
  | _, _ => []
  end.

(** The message schedule, most recent word first. *)
Fixpoint schedule (n : nat) (ws : list Z) : list Z :=
  match n with
  | O => ws
  | S n' =>
      let w :=
        add32 (add32 (sigma1 (nth 1 ws 0)) (nth 6 ws 0))
              (add32 (sigma0 (nth 14 ws 0)) (nth 15 ws 0)) in
      schedule n' (w :: ws)
  end.

Definition round (s : state) (kw : Z * Z) : state :=
  let (k, w) := kw in
  let t1 := add32 (add32 (add32 (hh s) (Sigma1 (he s)))
                         (add32 (Ch (he s) (hf s) (hg s)) k)) w in
  let t2 := add32 (Sigma0 (ha s)) (Maj (ha s) (hb s) (hc s)) in
  State (add32 t1 t2) (ha s) (hb s) (hc s)
        (add32 (hd s) t1) (he s) (hf s) (hg s).

Definition compress (s : state) (block : list Z) : state :=
  let ws := rev (schedule 48 (rev (words 16 block))) in
  let s' := fold_left round (combine K ws) s in
  State (add32 (ha s) (ha s')) (add32 (hb s) (hb s'))
        (add32 (hc s) (hc s')) (add32 (hd s) (hd s'))
        (add32 (he s) (he s')) (add32 (hf s) (hf s'))
        (add32 (hg s) (hg s')) (add32 (hh s) (hh s')).

Fixpoint blocks (n : nat) (bs : list Z) : list (list Z) :=
  match n with
  | O => []
  | S n' => firstn 64 bs :: blocks n' (skipn 64 bs)
  end.

Definition digest_state (msg : list Z) : state :=
  let p := pad msg in
  fold_left compress (blocks (List.length p / 64)%nat p) H0.

Definition hexchar (d : Z) : ascii :=
  nth (Z.to_nat d)
      (list_ascii_of_string "0123456789abcdef") "0"%char.

Fixpoint hex (n : nat) (x : Z) : string :=
  match n with
  | O => ""
  | S n' =>
      String (hexchar ((Z.shiftr x (4 * Z.of_nat n')) mod 16)) (hex n' x)
  end.

(** [hashlib.sha256(msg).hexdigest()]. *)
Definition hexdigest (msg : string) : string :=
  let s := digest_state (bytes_of_string msg) in
  String.concat ""
    (map (hex 8) [ha s; hb s; hc s; hd s; he s; hf s; hg s; hh s]).

End Sha256.

(** ** [src/utils.py] *)

Module Utils.

(** [s[:n]] on strings. *)
Fixpoint prefix_str (n : nat) (s : string) : string :=
  match n, s with
  | S n', String c s' => String c (prefix_str n' s')
  | _, _ => ""
  end.

(** [compute_id] over its parts: the updates of one [sha256] object hash the
    concatenation of the parts; the id is the first 16 hex digits. *)
Definition compute_id (parts : list string) : string :=
  prefix_str 16 (Sha256.hexdigest (String.concat "" parts)).

End Utils.

(** ** Data shared by the index, the reranker and the corpus manager *)

Module Types.

(** Values held by the dynamic dictionaries of the code.  [VObj] is any
    other object (the [refs] mapping of a chunk), kept as its [str]. *)
Inductive value : Type :=
| VStr (s : string)
| VInt (n : Z)
| VFloat (x : score)
| VObj (repr : string).

(** A chunk, a meta entry and a candidate are all [Dict[str, Any]]. *)
Definition chunk : Type := dict string value.

Definition get (c : chunk) (k : string) : option value :=
  dict_get String.eqb c k.
Definition set (c : chunk) (k : string) (v : value) : chunk :=
  dict_set String.eqb c k v.

(** A numeric field read with a default, as in [x.get("score", 0.0)].
    Only numbers are ordered by the model; the candidates the corpus
    manager builds always carry floats there. *)
Definition get_float (c : chunk) (k : string) (default : score) : score :=
  match get c k with
  | Some (VFloat x) => x
  | Some (VInt n) => Q2Qc (inject_Z n)
  | _ => default
  end.

Definition vec : Type := list score.

(** What the PDF extractor and the chunker yield for one passage, before
    the paper id is attached: type, page, content and cross references. *)
Record passage : Type := Passage {
  p_type : string;
  p_page : Z;
  p_content : string;
  p_refs : string
}.

(** The libraries the code calls. *)
Record Backend : Type := {
  (** [SentenceTransformer.encode(texts, normalize_embeddings=True)] *)
  encode : list string -> outcome (list vec);
  (** [NearestNeighbors(metric="cosine").fit(X)]: input validation *)
  nn_fit : list vec -> outcome unit;
  (** [kneighbors(Q, n_neighbors=n)] on a fitted matrix: for each query
      row the pairs (row index, cosine distance), nearest first *)
  kneighbors : list vec -> list vec -> Z -> outcome (list (list (nat * score)));
  (** [BM25Okapi is not None] *)
  bm25_available : bool;
  (** [BM25Okapi(corpus)] *)
  bm25_init : list (list string) -> outcome unit;
  (** [bm25.get_scores(tokens)] *)
  bm25_scores : list (list string) -> list string -> list score;
  (** [t.lower().split()] *)
  tokenize : string -> list string;
  (** [np.argsort(scores)] *)
  argsort : list score -> list nat;
  (** [str(x)] for a float *)
  repr_float : score -> string;
  (** [CrossEncoder.predict(pairs)], one pair at a time *)
  predict_pair : string -> value -> score;
  (** [str(time.time())] at the n-th reading of the clock *)
  clock : nat -> string
}.

Definition py_str (E : Backend) (v : value) : string :=
  match v with
  | VStr s => s
  | VInt n => str_of_Z n
  | VFloat x => repr_float E x
  | VObj r => r
  end.

(** [p.encode("utf-8")] exists on strings only. *)
Definition as_str (v : value) : outcome string :=
  match v with
  | VStr s => Ok s
  | _ => Raise AttributeError
  end.

End Types.
Export Types.

(** ** The file system seen by the code *)

Module Fs.

Inductive content : Type :=
| CText (s : string)
| CPickle (m : list chunk)
| CArray (e : list vec)
| CJunk.

Inductive node : Type :=
| NFile (name : string) (c : content)
| NDir (name : string) (kids : list node).

Definition node_name (n : node) : string :=
  match n with NFile s _ => s | NDir s _ => s end.

(** A document under [data/pdfs] or wherever it was uploaded from:
    [os.stat] fields and what parsing and chunking make of it. *)
Record pdf : Type := Pdf {
  f_size : Z;
  f_mtime : Z;
  f_passages : outcome (list passage)
}.

(** One registry value: [{"uid": ..., "pdf_path": ...}]; a key may be
    missing in a registry read back from disk. *)
Record entry : Type := Entry {
  uid : option string;
  pdf_path : option string
}.

Definition registry : Type := dict string entry.

Inductive event : Type :=
| EvRemove (path : string) (ok : bool)          (* os.remove *)
| EvRmdir (path : string) (ok : bool)           (* os.rmdir *)
| EvLoad (dir : string) (ok : bool)             (* ChunkIndex.load *)
| EvBuild (path : string) (uid : string)        (* _build_index_for_pdf *)
| EvSaveMeta (r : registry)                     (* _save_metadata *)
| EvQuery (uid : string) (text : string) (k : Z)   (* idx.query *)
| EvRerank (text : string) (pool : list chunk) (k : Z)   (* rerank *)
| EvPredict (pairs : list (string * value)).    (* CrossEncoder.predict *)

Record World : Type := {
  w_files : dict string pdf;          (* regular files, by path *)
  w_dirs : dict string (list node);   (* snapshot directories, by path *)
  w_locked : list string;             (* removing these raises OSError *)
  w_meta : option registry;           (* data/index/metadata.json *)
  w_tick : nat;                       (* clock readings so far *)
  w_trace : list event
}.

Definition join (a b : string) : string := (a ++ "/" ++ b)%string.

Definition DATA_DIR : string := "data".
Definition PDF_DIR : string := join DATA_DIR "pdfs".
Definition INDEX_DIR : string := join DATA_DIR "index".
Definition IDS_DIR : string := join INDEX_DIR "by_id".

Definition mem (x : string) (l : list string) : bool :=
  existsb (String.eqb x) l.

Definition with_files (w : World) (f : dict string pdf) : World :=
  {| w_files := f; w_dirs := w_dirs w; w_locked := w_locked w;
     w_meta := w_meta w; w_tick := w_tick w; w_trace := w_trace w |}.
Definition with_dirs (w : World) (d : dict string (list node)) : World :=
  {| w_files := w_files w; w_dirs := d; w_locked := w_locked w;
     w_meta := w_meta w; w_tick := w_tick w; w_trace := w_trace w |}.
Definition with_meta (w : World) (m : option registry) : World :=
  {| w_files := w_files w; w_dirs := w_dirs w; w_locked := w_locked w;
     w_meta := m; w_tick := w_tick w; w_trace := w_trace w |}.
Definition with_tick (w : World) (n : nat) : World :=
  {| w_files := w_files w; w_dirs := w_dirs w; w_locked := w_locked w;
     w_meta := w_meta w; w_tick := n; w_trace := w_trace w |}.
Definition with_locked (w : World) (l : list string) : World :=
  {| w_files := w_files w; w_dirs := w_dirs w; w_locked := l;
     w_meta := w_meta w; w_tick := w_tick w; w_trace := w_trace w |}.
Definition log (w : World) (e : event) : World :=
  {| w_files := w_files w; w_dirs := w_dirs w; w_locked := w_locked w;
     w_meta := w_meta w; w_tick := w_tick w; w_trace := w_trace w ++ [e] |}.

Definition isfile (w : World) (p : string) : bool :=
  dict_mem String.eqb (w_files w) p.
Definition isdir (w : World) (p : string) : bool :=
  dict_mem String.eqb (w_dirs w) p.
Definition exists_ (w : World) (p : string) : bool :=
  isfile w p || isdir w p.

(** [os.remove(p)] on a regular file outside the snapshot store. *)
Definition remove (w : World) (p : string) : outcome unit * World :=
  if isfile w p && negb (mem p (w_locked w))
  then (Ok tt, log (with_files w (dict_del String.eqb (w_files w) p))
                   (EvRemove p true))
  else (Raise OSError, log w (EvRemove p false)).

(** [ensure_dir(p)] for a snapshot directory. *)
Definition ensure_dir (w : World) (p : string) : World :=
  if isdir w p then w
  else with_dirs w (dict_set String.eqb (w_dirs w) p []).

(** [os.remove] and [os.rmdir] inside a snapshot directory [p], applied
    to the entries listed there; a failure is passed over, as the
    [try]/[except: pass] around each call does. *)
Fixpoint remove_files (locked : list string) (p : string) (ks : list node)
  : list node * list event :=
  match ks with
  | [] => ([], [])
  | NFile name c :: ks' =>
      let (r, ev) := remove_files locked p ks' in
      if mem (join p name) locked
      then (NFile name c :: r, EvRemove (join p name) false :: ev)
      else (r, EvRemove (join p name) true :: ev)
  | k :: ks' =>
      let (r, ev) := remove_files locked p ks' in (k :: r, ev)
  end.

Fixpoint rmdir_dirs (locked : list string) (p : string) (ks : list node)
  : list node * list event :=
  match ks with
  | [] => ([], [])
  | NDir name [] :: ks' =>
      let (r, ev) := rmdir_dirs locked p ks' in
      if mem (join p name) locked
      then (NDir name [] :: r, EvRmdir (join p name) false :: ev)
      else (r, EvRmdir (join p name) true :: ev)
  | NDir name kids :: ks' =>
      let (r, ev) := rmdir_dirs locked p ks' in
      (NDir name kids :: r, EvRmdir (join p name) false :: ev)
  | k :: ks' =>
      let (r, ev) := rmdir_dirs locked p ks' in (k :: r, ev)
  end.

(** The loop over [os.walk(p, topdown=False)]: the sub-directories are
    walked first, then the files of [p] are removed, then its
    sub-directories. *)
Fixpoint walk (locked : list string) (p : string) (n : node)
  : node * list event :=
  match n with
  | NFile _ _ => (n, [])
  | NDir name kids =>
      let fix deep (ks : list node) : list node * list event :=
        match ks with
        | [] => ([], [])
        | k :: ks' =>
            let (k1, e1) := walk locked (join p (node_name k)) k in
            let (r, e2) := deep ks' in
            (k1 :: r, e1 ++ e2)
        end in
      let (kids1, ev1) := deep kids in
      let (kids2, ev2) := remove_files locked p kids1 in
      let (kids3, ev3) := rmdir_dirs locked p kids2 in
      (NDir name kids3, ev1 ++ ev2 ++ ev3)
  end.

Definition walk_dir (locked : list string) (p : string) (kids : list node)
  : list node * list event :=
  match walk locked p (NDir p kids) with
  | (NDir _ rest, ev) => (rest, ev)
  | (NFile _ _, ev) => (kids, ev)
  end.

End Fs.
Export Fs.

(** ** [src/indexer.py] *)

Module Indexer.

(** The [NearestNeighbors] object: created, then fitted on a matrix. *)
Inductive nn : Type :=
| Unfitted
| Fitted (X : list vec).

Record ChunkIndex : Type := {
  model_name : string;
  index : option nn;
  embeddings : option (list vec);
  meta : list chunk;
  _bm25 : option (list (list string));   (* BM25Okapi over this corpus *)
  _bm25_corpus : list (list string)
}.

Definition default_model : string :=
  "sentence-transformers/all-MiniLM-L6-v2".

(** [ChunkIndex(model_name)]. *)
Definition new (name : string) : ChunkIndex :=
  {| model_name := name; index := None; embeddings := None; meta := [];
     _bm25 := None; _bm25_corpus := [] |}.

Definition set_index (v : option nn) (s : ChunkIndex) : ChunkIndex :=
  {| model_name := model_name s; index := v; embeddings := embeddings s;
     meta := meta s; _bm25 := _bm25 s; _bm25_corpus := _bm25_corpus s |}.
Definition set_embeddings (v : option (list vec)) (s : ChunkIndex)
  : ChunkIndex :=
  {| model_name := model_name s; index := index s; embeddings := v;
     meta := meta s; _bm25 := _bm25 s; _bm25_corpus := _bm25_corpus s |}.
Definition set_meta (v : list chunk) (s : ChunkIndex) : ChunkIndex :=
  {| model_name := model_name s; index := index s;
     embeddings := embeddings s; meta := v; _bm25 := _bm25 s;
     _bm25_corpus := _bm25_corpus s |}.
Definition set_bm25 (v : option (list (list string))) (s : ChunkIndex)
  : ChunkIndex :=
  {| model_name := model_name s; index := index s;
     embeddings := embeddings s; meta := meta s; _bm25 := v;
     _bm25_corpus := _bm25_corpus s |}.
Definition set_bm25_corpus (v : list (list string)) (s : ChunkIndex)
  : ChunkIndex :=
  {| model_name := model_name s; index := index s;
     embeddings := embeddings s; meta := meta s; _bm25 := _bm25 s;
     _bm25_corpus := v |}.

(** [c["content"]]: a missing key raises; the encoder and the tokenizer
    are given strings. *)
Definition content_of (c : chunk) : outcome string :=
  match get c "content" with
  | None => Raise KeyError
  | Some (VStr s) => Ok s
  | Some _ => Raise TypeError
  end.

(** The id given to a chunk in [build]:
    [compute_id(ch.get("paper_id", ""), str(ch.get("page", "")),
                ch.get("type", ""), ch.get("content", ""))]. *)
Definition chunk_id (E : Backend) (ch : chunk) : outcome string :=
  p0 <~ as_str (dict_get_or String.eqb ch "paper_id" (VStr "")) ;;
  let p1 := py_str E (dict_get_or String.eqb ch "page" (VStr "")) in
  p2 <~ as_str (dict_get_or String.eqb ch "type" (VStr "")) ;;
  p3 <~ as_str (dict_get_or String.eqb ch "content" (VStr "")) ;;
  Ok (Utils.compute_id [p0; p1; p2; p3]).

(** [build(chunks)]. *)
Definition build (E : Backend) (chunks : list chunk) : M ChunkIndex unit :=
  texts <- lift (map_outcome content_of chunks) ;;
  embs <- lift (encode E texts) ;;
  modify (set_embeddings (Some embs)) ;;;
  modify (set_meta []) ;;;
  for_each chunks (fun ch =>
    ch_id <- lift (chunk_id E ch) ;;
    modify (fun s => set_meta (meta s ++ [set ch "id" (VStr ch_id)]) s)) ;;;
  modify (set_index (Some Unfitted)) ;;;
  _ <- lift (nn_fit E embs) ;;
  modify (set_index (Some (Fitted embs))) ;;;
  if bm25_available E then
    modify (set_bm25_corpus (map (tokenize E) texts)) ;;;
    _ <- lift (bm25_init E (map (tokenize E) texts)) ;;
    modify (set_bm25 (Some (map (tokenize E) texts)))
  else
    modify (set_bm25 None) ;;;
    modify (set_bm25_corpus []).

(** [query_dense(text, top_k)]. *)
Definition query_dense (E : Backend) (self : ChunkIndex) (text : string)
           (top_k : Z) : outcome (list (nat * score)) :=
  match index self, embeddings self with
  | Some ix, Some _ =>
      q <~ encode E [text] ;;
      rows <~ match ix with
              | Unfitted => Raise ValueError
              | Fitted X => kneighbors E X q (Z.min top_k (len (meta self)))
              end ;;
      match rows with
      | [] => Raise IndexError
      | r :: _ => Ok (map (fun id => (fst id, (1 - snd id)%Qc)) r)
      end
  | _, _ => Raise (RuntimeError "Index not built")
  end.

(** [query_bm25(text, top_k)]. *)
Definition query_bm25 (E : Backend) (self : ChunkIndex) (text : string)
           (top_k : Z) : outcome (list (nat * score)) :=
  match _bm25 self with
  | None => Ok []
  | Some corpus =>
      let scores := bm25_scores E corpus (tokenize E text) in
      let idxs :=
        slice_to (Z.min top_k (len scores)) (rev (argsort E scores)) in
      map_outcome
        (fun i => match nth_error scores i with
                  | Some s => Ok (i, s)
                  | None => Raise IndexError
                  end)
        idxs
  end.

Definition row_scores : Type := dict nat score.

(** The fusion of [retrieve] once both result lists are there and the
    sparse one is not empty. *)
Definition fuse (dense bm25 : list (nat * score)) (top_k : Z)
           (alpha : score) : list (nat * score) :=
  let bm_max :=
    match map snd bm25 with
    | [] => 0%Qc
    | x :: l => score_max x l
    end in
  let bm_norm : row_scores :=
    if score_ltb 0%Qc bm_max
    then fold_left (fun d is_ => dict_set Nat.eqb d (fst is_)
                                          (snd is_ / bm_max)%Qc) bm25 []
    else fold_left (fun d is_ => dict_set Nat.eqb d (fst is_) 0%Qc)
                   bm25 [] in
  let scores : row_scores :=
    fold_left (fun d is_ =>
                 dict_set Nat.eqb d (fst is_)
                   (dict_get_or Nat.eqb d (fst is_) 0%Qc
                    + alpha * snd is_)%Qc) dense [] in
  let scores : row_scores :=
    fold_left (fun d is_ =>
                 dict_set Nat.eqb d (fst is_)
                   (dict_get_or Nat.eqb d (fst is_) 0%Qc
                    + (1 - alpha) * snd is_)%Qc) bm_norm scores in
  slice_to top_k
    (sorted_desc (fun x y : nat * score => score_ltb (snd y) (snd x))
                 scores).

(** [retrieve(text, top_k, alpha)]. *)
Definition retrieve (E : Backend) (self : ChunkIndex) (text : string)
           (top_k : Z) (alpha : score) : outcome (list (nat * score)) :=
  dense <~ query_dense E self text top_k ;;
  bm25 <~ query_bm25 E self text top_k ;;
  match bm25 with
  | [] => Ok (slice_to top_k dense)
  | _ :: _ => Ok (fuse dense bm25 top_k alpha)
  end.

Definition default_alpha : score := Q2Qc (6 # 10).

(** [query(text, top_k)]. *)
Definition query (E : Backend) (self : ChunkIndex) (text : string)
           (top_k : Z) : outcome (list (nat * score)) :=
  retrieve E self text top_k default_alpha.

(** [open(os.path.join(d, name), "w")] and a write. *)
Fixpoint write_file (kids : list node) (name : string) (c : content)
  : outcome (list node) :=
  match kids with
  | [] => Ok [NFile name c]
  | NFile n c' :: kids' =>
      if String.eqb n name then Ok (NFile n c :: kids')
      else r <~ write_file kids' name c ;; Ok (NFile n c' :: r)
  | NDir n ks :: kids' =>
      if String.eqb n name then Raise OSError
      else r <~ write_file kids' name c ;; Ok (NDir n ks :: r)
  end.

Fixpoint read_file (kids : list node) (name : string) : outcome content :=
  match kids with
  | [] => Raise OSError
  | NFile n c :: kids' =>
      if String.eqb n name then Ok c else read_file kids' name
  | NDir n _ :: kids' =>
      if String.eqb n name then Raise OSError else read_file kids' name
  end.

Definition write (w : World) (dir name : string) (c : content)
  : outcome unit * World :=
  match dict_get String.eqb (w_dirs w) dir with
  | None => (Raise OSError, w)
  | Some kids =>
      match write_file kids name c with
      | Ok kids' =>
          (Ok tt, with_dirs w (dict_set String.eqb (w_dirs w) dir kids'))
      | Raise e => (Raise e, w)
      end
  end.

(** [save(out_dir)]. *)
Definition save (self : ChunkIndex) (out_dir : string) : M World unit :=
  modify (fun w => ensure_dir w out_dir) ;;;
  (fun w => write w out_dir "embeddings.npy"
              (match embeddings self with
               | Some e => CArray e
               | None => CJunk
               end)) ;;;
  (fun w => write w out_dir "meta.pkl" (CPickle (meta self))) ;;;
  (fun w => write w out_dir "model_name.txt" (CText (model_name self))).

(** [ChunkIndex.load(in_dir)]. *)
Definition load (E : Backend) (w : World) (in_dir : string)
  : outcome ChunkIndex :=
  kids <~ match dict_get String.eqb (w_dirs w) in_dir with
          | Some kids => Ok kids
          | None => Raise OSError
          end ;;
  name <~ (c <~ read_file kids "model_name.txt" ;;
           match c with CText s => Ok (strip s) | _ => Raise ValueError end) ;;
  m <~ (c <~ read_file kids "meta.pkl" ;;
        match c with CPickle m => Ok m | _ => Raise ValueError end) ;;
  e <~ (c <~ read_file kids "embeddings.npy" ;;
        match c with CArray e => Ok e | _ => Raise ValueError end) ;;
  _ <~ nn_fit E e ;;
  let ci := set_index (Some (Fitted e))
              (set_embeddings (Some e) (set_meta m (new name))) in
  if bm25_available E then
    texts <~ map_outcome
               (fun c => as_str (dict_get_or String.eqb c "content" (VStr "")))
               m ;;
    _ <~ bm25_init E (map (tokenize E) texts) ;;
    Ok (set_bm25 (Some (map (tokenize E) texts))
          (set_bm25_corpus (map (tokenize E) texts) ci))
  else Ok ci.

End Indexer.

(** ** [src/rerank.py] *)

Module Rerank.

(** [self.model.predict(pairs)]: one score per pair. *)
Definition predict (E : Backend) (pairs : list (string * value))
  : list score :=
  map (fun p => predict_pair E (fst p) (snd p)) pairs.

(** [for c, s in zip(candidates, scores): c["rerank_score"] = float(s)]. *)
Fixpoint attach (cs : list chunk) (ss : list score) : list chunk :=
  match cs, ss with
  | c :: cs', x :: ss' => set c "rerank_score" (VFloat x) :: attach cs' ss'
  | _, _ => cs
  end.

(** The sort key [(x.get("rerank_score", 0.0), x.get("score", 0.0))]. *)
Definition key (c : chunk) : score * score :=
  (get_float c "rerank_score" 0%Qc, get_float c "score" 0%Qc).

(** Tuples compare lexicographically. *)
Definition key_gtb (a b : chunk) : bool :=
  score_ltb (fst (key b)) (fst (key a))
  || (score_eqb (fst (key a)) (fst (key b))
      && score_ltb (snd (key b)) (snd (key a))).

(** [rerank(query, candidates, top_k)]: the calls made to the scoring
    model, and the returned list. *)
Definition rerank (E : Backend) (query : string) (candidates : list chunk)
           (top_k : Z) : list event * list chunk :=
  match candidates with
  | [] => ([], [])
  | _ :: _ =>
      let pairs :=
        map (fun c => (query, dict_get_or String.eqb c "content" (VStr "")))
            candidates in
      let scores := predict E pairs in
      ([EvPredict pairs],
       slice_to top_k (sorted_desc key_gtb (attach candidates scores)))
  end.

End Rerank.

(** ** [src/corpus.py] *)

Module Corpus.
Import Indexer.

Record Manager : Type := {
  _indices : dict string ChunkIndex;
  _file_map : registry;
  world : World
}.

Definition CM (A : Type) : Type := M Manager A.

Definition set_indices (v : dict string ChunkIndex) (s : Manager) : Manager :=
  {| _indices := v; _file_map := _file_map s; world := world s |}.
Definition set_file_map (v : registry) (s : Manager) : Manager :=
  {| _indices := _indices s; _file_map := v; world := world s |}.
Definition set_world (v : World) (s : Manager) : Manager :=
  {| _indices := _indices s; _file_map := _file_map s; world := v |}.

(** A file-system action run from a method. *)
Definition in_world {A} (m : M World A) : CM A :=
  fun s => let (r, w) := m (world s) in (r, set_world w s).

Definition emit (e : event) : CM unit :=
  modify (fun s => set_world (log (world s) e) s).

(** [os.path.basename]. *)
Fixpoint basename_from (s acc : string) : string :=
  match s with
  | EmptyString => acc
  | String c s' =>
      if Ascii.eqb c "/" then basename_from s' EmptyString
      else basename_from s' (acc ++ String c EmptyString)%string
  end.
Definition basename (p : string) : string := basename_from p EmptyString.

Definition lower_char (c : ascii) : ascii :=
  let n := nat_of_ascii c in
  if ((65 <=? n) && (n <=? 90))%nat then ascii_of_nat (n + 32) else c.

Fixpoint lower (s : string) : string :=
  match s with
  | EmptyString => EmptyString
  | String c s' => String (lower_char c) (lower s')
  end.

Definition endswith (s suffix : string) : bool :=
  let n := String.length s in
  let m := String.length suffix in
  (m <=? n)%nat && String.eqb (substring (n - m) m s) suffix.

(** [math.ceil(a / b)] for a positive divisor. *)
Definition ceil_div (a b : Z) : Z := - ((- a) / b).

Definition _load_metadata : CM unit :=
  w <- gets world ;;
  match w_meta w with
  | Some data => modify (set_file_map data)
  | None => modify (set_file_map [])
  end.

Definition _save_metadata : CM unit :=
  r <- gets _file_map ;;
  modify (fun s => set_world (with_meta (world s) (Some r)) s) ;;;
  emit (EvSaveMeta r).

Definition _generate_uid_for_file (E : Backend) (pdf_path : string)
  : CM string :=
  w <- gets world ;;
  match dict_get String.eqb (w_files w) pdf_path with
  | None => raise OSError
  | Some st =>
      let base := basename pdf_path in
      modify (fun s => set_world (with_tick (world s) (S (w_tick w))) s) ;;;
      ret (Utils.compute_id
             [base; str_of_Z (f_size st); str_of_Z (f_mtime st);
              clock E (w_tick w)])
  end.

Definition _index_dir_for_uid (uid : string) : string := join IDS_DIR uid.

(** [build_chunks(parse_pdf(pdf_path, paper_id=title))]: every chunk is
    the dictionary [{"type", "paper_id", "page", "content", "refs"}]. *)
Definition parse_and_chunk (w : World) (pdf_path title : string)
  : outcome (list chunk) :=
  match dict_get String.eqb (w_files w) pdf_path with
  | None => Raise OSError
  | Some f =>
      ps <~ f_passages f ;;
      Ok (map (fun p => [("type", VStr (p_type p));
                         ("paper_id", VStr title);
                         ("page", VInt (p_page p));
                         ("content", VStr (p_content p));
                         ("refs", VObj (p_refs p))]) ps)
  end.

Definition _build_index_for_pdf (E : Backend) (pdf_path uid : string)
  : CM ChunkIndex :=
  emit (EvBuild pdf_path uid) ;;;
  let title := basename pdf_path in
  w <- gets world ;;
  chunks <- lift (parse_and_chunk w pdf_path title) ;;
  match build E chunks (new default_model) with
  | (Raise e, _) => raise e
  | (Ok _, index) =>
      let idx_dir := _index_dir_for_uid uid in
      in_world (modify (fun w => ensure_dir w idx_dir)) ;;;
      in_world (save index idx_dir) ;;;
      ret index
  end.

Definition _ensure_index_for_uid (E : Backend) (uid pdf_path : string)
  : CM ChunkIndex :=
  idxs <- gets _indices ;;
  match dict_get String.eqb idxs uid with
  | Some index => ret index
  | None =>
      let idx_dir := _index_dir_for_uid uid in
      w <- gets world ;;
      index <- match load E w idx_dir with
               | Ok index => emit (EvLoad idx_dir true) ;;; ret index
               | Raise _ =>
                   emit (EvLoad idx_dir false) ;;;
                   _build_index_for_pdf E pdf_path uid
               end ;;
      modify (fun s => set_indices
                         (dict_set String.eqb (_indices s) uid index) s) ;;;
      ret index
  end.

(** Truth value of an optional string: [None] and [""] are false. *)
Definition truthy (o : option string) : bool :=
  match o with
  | Some (String _ _) => true
  | _ => false
  end.

(** One turn of the loop of [_load_existing_indices]. *)
Definition load_entry (E : Backend) (fm : string * entry) : CM unit :=
  let filename := fst fm in
  let meta := snd fm in
  w <- gets world ;;
  match uid meta, pdf_path meta with
  | Some u, Some p =>
      if truthy (Some u) && truthy (Some p) && exists_ w p then
        try_except (_ <- _ensure_index_for_uid E u p ;; ret tt) (ret tt)
      else
        modify (fun s => set_file_map
                           (dict_del String.eqb (_file_map s) filename) s)
  | _, _ =>
      modify (fun s => set_file_map
                         (dict_del String.eqb (_file_map s) filename) s)
  end.

Definition _load_existing_indices (E : Backend) : CM unit :=
  items <- gets _file_map ;;
  for_each items (load_entry E) ;;;
  _save_metadata.

(** [CorpusManager()]. *)
Definition init (E : Backend) (w : World) : outcome unit * Manager :=
  (_load_metadata ;;; _load_existing_indices E)
    {| _indices := []; _file_map := []; world := w |}.

(** The candidates one index contributes: its neighbours' meta entries,
    copied, with the fused score stored under ["score"]. *)
Definition tag (idx : ChunkIndex) (neighbors : list (nat * score))
  : outcome (list chunk) :=
  map_outcome
    (fun is_ => match nth_error (meta idx) (fst is_) with
                | Some m => Ok (set m "score" (VFloat (snd is_)))
                | None => Raise IndexError
                end)
    neighbors.

Fixpoint gather (E : Backend) (query : string) (per_file_k : Z)
         (idxs : list (string * ChunkIndex)) (results : list chunk)
  : CM (list chunk) :=
  match idxs with
  | [] => ret results
  | (u, idx) :: idxs' =>
      emit (EvQuery u query per_file_k) ;;;
      match Indexer.query E idx query per_file_k with
      | Raise _ => gather E query per_file_k idxs' results
      | Ok neighbors =>
          cs <- lift (tag idx neighbors) ;;
          gather E query per_file_k idxs' (results ++ cs)
      end
  end.

Definition _aggregate_query (E : Backend) (query : string) (top_k : Z)
  : CM (list chunk) :=
  idxs <- gets _indices ;;
  let num_files := Z.max 1 (len idxs) in
  let per_file_k := Z.max 3 (ceil_div (top_k * 3) num_files) in
  candidates <- gather E query per_file_k idxs [] ;;
  emit (EvRerank query candidates top_k) ;;;
  let (calls, reranked) := Rerank.rerank E query candidates top_k in
  for_each calls emit ;;;
  ret reranked.

Definition copy2 (src dst : string) : CM unit :=
  modify (fun s =>
    match dict_get String.eqb (w_files (world s)) src with
    | Some f =>
        set_world (with_files (world s)
                     (dict_set String.eqb (w_files (world s)) dst f)) s
    | None => s
    end).

Fixpoint add_loop (E : Backend) (file_paths : list string)
         (added_items : list (string * string))
  : CM (list (string * string)) :=
  match file_paths with
  | [] => ret added_items
  | src :: rest =>
      w <- gets world ;;
      if negb (isfile w src) || negb (endswith (lower src) ".pdf")
      then add_loop E rest added_items
      else
        let filename := basename src in
        let dst := join PDF_DIR filename in
        (if String.eqb src dst then ret tt else copy2 src dst) ;;;
        u <- _generate_uid_for_file E dst ;;
        modify (fun s => set_file_map
                  (dict_set String.eqb (_file_map s) filename
                     (Entry (Some u) (Some dst))) s) ;;;
        _ <- _ensure_index_for_uid E u dst ;;
        add_loop E rest (added_items ++ [(filename, u)])
  end.

(** [add_pdfs(file_paths)]: the ["items"] of the returned dictionary. *)
Definition add_pdfs (E : Backend) (file_paths : list string)
  : CM (list (string * string)) :=
  added_items <- add_loop E file_paths [] ;;
  _save_metadata ;;;
  ret added_items.

(** [ask(question, top_k)]: the ["chunks"] of the returned dictionary;
    the answer text comes from the generator. *)
Definition ask (E : Backend) (question : string) (top_k : Z)
  : CM (list chunk) :=
  idxs <- gets _indices ;;
  match idxs with
  | [] => ret []
  | _ :: _ => _aggregate_query E question top_k
  end.

Inductive deletion : Type :=
| Deleted
| NotDeleted (reason : string).

(** The removal of the snapshot directory in [delete_pdf]. *)
Definition remove_index_dir (idx_dir : string) : M World unit :=
  fun w =>
    match dict_get String.eqb (w_dirs w) idx_dir with
    | None => (Ok tt, w)
    | Some kids =>
        let (rest, evs) := walk_dir (w_locked w) idx_dir kids in
        let w1 := fold_left log evs w in
        match rest with
        | [] =>
            if mem idx_dir (w_locked w)
            then (Ok tt, log (with_dirs w1 (dict_set String.eqb (w_dirs w1)
                                              idx_dir rest))
                             (EvRmdir idx_dir false))
            else (Ok tt, log (with_dirs w1 (dict_del String.eqb (w_dirs w1)
                                              idx_dir))
                             (EvRmdir idx_dir true))
        | _ :: _ =>
            (Ok tt, log (with_dirs w1 (dict_set String.eqb (w_dirs w1)
                                         idx_dir rest))
                        (EvRmdir idx_dir false))
        end
    end.

(** The end of [delete_pdf], from [if uid in self._indices] on. *)
Definition forget (filename u : string) : CM deletion :=
  modify (fun s => set_indices (dict_del String.eqb (_indices s) u) s) ;;;
  in_world (remove_index_dir (_index_dir_for_uid u)) ;;;
  modify (fun s => set_file_map
                     (dict_del String.eqb (_file_map s) filename) s) ;;;
  _save_metadata ;;;
  ret Deleted.

Definition delete_pdf (filename : string) : CM deletion :=
  r <- gets _file_map ;;
  match dict_get String.eqb r filename with
  | None | Some (Entry None None) => ret (NotDeleted "File not found")
  | Some meta =>
      w <- gets world ;;
      removed <-
        match pdf_path meta with
        | Some p =>
            if truthy (Some p) && exists_ w p
            then try_except (in_world (fun w => remove w p) ;;; ret true)
                            (ret false)
            else ret true
        | None => ret true
        end ;;
      if negb removed then ret (NotDeleted "Failed to remove file")
      else
        match uid meta with
        | None => raise TypeError
        | Some u => forget filename u
        end
  end.

End Corpus.

(** ** [src/utils.py] ([sliding_window_chunks]) and [src/chunker.py] *)

Module Chunker.

(** [len] and slicing count code points, so in this module a [str] is
    the list of its code points. *)
Definition text : Type := list N.

Definition space : N := 32%N.

(** ["text"]. *)
Definition kw_text : text := [116; 101; 120; 116]%N.

Fixpoint text_eqb (a b : text) : bool :=
  match a, b with
  | [], [] => true
  | x :: a', y :: b' => N.eqb x y && text_eqb a' b'
  | _, _ => false
  end.

(** [" ".join(l)]. *)
Fixpoint join_space (l : list text) : text :=
  match l with
  | [] => []
  | [s] => s
  | s :: l' => s ++ space :: join_space l'
  end.

Section Window.
Variables max_chars overlap_sentences : Z.

(** The inner [while]: the sentences appended to [current], from the
    sentences not yet read. *)
Fixpoint window (rest : list text) (total : Z) : list text :=
  match rest with
  | [] => []
  | s :: rest' =>
      if total + len s + 1 <=? max_chars
      then s :: window rest' (total + len s + 1)
      else []
  end.

(** The outer [while], from [start]; [None] when [fuel] rounds do not
    reach its end. *)
Fixpoint windows (fuel : nat) (sentences : list text) (start : nat)
  : option (list text) :=
  match skipn start sentences with
  | [] => Some []
  | (first :: _) as rest =>
      match fuel with
      | O => None
      | S fuel' =>
          let taken := window rest 0 in
          let current :=
            match taken with
            | [] => [slice_to max_chars first]
            | _ :: _ => taken
            end in
          let i :=
            match taken with
            | [] => S start
            | _ :: _ => (start + List.length taken)%nat
            end in
          if (List.length sentences <=? i)%nat
          then Some [join_space current]
          else
            option_map (cons (join_space current))
              (windows fuel' sentences
                 (Z.to_nat (Z.max (Z.of_nat i - overlap_sentences)
                                  (Z.of_nat start + 1))))
      end
  end.

(** [sliding_window_chunks(sentences, max_chars, overlap_sentences)]. *)
Definition sliding_window_chunks (sentences : list text)
  : option (list text) :=
  windows (List.length sentences) sentences 0.

End Window.

(** The [refs] mapping of a page item: kind and labels. *)
Definition refs : Type := list (string * list text).

(** One item of [parse_pdf]: ["sentences"] and ["refs"] are read with
    [get]. *)
Record page_item : Type := PageItem {
  i_type : text;
  i_paper_id : text;
  i_page : Z;
  i_content : text;
  i_sentences : option (list text);
  i_refs : option refs
}.

(** One chunk: [{"type", "paper_id", "page", "content", "refs"}]. *)
Record piece : Type := Piece {
  c_type : text;
  c_paper_id : text;
  c_page : Z;
  c_content : text;
  c_refs : refs
}.

Definition refs_of (it : page_item) : refs :=
  match i_refs it with Some r => r | None => [] end.

(** What one page item appends to [output]. *)
Definition pieces_of (max_chars overlap_sentences : Z) (it : page_item)
  : option (list piece) :=
  if text_eqb (i_type it) kw_text then
    option_map
      (map (fun chunk =>
              Piece kw_text (i_paper_id it) (i_page it) chunk (refs_of it)))
      (sliding_window_chunks max_chars overlap_sentences
         (match i_sentences it with Some s => s | None => [] end))
  else
    Some [Piece (i_type it) (i_paper_id it) (i_page it) (i_content it)
                (refs_of it)].

Fixpoint collect (max_chars overlap_sentences : Z) (pages : list page_item)
  : option (list piece) :=
  match pages with
  | [] => Some []
  | it :: pages' =>
      match pieces_of max_chars overlap_sentences it,
            collect max_chars overlap_sentences pages' with
      | Some a, Some b => Some (a ++ b)
      | _, _ => None
      end
  end.

(** [(ch["paper_id"], ch["page"], ch["type"], ch["content"])]. *)
Definition key (ch : piece) : text * Z * text * text :=
  (c_paper_id ch, c_page ch, c_type ch, c_content ch).

Definition key_eqb (a b : text * Z * text * text) : bool :=
  match a, b with
  | (d, p, t, c), (d', p', t', c') =>
      text_eqb d d' && (p =? p') && text_eqb t t' && text_eqb c c'
  end.

(** The loop that fills [deduped]; [seen] is the set of keys met. *)
Fixpoint dedup (seen : list (text * Z * text * text)) (output : list piece)
  : list piece :=
  match output with
  | [] => []
  | ch :: output' =>
      if existsb (key_eqb (key ch)) seen then dedup seen output'
      else ch :: dedup (key ch :: seen) output'
  end.

(** [build_chunks(parsed_pages, max_chars, overlap_sentences)]. *)
Definition build_chunks (max_chars overlap_sentences : Z)
           (pages : list page_item) : option (list piece) :=
  option_map (dedup []) (collect max_chars overlap_sentences pages).

End Chunker.

(** ** [src/corpus.py]: listing, reset and ingestion from a URL *)

Module Admin.
Import Indexer Corpus.


(** [sorted(l)] on strings: code point order is byte order in UTF-8. *)
Fixpoint insert_asc (x : string) (l : list string) : list string :=
  match l with
  | [] => [x]
  | y :: l' => if String.leb x y then x :: l else y :: insert_asc x l'
  end.

Fixpoint sorted_asc (l : list string) : list string :=
  match l with
  | [] => []
  | x :: l' => insert_asc x (sorted_asc l')
  end.

(** [list_pdfs()]. *)
Definition list_pdfs (s : Manager) : list string :=
  sorted_asc (dict_keys (_file_map s)).











End Admin.

(** ** [src/utils.py] ([compute_files_digest]) *)

Module Digest.

(** What [os.stat(p)] gives: size and whole seconds of the modification
    time, [FileNotFoundError], or another error. *)
Inductive stat_result : Type :=
| Stat (size mtime : Z)
| NotFound
| StatError (e : exn).

(** The updates of the hash, path by path. *)
Fixpoint updates (stat : string -> stat_result) (paths : list string)
  : outcome (list string) :=
  match paths with
  | [] => Ok []
  | p :: paths' =>
      match stat p with
      | Stat size mtime =>
          r <~ updates stat paths' ;;
          Ok (p :: str_of_Z size :: str_of_Z mtime :: r)
      | NotFound => updates stat paths'
      | StatError e => Raise e
      end
  end.

(** [compute_files_digest(file_paths)]. *)
Definition compute_files_digest (stat : string -> stat_result)
           (file_paths : list string) : outcome string :=
  parts <~ updates stat (Admin.sorted_asc file_paths) ;;
  Ok (Utils.prefix_str 16 (Sha256.hexdigest (String.concat "" parts))).

End Digest.

(** ** [src/qa.py] *)

Module Qa.

Definition nl : string := String (ascii_of_nat 10) EmptyString.

(** [_style_prefix()]. *)
Definition _style_prefix (style : string) : string :=
  if String.eqb style "detailed" then
    "Write a thorough technical answer with inline citations like [C1], [C2]."
  else if String.eqb style "bullet" then
    "Answer in concise bullet points with inline citations like [C1]."
  else if String.eqb style "citation" then
    "Answer concisely and include [CITATION] tags referencing chunk ids."
  else "Answer briefly and precisely with citations.".

(** [[f"C{i+1}" for i in range(n)]]. *)
Definition default_ids (n : nat) : list string :=
  map (fun i => ("C" ++ str_of_Z (Z.of_nat i + 1))%string) (seq 0 n).

(** The prompt [answer] gives to the model. *)
Definition prompt (style query : string) (contexts : list string)
           (ids : option (list string)) : string :=
  let contexts := firstn 4 contexts in
  let ids :=
    match ids with
    | None => default_ids (List.length contexts)
    | Some l => firstn (List.length contexts) l
    end in
  let joined :=
    map (fun p => ("[" ++ fst p ++ "] " ++ snd p)%string)
        (combine ids contexts) in
  let context_str := String.concat (nl ++ nl) joined in
  (_style_prefix style
   ++ " Use only the provided context. If the context does not contain the answer, respond exactly: Insufficient evidence."
   ++ nl ++ nl ++ "Context:" ++ nl ++ context_str ++ nl ++ nl
   ++ "Question: " ++ query ++ nl ++ "Answer (with citations):")%string.

(** [answer(query, contexts, ids, max_new_tokens)].  [generate] stands
    for the tokenizer, the model and the decoding of its output with the
    white space around it removed. *)
Definition answer (generate : string -> Z -> string) (style query : string)
           (contexts : list string) (ids : option (list string))
           (max_new_tokens : Z) : string :=
  match contexts with
  | [] => "Insufficient evidence."
  | _ :: _ => generate (prompt style query contexts ids) max_new_tokens
  end.

End Qa.

(** ** Concrete backends and worlds used in the examples *)

Module Scenarios.
Import Indexer Corpus.

Definition half : score := Q2Qc (1 # 2).
Definition one : score := 1%Qc.

(** Rows [0 .. n-1] at distance [1/2]. *)
Definition rows_at_half (n : nat) : list (nat * score) :=
  map (fun i => (i, half)) (seq 0 n).

(** [np.argsort] by insertion, ascending. *)
Definition argsort_asc (scores : list score) : list nat :=
  map fst
      (rev (sorted_desc (fun a b : nat * score => score_ltb (snd b) (snd a))
                        (rev (combine (seq 0 (List.length scores)) scores)))).

(** A backend with the input validation of the libraries the code
    imports: scikit-learn's [NearestNeighbors.fit] requires at least one
    sample and [kneighbors] a positive [n_neighbors]; [BM25Okapi]
    divides by the corpus size. *)
Definition strict : Backend :=
  {| encode := fun texts => Ok (map (fun _ => [one]) texts);
     nn_fit := fun X => match X with [] => Raise ValueError | _ => Ok tt end;
     kneighbors := fun X q n =>
       if n <=? 0 then Raise ValueError
       else Ok (map (fun _ => rows_at_half (Nat.min (Z.to_nat n)
                                                    (List.length X))) q);
     bm25_available := true;
     bm25_init := fun corpus =>
       match corpus with [] => Raise ZeroDivisionError | _ => Ok tt end;
     bm25_scores := fun corpus _ => map (fun _ => 0%Qc) corpus;
     tokenize := fun t => [t];
     argsort := argsort_asc;
     repr_float := fun _ => "0.0";
     predict_pair := fun _ _ => one;
     clock := fun n => ("1700000000." ++ str_of_Z (Z.of_nat n))%string |}.

(** A backend whose libraries accept an empty batch. *)
Definition lenient : Backend :=
  {| encode := fun texts => Ok (map (fun _ => [one]) texts);
     nn_fit := fun _ => Ok tt;
     kneighbors := fun X q n =>
       Ok (map (fun _ => rows_at_half (Nat.min (Z.to_nat n)
                                               (List.length X))) q);
     bm25_available := true;
     bm25_init := fun _ => Ok tt;
     bm25_scores := fun corpus _ => map (fun _ => 0%Qc) corpus;
     tokenize := fun t => [t];
     argsort := argsort_asc;
     repr_float := fun _ => "0.0";
     predict_pair := fun _ _ => one;
     clock := fun n => ("1700000000." ++ str_of_Z (Z.of_nat n))%string |}.

(** Two passages: the query is at cosine distance [0] from row 1 and
    [1/2] from row 0, while BM25 scores row 0 with 2 and row 1 with 1. *)
Definition tied : Backend :=
  {| encode := fun texts => Ok (map (fun _ => [one]) texts);
     nn_fit := fun X => match X with [] => Raise ValueError | _ => Ok tt end;
     kneighbors := fun X q n =>
       if n <=? 0 then Raise ValueError
       else Ok (map (fun _ => firstn (Z.to_nat n) [(1%nat, 0%Qc); (0%nat, half)])
                    q);
     bm25_available := true;
     bm25_init := fun corpus =>
       match corpus with [] => Raise ZeroDivisionError | _ => Ok tt end;
     bm25_scores := fun _ _ => [Q2Qc (2 # 1); one];
     tokenize := fun t => [t];
     argsort := argsort_asc;
     repr_float := fun _ => "0.0";
     predict_pair := fun _ _ => one;
     clock := fun n => ("1700000000." ++ str_of_Z (Z.of_nat n))%string |}.

Definition two_chunks : list chunk :=
  [ [("type", VStr "text"); ("paper_id", VStr "A.pdf"); ("page", VInt 1);
     ("content", VStr "alpha beta"); ("refs", VObj "{}")];
    [("type", VStr "text"); ("paper_id", VStr "A.pdf"); ("page", VInt 2);
     ("content", VStr "gamma"); ("refs", VObj "{}")] ].

Definition two_rows : ChunkIndex :=
  Eval vm_compute in snd (build tied two_chunks (new default_model)).

Definition rows_of (o : outcome (list (nat * score))) : list (nat * score) :=
  match o with Ok l => l | Raise _ => [] end.


Definition doc_A : pdf :=
  {| f_size := 2048; f_mtime := 1699999999;
     f_passages := Ok [Passage "text" 1 "alpha beta" "{}";
                       Passage "caption" 2 "Figure 1: gamma" "{}"] |}.

Definition upload : World :=
  {| w_files := [("up/A.pdf", doc_A)]; w_dirs := []; w_locked := [];
     w_meta := None; w_tick := 0; w_trace := [] |}.

(** A fresh manager over [w]. *)
Definition started (E : Backend) (w : World) : Manager := snd (init E w).

(** The state a method leaves, and its result. *)
Definition after {A} (m : CM A) (s : Manager) : Manager := snd (m s).
Definition result {A} (m : CM A) (s : Manager) : outcome A := fst (m s).

(** [A.pdf] uploaded once, and uploaded a second time. *)
Definition ingested : Manager :=
  Eval vm_compute in
    after (add_pdfs strict ["up/A.pdf"]) (started strict upload).
Definition reingested : Manager :=
  Eval vm_compute in after (add_pdfs strict ["up/A.pdf"]) ingested.

(** The index built at the first upload. *)
Definition first_index : ChunkIndex :=
  Eval vm_compute in
  match dict_get String.eqb (_indices ingested) "63680963cf6f12a9" with
  | Some ix => ix
  | None => new default_model
  end.

(** After the first upload, with the stored document or one snapshot file
    protected against removal. *)
Definition source_locked : Manager :=
  set_world (with_locked (world ingested) ["data/pdfs/A.pdf"]) ingested.
Definition snapshot_locked : Manager :=
  set_world
    (with_locked (world ingested)
       ["data/index/by_id/63680963cf6f12a9/meta.pkl"]) ingested.

(** A registry left by an earlier process: [A.pdf] is still there but
    its snapshot is gone, [B.pdf] has vanished. *)
Definition restart : World :=
  {| w_files := [("data/pdfs/A.pdf", doc_A)]; w_dirs := []; w_locked := [];
     w_meta := Some [("A.pdf", Entry (Some "63680963cf6f12a9")
                                     (Some "data/pdfs/A.pdf"));
                     ("B.pdf", Entry (Some "0123456789abcdef")
                                     (Some "data/pdfs/B.pdf"))];
     w_tick := 0; w_trace := [] |}.

End Scenarios.

(** ** The properties stated by the specification, in its words *)

Module Spec.
Import Indexer Corpus.

(** *** Aggregation budget *)

Definition per_index_k (top_k loaded : Z) : Z :=
  Z.max 3 (ceil_div (top_k * 3) (Z.max 1 loaded)).

(** What one index adds to the candidate pool when asked for [k]. *)
Definition contribution (E : Backend) (q : string) (k : Z)
           (idx : ChunkIndex) : list chunk :=
  match Indexer.query E idx q k with
  | Ok neighbors =>
      match tag idx neighbors with Ok cs => cs | Raise _ => [] end
  | Raise _ => []
  end.

Definition pool (E : Backend) (q : string) (k : Z)
           (idxs : dict string ChunkIndex) : list chunk :=
  flat_map (fun ui => contribution E q k (snd ui)) idxs.

(** *** Fusion *)



Definition top (l : list (nat * score)) : score :=
  match map snd l with
  | [] => 0%Qc
  | x :: r => score_max x r
  end.

(** Sparse scores divided by their maximum, [0] when it is not
    positive. *)
Definition normalized (bm25 : list (nat * score)) : list (nat * score) :=
  map (fun is_ => (fst is_, if score_ltb 0%Qc (top bm25)
                            then (snd is_ / top bm25)%Qc else 0%Qc)) bm25.



Definition higher (x y : nat * score) : bool := score_ltb (snd y) (snd x).





(** *** Reranking *)

(** A candidate with its relevance attached. *)
Definition scored (E : Backend) (q : string) (c : chunk) : chunk :=
  set c "rerank_score"
      (VFloat (predict_pair E q
                 (dict_get_or String.eqb c "content" (VStr "")))).

Definition relevance (c : chunk) : score := get_float c "rerank_score" 0%Qc.
Definition retrieval_score (c : chunk) : score := get_float c "score" 0%Qc.

(** [a] may stand before [b]: higher relevance, or equal relevance and
    a retrieval score at least as high. *)
Definition before (a b : chunk) : Prop :=
  (relevance b < relevance a)%Qc
  \/ (relevance a = relevance b
      /\ (retrieval_score b <= retrieval_score a)%Qc).

(** *** Content address *)

Definition passage_id (document_id : string) (page : Z)
           (kind content : string) : string :=
  Utils.compute_id [document_id; str_of_Z page; kind; content].

(** A chunk with these four fields. *)
Definition carries (ch : chunk) (document_id : string) (page : Z)
           (kind content : string) : Prop :=
  get ch "paper_id" = Some (VStr document_id)
  /\ get ch "page" = Some (VInt page)
  /\ get ch "type" = Some (VStr kind)
  /\ get ch "content" = Some (VStr content).

(** The bytes that are hashed. *)
Definition message (document_id : string) (page : Z)
           (kind content : string) : string :=
  (document_id ++ str_of_Z page ++ kind ++ content)%string.

(** *** Federation *)

(** Every loaded index belongs to a current registry entry. *)
Definition loaded_are_current (s : Manager) : Prop :=
  forall u, dict_mem String.eqb (_indices s) u = true ->
            exists f e, dict_get String.eqb (_file_map s) f = Some e
                        /\ uid e = Some u.

(** The events a call appended to the trace. *)
Definition new_events (s s' : Manager) (evs : list event) : Prop :=
  w_trace (world s') = w_trace (world s) ++ evs.

(** The removal of the source document of an entry fails: the path is
    there but is not a regular file that can be removed. *)
Definition source_removal_fails (w : World) (e : entry) : bool :=
  match pdf_path e with
  | Some p =>
      truthy (Some p) && exists_ w p
      && negb (isfile w p && negb (mem p (w_locked w)))
  | None => false
  end.

(** What a call that only loads or builds indices may change: the
    registry and the regular files stay, directories and loaded indices
    are only added, and [seg] is appended to the trace. *)
Definition extends (s s' : Manager) (seg : list event) : Prop :=
  _file_map s' = _file_map s
  /\ w_files (world s') = w_files (world s)
  /\ w_meta (world s') = w_meta (world s)
  /\ (forall p, isdir (world s) p = true -> isdir (world s') p = true)
  /\ w_trace (world s') = w_trace (world s) ++ seg
  /\ (forall u ix, dict_get String.eqb (_indices s) u = Some ix ->
                   dict_get String.eqb (_indices s') u = Some ix).

(** In a trace, every failed load of a snapshot is followed at once by
    the rebuild of that index, and no rebuild happens otherwise. *)
Fixpoint rebuild_follows_failed_load (t : list event) : bool :=
  match t with
  | [] => true
  | EvLoad d false :: EvBuild _ u :: t' =>
      String.eqb d (_index_dir_for_uid u) && rebuild_follows_failed_load t'
  | EvLoad _ false :: _ => false
  | EvBuild _ _ :: _ => false
  | _ :: t' => rebuild_follows_failed_load t'
  end.

(** The registry [CorpusManager()] starts from. *)
Definition registry_of (w : World) : registry :=
  match w_meta w with Some r => r | None => [] end.

(** An entry the start-up loop keeps, in world [w]. *)
Definition kept (w : World) (e : entry) : bool :=
  match uid e, pdf_path e with
  | Some u, Some p => truthy (Some u) && truthy (Some p) && exists_ w p
  | _, _ => false
  end.

(** The index stored under [u] is loaded although no registry entry
    carries [u]. *)
Definition orphaned (u : string) (ix : ChunkIndex) (s : Manager) : Prop :=
  dict_get String.eqb (_indices s) u = Some ix
  /\ forall f e, dict_get String.eqb (_file_map s) f = Some e ->
                 uid e <> Some u.

(** One later call on the manager, short of a reset or a restart: a
    question, a deletion, or an ingestion that does not register [u]
    again. *)
Inductive step (E : Backend) (u : string) : Manager -> Manager -> Prop :=
| step_ask (q : string) (k : Z) (r : outcome (list chunk)) (s s' : Manager) :
    ask E q k s = (r, s') -> step E u s s'
| step_delete (f : string) (r : outcome deletion) (s s' : Manager) :
    delete_pdf f s = (r, s') -> step E u s s'
| step_add (paths : list string) (r : outcome (list (string * string)))
           (s s' : Manager) :
    add_pdfs E paths s = (r, s') ->
    (forall f e, dict_get String.eqb (_file_map s') f = Some e ->
                 uid e <> Some u) ->
    step E u s s'.

Inductive later (E : Backend) (u : string) : Manager -> Manager -> Prop :=
| later_now (s : Manager) : later E u s s
| later_step (s1 s2 s3 : Manager) :
    later E u s1 s2 -> step E u s2 s3 -> later E u s1 s3.

(** Paper ids of the returned chunks. *)
Definition paper_ids (cs : list chunk) : list (option value) :=
  map (fun c => get c "paper_id") cs.

End Spec.

(** ** Strings of bounded length, for counting arguments *)

Module Finite.

Definition all_ascii : list ascii := map ascii_of_nat (seq 0 256).

(** Every string of at most [n] characters. *)
Fixpoint strings_upto (n : nat) : list string :=
  match n with
  | O => [EmptyString]
  | S n' =>
      EmptyString
      :: flat_map (fun c => map (String c) (strings_upto n')) all_ascii
  end.

(** ["a"] repeated [n] times. *)
Fixpoint rep (n : nat) : string :=
  match n with
  | O => EmptyString
  | S n' => String "a" (rep n')
  end.

End Finite.

(** ** Properties of the managed corpus *)

Module Laws.
Import Indexer Corpus.



(** Every loaded index is what [load] reads from the snapshot directory
    of its uid. *)
Definition backed (E : Backend) (s : Manager) : Prop :=
  forall u ix, dict_get String.eqb (_indices s) u = Some ix ->
               load E (world s) (_index_dir_for_uid u) = Ok ix.




(** A lower-case hexadecimal digit. *)
Definition is_hex (c : ascii) : bool :=
  existsb (Ascii.eqb c) (list_ascii_of_string "0123456789abcdef").

(** A character of [str(n)]: a decimal digit or the sign. *)
Definition numeral (c : ascii) : bool :=
  existsb (Ascii.eqb c) (list_ascii_of_string "0123456789-").

(** The types of passage [parse_pdf] makes. *)
Definition kinds : list string := ["text"; "caption"; "table"].

(** The contract of [np.argsort] for the scores it is given: a
    permutation of their positions, in ascending order of score. *)
Definition ascending (scores : list score) (idx : list nat) : Prop :=
  Permutation idx (seq 0 (List.length scores))
  /\ StronglySorted
       (fun i j => (nth i scores 0 <= nth j scores 0)%Qc) idx.

(** The libraries of [strict] without [rank_bm25]. *)
Definition dense_only : Backend :=
  {| encode := encode Scenarios.strict;
     nn_fit := nn_fit Scenarios.strict;
     kneighbors := kneighbors Scenarios.strict;
     bm25_available := false;
     bm25_init := bm25_init Scenarios.strict;
     bm25_scores := bm25_scores Scenarios.strict;
     tokenize := tokenize Scenarios.strict;
     argsort := argsort Scenarios.strict;
     repr_float := repr_float Scenarios.strict;
     predict_pair := predict_pair Scenarios.strict;
     clock := clock Scenarios.strict |}.

Definition dense_rows : ChunkIndex :=
  Eval vm_compute in
    snd (build dense_only Scenarios.two_chunks (new default_model)).

(** A document on which [build] fails with the libraries of [strict]:
    no passage can be extracted from it. *)
Definition blank : pdf :=
  {| f_size := 512; f_mtime := 1699999990; f_passages := Ok [] |}.

Definition scanned : World :=
  {| w_files := [("up/S.pdf", blank)]; w_dirs := []; w_locked := [];
     w_meta := None; w_tick := 0; w_trace := [] |}.

End Laws.

(** * Theorems *)

(** ** Test vectors *)

Example sha256_constants :
  nth 0 Sha256.K 0 = 0x428a2f98 /\ nth 63 Sha256.K 0 = 0xc67178f2
  /\ Sha256.ha Sha256.H0 = 0x6a09e667 /\ Sha256.hh Sha256.H0 = 0x5be0cd19.
Proof. repeat split. Qed.

Example sha256_abc :
  Sha256.hexdigest "abc" =
  "ba7816bf8f01cfea414140de5dae2223b00361a396177a9cb410ff61f20015ad".
Proof. vm_compute. reflexivity. Qed.

Example sha256_two_blocks :
  Sha256.hexdigest "abcdbcdecdefdefgefghfghighijhijkijkljklmklmnlmnomnopnopq" =
  "248d6a61d20638b8e5c026930c3e6039a33ce45964ff2167f6ecedd419db06c1".
Proof. vm_compute. reflexivity. Qed.

Example compute_id_uid :
  Utils.compute_id ["A.pdf"; "2048"; "1699999999"; "1700000000.0"] =
  "63680963cf6f12a9".
Proof. vm_compute. reflexivity. Qed.

Example str_of_Z_samples :
  map str_of_Z [0; 7; 10; 1024; -45] = ["0"; "7"; "10"; "1024"; "-45"].
Proof. vm_compute. reflexivity. Qed.

(** ** Facts about the Python layer *)

Section DictFacts.
Variables K V : Type.
Variable keq : K -> K -> bool.
Hypothesis keq_eq : forall a b, keq a b = true <-> a = b.

Lemma keq_refl (a : K) : keq a a = true.
Proof. apply keq_eq. reflexivity. Qed.

Lemma keq_neq (a b : K) : a <> b -> keq a b = false.
Proof.
  intro H. destruct (keq a b) eqn:E; [|reflexivity].
  apply keq_eq in E. contradiction.
Qed.

Lemma get_set_same (d : dict K V) k v :
  dict_get keq (dict_set keq d k v) k = Some v.
Proof.
  induction d as [|[k' v'] d IH]; simpl.
  - now rewrite keq_refl.
  - destruct (keq k' k) eqn:E; simpl; rewrite E; auto.
Qed.

Lemma get_set_other (d : dict K V) k k' v :
  k <> k' -> dict_get keq (dict_set keq d k v) k' = dict_get keq d k'.
Proof.
  intro N. induction d as [|[k0 v0] d IH]; simpl.
  - rewrite keq_neq; auto.
  - destruct (keq k0 k) eqn:E; simpl.
    + apply keq_eq in E; subst k0. rewrite keq_neq; auto.
    + now rewrite IH.
Qed.

Lemma get_del_same (d : dict K V) k :
  dict_get keq (dict_del keq d k) k = None.
Proof.
  induction d as [|[k' v'] d IH]; simpl; auto.
  destruct (keq k' k) eqn:E; simpl; auto. now rewrite E.
Qed.

Lemma get_del_other (d : dict K V) k k' :
  k <> k' -> dict_get keq (dict_del keq d k) k' = dict_get keq d k'.
Proof.
  intro N. induction d as [|[k0 v0] d IH]; simpl; auto.
  destruct (keq k0 k) eqn:E; simpl.
  - apply keq_eq in E; subst k0. rewrite keq_neq; auto.
  - now rewrite IH.
Qed.

Lemma get_none_not_in (d : dict K V) k :
  dict_get keq d k = None <-> ~ In k (dict_keys d).
Proof.
  induction d as [|[k' v'] d IH]; simpl.
  - tauto.
  - destruct (keq k' k) eqn:E.
    + apply keq_eq in E. split; [discriminate | intro H; exfalso; auto].
    + rewrite IH. split.
      * intros H [H1|H1]; auto. subst. rewrite keq_refl in E. discriminate.
      * tauto.
Qed.

Lemma get_some_in (d : dict K V) k v :
  dict_get keq d k = Some v -> In k (dict_keys d).
Proof.
  induction d as [|[k' v'] d IH]; simpl; [discriminate|].
  destruct (keq k' k) eqn:E; auto.
  apply keq_eq in E. auto.
Qed.

Lemma mem_true_in (d : dict K V) k :
  dict_mem keq d k = true <-> In k (dict_keys d).
Proof.
  unfold dict_mem. destruct (dict_get keq d k) eqn:E.
  - split; auto. intros _. eapply get_some_in; eauto.
  - apply get_none_not_in in E. split; [discriminate | contradiction].
Qed.



Lemma keys_del (d : dict K V) k k' :
  In k' (dict_keys (dict_del keq d k)) <-> In k' (dict_keys d) /\ k' <> k.
Proof.
  induction d as [|[k0 v0] d IH]; simpl; [tauto|].
  destruct (keq k0 k) eqn:E; simpl.
  - apply keq_eq in E; subst. rewrite IH. intuition congruence.
  - rewrite IH. intuition; subst.
    + rewrite keq_refl in E; discriminate.
Qed.

End DictFacts.


Lemma string_eqb_iff (a b : string) : String.eqb a b = true <-> a = b.
Proof. apply String.eqb_eq. Qed.

(** ** Sorting: [sorted_desc] is a stable descending sort *)

Section SortFacts.
Variable A : Type.
Variable gtb : A -> A -> bool.

Lemma insert_desc_perm (x : A) (l : list A) :
  Permutation (x :: l) (insert_desc gtb x l).
Proof.
  induction l as [|y l IH]; simpl; auto.
  destruct (gtb y x); auto.
  eapply perm_trans; [apply perm_swap|]. now constructor.
Qed.

Lemma sorted_desc_perm (l : list A) : Permutation l (sorted_desc gtb l).
Proof.
  induction l as [|x l IH]; simpl; auto.
  eapply perm_trans; [|apply insert_desc_perm]. now constructor.
Qed.

Lemma sorted_desc_length (l : list A) :
  List.length (sorted_desc gtb l) = List.length l.
Proof. symmetry. apply Permutation_length, sorted_desc_perm. Qed.

(** [ge a b]: [b] is not strictly greater than [a]. *)
Definition ge (a b : A) : Prop := gtb b a = false.

Hypothesis gtb_asym : forall a b, gtb a b = true -> gtb b a = false.
Hypothesis ge_trans : forall a b c, ge a b -> ge b c -> ge a c.

Lemma insert_desc_sorted (x : A) (l : list A) :
  StronglySorted ge l -> StronglySorted ge (insert_desc gtb x l).
Proof.
  induction 1 as [|y l S IH F]; simpl.
  - repeat constructor.
  - destruct (gtb y x) eqn:E.
    + constructor; auto.
      assert (P := insert_desc_perm x l).
      apply Forall_forall. intros z Hz.
      apply Permutation_sym in P.
      apply (Permutation_in _ P) in Hz. destruct Hz as [<-|Hz].
      * now apply gtb_asym.
      * rewrite Forall_forall in F. auto.
    + constructor; [constructor; auto|].
      constructor; [exact E|].
      apply Forall_forall. intros z Hz. rewrite Forall_forall in F.
      eapply ge_trans; [exact E|]. auto.
Qed.

Lemma sorted_desc_sorted (l : list A) :
  StronglySorted ge (sorted_desc gtb l).
Proof.
  induction l; simpl; [constructor | now apply insert_desc_sorted].
Qed.


End SortFacts.

(** ** Order on scores *)

Lemma score_ltb_lt (a b : score) : score_ltb a b = true <-> (a < b)%Qc.
Proof.
  unfold score_ltb. rewrite Qclt_alt.
  destruct (a ?= b)%Qc; split; congruence.
Qed.

Lemma score_ltb_ge (a b : score) : score_ltb a b = false <-> (b <= a)%Qc.
Proof.
  split; intro H.
  - apply Qcnot_lt_le. intro L. apply score_ltb_lt in L. congruence.
  - destruct (score_ltb a b) eqn:E; auto.
    apply score_ltb_lt in E. now apply Qcle_not_lt in H.
Qed.

Lemma score_eqb_eq (a b : score) : score_eqb a b = true <-> a = b.
Proof.
  unfold score_eqb. rewrite Qceq_alt.
  destruct (a ?= b)%Qc; split; congruence.
Qed.



Lemma key_gtb_before (a b : chunk) :
  Rerank.key_gtb b a = false <-> Spec.before a b.
Proof.
  unfold Rerank.key_gtb, Spec.before, Rerank.key,
    Spec.relevance, Spec.retrieval_score; simpl.
  set (ra := get_float a "rerank_score" 0%Qc).
  set (rb := get_float b "rerank_score" 0%Qc).
  set (sa := get_float a "score" 0%Qc).
  set (sb := get_float b "score" 0%Qc).
  rewrite orb_false_iff, andb_false_iff, !score_ltb_ge.
  split.
  - intros [H1 [H2|H2]].
    + apply Qcle_lt_or_eq in H1. destruct H1 as [H1|H1]; [now left|].
      exfalso. subst rb.
      assert (score_eqb ra ra = true) by now apply score_eqb_eq.
      congruence.
    + apply Qcle_lt_or_eq in H1. destruct H1 as [H1|H1]; [now left|].
      right. split; [now symmetry | assumption].
  - intros [H|[H1 H2]].
    + split; [now apply Qclt_le_weak|]. left.
      destruct (score_eqb rb ra) eqn:E; auto.
      apply score_eqb_eq in E. rewrite E in H. exfalso.
      now apply (Qclt_not_eq _ _ H).
    + split; [rewrite H1; apply Qcle_refl | now right].
Qed.

Lemma key_gtb_asym (a b : chunk) :
  Rerank.key_gtb a b = true -> Rerank.key_gtb b a = false.
Proof.
  intro H. apply key_gtb_before.
  destruct (Rerank.key_gtb b a) eqn:E; unfold Spec.before.
  - revert H E. unfold Rerank.key_gtb, Rerank.key; simpl.
    fold (Spec.relevance a) (Spec.relevance b)
         (Spec.retrieval_score a) (Spec.retrieval_score b).
    rewrite !orb_true_iff, !andb_true_iff, !score_ltb_lt, !score_eqb_eq.
    intros [H|[H1 H2]] [H'|[H1' H2']].
    + exfalso. eapply Qclt_not_le; [exact H|]. now apply Qclt_le_weak.
    + exfalso. rewrite H1' in H. now apply (Qclt_not_eq _ _ H).
    + exfalso. rewrite H1 in H'. now apply (Qclt_not_eq _ _ H').
    + exfalso. eapply Qclt_not_le; [exact H2|]. now apply Qclt_le_weak.
  - now apply key_gtb_before.
Qed.

Lemma before_trans (a b c : chunk) :
  Spec.before a b -> Spec.before b c -> Spec.before a c.
Proof.
  unfold Spec.before. intros [H|[H1 H2]] [H'|[H1' H2']].
  - left. eapply Qclt_trans; eauto.
  - left. now rewrite <- H1'.
  - left. now rewrite H1.
  - right. split; [congruence|]. eapply Qcle_trans; eauto.
Qed.

Lemma key_ge_trans (a b c : chunk) :
  ge Rerank.key_gtb a b -> ge Rerank.key_gtb b c -> ge Rerank.key_gtb a c.
Proof.
  unfold ge. rewrite !key_gtb_before. apply before_trans.
Qed.

(** ** Unwinding the monad *)

Ltac unmonad :=
  unfold bind, ret, raise, lift, gets, modify, try_except, Corpus.emit,
    Corpus.in_world in *; simpl in *.


(** ** The reranker *)

Lemma attach_scored (E : Backend) (q : string) (cs : list chunk) :
  Rerank.attach cs
    (Rerank.predict E
       (map (fun c => (q, dict_get_or String.eqb c "content" (VStr ""))) cs))
  = map (Spec.scored E q) cs.
Proof.
  induction cs as [|c cs IH]; simpl; auto.
  unfold Rerank.predict in *. simpl. now rewrite IH.
Qed.

Lemma scored_fields (E : Backend) (q : string) (c : chunk) (k : string) :
  k <> "rerank_score" -> get (Spec.scored E q c) k = get c k.
Proof.
  intro N. unfold Spec.scored, get, set.
  apply get_set_other; [apply string_eqb_iff | congruence].
Qed.



(** ** An index that was never built *)

(** C3, as the code has it.  On a [ChunkIndex] that was neither built nor
    loaded, [query_dense] and [retrieve] (hence [query]) raise
    [RuntimeError("Index not built")]; [query_bm25] raises nothing and
    returns the empty list. *)
Theorem unbuilt_index_queries (E : Backend) (name text : string) (k : Z)
        (alpha : score) :
  Indexer.query_dense E (Indexer.new name) text k
  = Raise (RuntimeError "Index not built")
  /\ Indexer.retrieve E (Indexer.new name) text k alpha
     = Raise (RuntimeError "Index not built")
  /\ Indexer.query E (Indexer.new name) text k
     = Raise (RuntimeError "Index not built")
  /\ Indexer.query_bm25 E (Indexer.new name) text k = Ok [].
Proof. repeat split. Qed.

(** C3 as stated fails: the sparse query of an unbuilt index returns. *)
Lemma unbuilt_sparse_query_returns :
  Indexer.query_bm25 Scenarios.strict (Indexer.new Indexer.default_model)
                     "q" 5 = Ok []
  /\ forall e,
       Indexer.query_bm25 Scenarios.strict
                          (Indexer.new Indexer.default_model) "q" 5
       <> Raise e.
Proof. split; [reflexivity | intros e H; discriminate H]. Qed.

(** ** The aggregation budget *)


Lemma flat_map_snoc (A B : Type) (f : A -> list B) (l : list A) (x : A) :
  flat_map f (l ++ [x]) = flat_map f l ++ f x.
Proof.
  rewrite flat_map_app. simpl. now rewrite app_nil_r.
Qed.

Lemma gather_ok (E : Backend) (q : string) (per : Z)
      (idxs : list (string * Indexer.ChunkIndex)) :
  forall (acc : list chunk) (s s' : Corpus.Manager) (res : list chunk),
    Corpus.gather E q per idxs acc s = (Ok res, s') ->
    res = acc ++ Spec.pool E q per idxs
    /\ Spec.new_events s s' (map (fun ui => EvQuery (fst ui) q per) idxs)
    /\ Corpus._indices s' = Corpus._indices s
    /\ Corpus._file_map s' = Corpus._file_map s.
Proof.
  unfold Spec.new_events.
  induction idxs as [|[u idx] idxs IH]; intros acc s s' res H.
  - unmonad. inversion H; subst. now rewrite !app_nil_r.
  - simpl in H. unmonad. unfold Spec.contribution.
    destruct (Indexer.query E idx q per) as [nb|e].
    + destruct (Corpus.tag idx nb) as [cs|e]; [|discriminate].
      apply IH in H. destruct H as (-> & T & I & F). simpl in *.
      rewrite T, <- !app_assoc. auto.
    + apply IH in H. destruct H as (-> & T & I & F). simpl in *.
      rewrite T, <- !app_assoc. auto.
Qed.


Lemma for_each_emit (evs : list event) (s : Corpus.Manager) :
  for_each evs Corpus.emit s
  = (Ok tt, Corpus.set_world (fold_left log evs (Corpus.world s)) s).
Proof.
  revert s. induction evs as [|e evs IH]; intro s; simpl.
  - unfold ret. now destruct s.
  - unmonad. rewrite IH. reflexivity.
Qed.

Lemma trace_fold_log (evs : list event) (w : World) :
  w_trace (fold_left log evs w) = w_trace w ++ evs.
Proof.
  revert w. induction evs as [|e evs IH]; intro w; simpl.
  - now rewrite app_nil_r.
  - rewrite IH. simpl. now rewrite <- app_assoc.
Qed.

Lemma aggregate_query_run (E : Backend) (q : string) (top_k : Z)
      (s : Corpus.Manager) :
  Corpus._aggregate_query E q top_k s =
  match Corpus.gather E q (Spec.per_index_k top_k (len (Corpus._indices s)))
                      (Corpus._indices s) [] s with
  | (Ok cs, s1) =>
      (Ok (snd (Rerank.rerank E q cs top_k)),
       Corpus.set_world
         (fold_left log (fst (Rerank.rerank E q cs top_k))
            (log (Corpus.world s1) (EvRerank q cs top_k))) s1)
  | (Raise e, s1) => (Raise e, s1)
  end.
Proof.
  unfold Corpus._aggregate_query.
  unfold bind at 1. unfold gets at 1. cbv beta iota.
  unfold bind at 1. cbv beta.
  change (Z.max 3 (Corpus.ceil_div (top_k * 3)
                     (Z.max 1 (len (Corpus._indices s)))))
    with (Spec.per_index_k top_k (len (Corpus._indices s))).
  destruct (Corpus.gather E q _ (Corpus._indices s) [] s)
    as [[cs|e] s1]; [|reflexivity].
  unfold bind at 1. unfold Corpus.emit at 1, modify. cbv beta iota.
  destruct (Rerank.rerank E q cs top_k) as [calls ranked].
  unfold bind. rewrite for_each_emit. reflexivity.
Qed.


(** ** Fusion of the dense and the sparse ranking *)

Section FusionFacts.
Local Open Scope Qc_scope.

Local Abbreviation keys := (@dict_keys nat score).
Local Abbreviation seen d := (fun i => negb (existsb (Nat.eqb i) (keys d))).









End FusionFacts.




(** A maximum below zero is not divided by: the normalized score is 0. *)
Example fuse_negative_maximum :
  map snd (Spec.normalized [(0%nat, Q2Qc (-1 # 1))]) = [0%Qc]
  /\ exists x, map snd (Indexer.fuse [] [(0%nat, Q2Qc (-1 # 1))] 1
                                     Scenarios.half) = [x]
               /\ x = 0%Qc.
Proof.
  split; [vm_compute; reflexivity|].
  eexists. split; [vm_compute; reflexivity|].
  apply Qc_is_canon. vm_compute. reflexivity.
Qed.

(** ** The content address *)

Lemma str_of_Z_inj (n m : Z) : str_of_Z n = str_of_Z m -> n = m.
Proof.
  unfold str_of_Z. intro H.
  apply DecimalZ.to_int_inj.
  assert (P : forall z, NilZero.int_of_string
                          (NilZero.string_of_int (Z.to_int z))
                        = Some (Z.to_int z)).
  { intro z. apply NilZero.isi; destruct z; simpl; try discriminate;
      intro E; injection E; apply DecimalPos.Unsigned.to_uint_nonnil. }
  pose proof (P n) as Pn. rewrite H, P in Pn. now injection Pn.
Qed.

Lemma append_inv_head (a x y : string) :
  (a ++ x)%string = (a ++ y)%string -> x = y.
Proof.
  induction a as [|c a IH]; simpl; auto.
  intro H. injection H. auto.
Qed.

Lemma list_of_append (a b : string) :
  list_ascii_of_string (a ++ b)
  = list_ascii_of_string a ++ list_ascii_of_string b.
Proof. induction a as [|c a IH]; simpl; congruence. Qed.

Lemma append_inv_tail (b x y : string) :
  (x ++ b)%string = (y ++ b)%string -> x = y.
Proof.
  intro H. apply (f_equal list_ascii_of_string) in H.
  rewrite !list_of_append in H. apply app_inv_tail in H.
  apply (f_equal string_of_list_ascii) in H.
  now rewrite !string_of_list_ascii_of_string in H.
Qed.

Lemma passage_id_message (d : string) (p : Z) (k c : string) :
  Spec.passage_id d p k c
  = Utils.prefix_str 16 (Sha256.hexdigest (Spec.message d p k c)).
Proof. reflexivity. Qed.

Lemma message_page (d : string) (p p' : Z) (k c : string) :
  p' <> p -> Spec.message d p' k c <> Spec.message d p k c.
Proof.
  unfold Spec.message. intros N H. apply N.
  apply append_inv_head, append_inv_tail in H. now apply str_of_Z_inj.
Qed.

Lemma message_kind (d : string) (p : Z) (k k' c : string) :
  k' <> k -> Spec.message d p k' c <> Spec.message d p k c.
Proof.
  unfold Spec.message. intros N H. apply N.
  now apply append_inv_head, append_inv_head, append_inv_tail in H.
Qed.

Lemma message_content (d : string) (p : Z) (k c c' : string) :
  c' <> c -> Spec.message d p k c' <> Spec.message d p k c.
Proof.
  unfold Spec.message. intros N H. apply N.
  now apply append_inv_head, append_inv_head, append_inv_head in H.
Qed.

(** The loop of [build] that fills [meta]. *)
Lemma build_loop (E : Backend) (chunks : list chunk) :
  forall s s' : Indexer.ChunkIndex,
    for_each chunks
      (fun ch =>
         ch_id <- lift (Indexer.chunk_id E ch) ;;
         modify (fun s => Indexer.set_meta
                            (Indexer.meta s ++ [set ch "id" (VStr ch_id)]) s))
      s = (Ok tt, s') ->
    exists added,
      Indexer.meta s' = Indexer.meta s ++ added
      /\ Forall2 (fun ch m => exists i, Indexer.chunk_id E ch = Ok i
                                        /\ m = set ch "id" (VStr i))
                 chunks added.
Proof.
  induction chunks as [|ch chunks IH]; intros s s' H.
  - unmonad. inversion H; subst. exists []. rewrite app_nil_r. auto.
  - simpl in H. unmonad.
    destruct (Indexer.chunk_id E ch) as [i|e] eqn:I; [|discriminate].
    apply IH in H. destruct H as (added & M & F). simpl in M.
    exists (set ch "id" (VStr i) :: added). split.
    + now rewrite M, <- app_assoc.
    + constructor; eauto.
Qed.

Lemma build_meta (E : Backend) (chunks : list chunk)
      (s ix : Indexer.ChunkIndex) :
  Indexer.build E chunks s = (Ok tt, ix) ->
  Forall2 (fun ch m => exists i, Indexer.chunk_id E ch = Ok i
                                 /\ m = set ch "id" (VStr i))
          chunks (Indexer.meta ix).
Proof.
  unfold Indexer.build. intro H.
  unfold bind at 1, lift at 1 in H.
  destruct (map_outcome Indexer.content_of chunks) as [texts|]; [|discriminate].
  unfold bind at 1, lift at 1 in H.
  destruct (encode E texts) as [embs|]; [|discriminate].
  unfold bind at 1, modify at 1 in H.
  unfold bind at 1, modify at 1 in H.
  unfold bind at 1 in H.
  destruct (for_each chunks _ _) as [[[]|e] s1] eqn:L; [|discriminate].
  apply build_loop in L. destruct L as (added & M & F). simpl in M. subst.
  assert (K : Indexer.meta ix = Indexer.meta s1).
  { unmonad. destruct (nn_fit E embs); [|discriminate].
    destruct (bm25_available E).
    - destruct (bm25_init E (map (tokenize E) texts)); [|discriminate].
      now inversion H.
    - now inversion H. }
  rewrite K. exact F.
Qed.

(** C9, as the code has it.  The id [build] stores for a chunk is
    [compute_id] of its document id, page, kind and content: the first 16
    hex digits of the SHA-256 of those four strings put end to end.  It
    is the same for any two chunks with these four fields, whatever their
    other keys, their position and the embedding backend.  Changing the
    page, the kind or the content alone changes the hashed message, so
    the id changes exactly when the two messages do not collide on
    those 16 digits. *)
Theorem content_address (E1 E2 : Backend) (ch1 ch2 : chunk)
        (d : string) (p : Z) (k c : string) :
  Spec.carries ch1 d p k c ->
  Spec.carries ch2 d p k c ->
  Indexer.chunk_id E1 ch1 = Ok (Spec.passage_id d p k c)
  /\ Indexer.chunk_id E2 ch2 = Ok (Spec.passage_id d p k c)
  /\ (forall chunks s ix,
        Indexer.build E1 chunks s = (Ok tt, ix) ->
        Forall2 (fun ch m => exists i, Indexer.chunk_id E1 ch = Ok i
                                       /\ m = set ch "id" (VStr i))
                chunks (Indexer.meta ix))
  /\ Spec.passage_id d p k c
     = Utils.prefix_str 16 (Sha256.hexdigest (Spec.message d p k c))
  /\ (forall p', p' <> p ->
        Spec.message d p' k c <> Spec.message d p k c
        /\ (Spec.passage_id d p' k c <> Spec.passage_id d p k c <->
            Utils.prefix_str 16 (Sha256.hexdigest (Spec.message d p' k c))
            <> Utils.prefix_str 16 (Sha256.hexdigest (Spec.message d p k c))))
  /\ (forall k', k' <> k ->
        Spec.message d p k' c <> Spec.message d p k c
        /\ (Spec.passage_id d p k' c <> Spec.passage_id d p k c <->
            Utils.prefix_str 16 (Sha256.hexdigest (Spec.message d p k' c))
            <> Utils.prefix_str 16 (Sha256.hexdigest (Spec.message d p k c))))
  /\ (forall c', c' <> c ->
        Spec.message d p k c' <> Spec.message d p k c
        /\ (Spec.passage_id d p k c' <> Spec.passage_id d p k c <->
            Utils.prefix_str 16 (Sha256.hexdigest (Spec.message d p k c'))
            <> Utils.prefix_str 16 (Sha256.hexdigest (Spec.message d p k c)))).
Proof.
  intros F1 F2.
  assert (I : forall E ch, Spec.carries ch d p k c ->
                Indexer.chunk_id E ch = Ok (Spec.passage_id d p k c)).
  { intros E ch (Hd & Hp & Hk & Hc).
    unfold Indexer.chunk_id, dict_get_or. unfold get in *.
    now rewrite Hd, Hp, Hk, Hc. }
  split; [now apply I|]. split; [now apply I|].
  split; [intros; eapply build_meta; eauto|].
  split; [reflexivity|].
  split; [|split]; intros x Hx; (split; [|rewrite !passage_id_message; tauto]).
  - now apply message_page.
  - now apply message_kind.
  - now apply message_content.
Qed.

Lemma content_address_witness :
  Indexer.chunk_id Scenarios.strict (nth 0 Scenarios.two_chunks [])
  = Ok (Spec.passage_id "A.pdf" 1 "text" "alpha beta")
  /\ Indexer.chunk_id Scenarios.lenient
       (set (nth 0 Scenarios.two_chunks []) "score" (VFloat Scenarios.half))
     = Ok (Spec.passage_id "A.pdf" 1 "text" "alpha beta")
  /\ Spec.message "A.pdf" 2 "text" "alpha beta"
     <> Spec.message "A.pdf" 1 "text" "alpha beta".
Proof.
  destruct (@content_address Scenarios.strict Scenarios.lenient
              (nth 0 Scenarios.two_chunks [])
              (set (nth 0 Scenarios.two_chunks []) "score"
                   (VFloat Scenarios.half))
              "A.pdf" 1 "text" "alpha beta")
    as (H1 & H2 & _ & _ & Hp & _).
  - repeat split.
  - repeat split.
  - split; [exact H1|]. split; [exact H2|].
    apply Hp. discriminate.
Defined.

(** *** Ids range over a finite set *)

Lemma all_ascii_complete (c : ascii) : In c Finite.all_ascii.
Proof.
  unfold Finite.all_ascii. rewrite <- (ascii_nat_embedding c).
  apply in_map, in_seq. pose proof (nat_ascii_bounded c). lia.
Qed.

Lemma strings_upto_complete (n : nat) :
  forall s, (String.length s <= n)%nat -> In s (Finite.strings_upto n).
Proof.
  induction n as [|n IH]; intros [|c s] H; simpl in H.
  - now left.
  - lia.
  - now left.
  - right. apply in_flat_map. exists c. split; [apply all_ascii_complete|].
    apply in_map, IH. lia.
Qed.

Lemma prefix_str_length (n : nat) :
  forall s, (String.length (Utils.prefix_str n s) <= n)%nat.
Proof.
  induction n as [|n IH]; intros [|c s]; simpl; try lia.
  specialize (IH s). lia.
Qed.

Lemma rep_length (n : nat) : String.length (Finite.rep n) = n.
Proof. induction n; simpl; congruence. Qed.

(** Pigeonhole: a function from the naturals into a finite list takes
    some value twice. *)
Lemma collision_or_nodup (f : nat -> string) (n : nat) :
  forall a,
    NoDup (map f (seq a n))
    \/ exists i j, (i < j)%nat /\ f i = f j.
Proof.
  induction n as [|n IH]; intro a; simpl.
  - left. constructor.
  - destruct (IH (S a)) as [N|C]; [|now right].
    destruct (in_dec string_dec (f a) (map f (seq (S a) n))) as [I|I].
    + right. apply in_map_iff in I. destruct I as (j & E & J).
      apply in_seq in J. exists a, j. split; [lia | congruence].
    + left. now constructor.
Qed.

Lemma collision_in_finite_range (f : nat -> string) (L : list string) :
  (forall n, In (f n) L) -> exists i j, (i < j)%nat /\ f i = f j.
Proof.
  intro H.
  destruct (collision_or_nodup f (S (List.length L)) 0) as [N|C]; [|exact C].
  exfalso.
  assert (I : incl (map f (seq 0 (S (List.length L)))) L).
  { intros x Hx. apply in_map_iff in Hx. destruct Hx as (n & <- & _). auto. }
  pose proof (NoDup_incl_length N I) as Len.
  rewrite length_map, length_seq in Len. lia.
Qed.

(** C9 as stated fails: ids are strings of 16 characters, so two
    different contents of one passage position share their id. *)
Lemma content_change_keeping_id :
  exists c c',
    c <> c'
    /\ Spec.passage_id "A.pdf" 1 "text" c
       = Spec.passage_id "A.pdf" 1 "text" c'.
Proof.
  destruct (collision_in_finite_range
              (fun n => Spec.passage_id "A.pdf" 1 "text" (Finite.rep n))
              (Finite.strings_upto 16)) as (i & j & Lt & E).
  - intro n. apply strings_upto_complete.
    unfold Spec.passage_id, Utils.compute_id. apply prefix_str_length.
  - exists (Finite.rep i), (Finite.rep j). split; [|exact E].
    intro H. apply (f_equal String.length) in H.
    rewrite !rep_length in H. lia.
Qed.


(** ** Building from no passage *)




(** ** Deleting a document *)

Lemma remove_index_dir_spec (dir : string) (w : World) :
  exists w',
    Corpus.remove_index_dir dir w = (Ok tt, w')
    /\ w_files w' = w_files w
    /\ w_meta w' = w_meta w
    /\ w_locked w' = w_locked w
    /\ (isdir w dir = false -> w' = w)
    /\ (isdir w dir = true ->
        exists evs ok, w_trace w' = w_trace w ++ evs ++ [EvRmdir dir ok]).
Proof.
  unfold Corpus.remove_index_dir, isdir, dict_mem.
  destruct (dict_get String.eqb (w_dirs w) dir) as [kids|].
  - destruct (walk_dir (w_locked w) dir kids) as [rest evs].
    destruct rest as [|r rest].
    + destruct (mem dir (w_locked w)); eexists;
        (split; [reflexivity|]); simpl;
        (split; [|split; [|split; [|split; [discriminate|]]]]);
        try (intros _; exists evs; eexists;
             rewrite trace_fold_log, <- app_assoc; reflexivity);
        clear; revert w;
        induction evs as [|e evs IH]; intro w; simpl; auto;
        rewrite IH; reflexivity.
    + eexists; (split; [reflexivity|]); simpl;
        (split; [|split; [|split; [|split; [discriminate|]]]]);
        try (intros _; exists evs; eexists;
             rewrite trace_fold_log, <- app_assoc; reflexivity);
        clear; revert w;
        induction evs as [|e evs IH]; intro w; simpl; auto;
        rewrite IH; reflexivity.
  - exists w. repeat split; auto. discriminate.
Qed.

Lemma forget_spec (f u : string) (s : Corpus.Manager) :
  exists s',
    Corpus.forget f u s = (Ok Corpus.Deleted, s')
    /\ Corpus._indices s' = dict_del String.eqb (Corpus._indices s) u
    /\ Corpus._file_map s' = dict_del String.eqb (Corpus._file_map s) f
    /\ w_meta (Corpus.world s') = Some (Corpus._file_map s')
    /\ (isdir (Corpus.world s) (Corpus._index_dir_for_uid u) = true ->
        exists evs ok,
          Spec.new_events s s'
            (evs ++ [EvRmdir (Corpus._index_dir_for_uid u) ok;
                     EvSaveMeta (Corpus._file_map s')])).
Proof.
  destruct (remove_index_dir_spec (Corpus._index_dir_for_uid u)
              (Corpus.world s)) as (w1 & R & _ & _ & _ & _ & T).
  unfold Corpus.forget, Corpus._save_metadata. unmonad. rewrite R. simpl.
  eexists. split; [reflexivity|]. simpl.
  repeat split.
  intro D. unfold Spec.new_events. simpl.
  destruct (T D) as (evs & ok & T'). exists evs, ok.
  rewrite T'. now rewrite <- !app_assoc.
Qed.

(** [delete_pdf] on an entry that carries a uid. *)
Lemma delete_pdf_run (s : Corpus.Manager) (f u : string) (p : option string) :
  dict_get String.eqb (Corpus._file_map s) f = Some (Entry (Some u) p) ->
  Corpus.delete_pdf f s =
  if Spec.source_removal_fails (Corpus.world s) (Entry (Some u) p)
  then (Ok (Corpus.NotDeleted "Failed to remove file"),
        Corpus.set_world
          (log (Corpus.world s)
               (EvRemove (match p with Some p' => p' | None => "" end) false)) s)
  else
    match p with
    | Some p' =>
        if Corpus.truthy (Some p') && exists_ (Corpus.world s) p'
        then Corpus.forget f u
               (Corpus.set_world
                  (log (with_files (Corpus.world s)
                          (dict_del String.eqb (w_files (Corpus.world s)) p'))
                       (EvRemove p' true)) s)
        else Corpus.forget f u s
    | None => Corpus.forget f u s
    end.
Proof.
  intro Hg. unfold Spec.source_removal_fails.
  cbv beta iota delta [Corpus.delete_pdf bind gets ret try_except
                       Corpus.in_world remove].
  rewrite Hg. cbv beta iota delta [pdf_path uid].
  destruct p as [p'|]; [|reflexivity].
  destruct (Corpus.truthy (Some p') && exists_ (Corpus.world s) p');
    [|reflexivity].
  destruct (isfile (Corpus.world s) p'
            && negb (mem p' (w_locked (Corpus.world s)))); reflexivity.
Qed.

(** C5, as the code has it.  For a [delete_pdf(filename)] whose filename
    is in the registry with a uid: when the removal of the source document
    fails, the call reports [deleted = False] with the reason "Failed to
    remove file" and leaves the in-memory index and the registry as they
    were; otherwise the in-memory index is dropped, the removal of the
    snapshot directory is attempted after the walk over its content, the
    registry entry is removed, the registry is persisted and
    [deleted = True] is reported, whichever removals inside the snapshot
    directory fail. *)
Theorem delete_pdf_outcome (s : Corpus.Manager) (filename u : string)
        (e : entry) :
  dict_get String.eqb (Corpus._file_map s) filename = Some e ->
  uid e = Some u ->
  (Spec.source_removal_fails (Corpus.world s) e = true ->
   exists s',
     Corpus.delete_pdf filename s
     = (Ok (Corpus.NotDeleted "Failed to remove file"), s')
     /\ Corpus._indices s' = Corpus._indices s
     /\ Corpus._file_map s' = Corpus._file_map s
     /\ w_meta (Corpus.world s') = w_meta (Corpus.world s))
  /\ (Spec.source_removal_fails (Corpus.world s) e = false ->
      exists s',
        Corpus.delete_pdf filename s = (Ok Corpus.Deleted, s')
        /\ dict_get String.eqb (Corpus._indices s') u = None
        /\ dict_get String.eqb (Corpus._file_map s') filename = None
        /\ w_meta (Corpus.world s') = Some (Corpus._file_map s')
        /\ (isdir (Corpus.world s) (Corpus._index_dir_for_uid u) = true ->
            exists evs ok,
              Spec.new_events s s'
                (evs ++ [EvRmdir (Corpus._index_dir_for_uid u) ok;
                         EvSaveMeta (Corpus._file_map s')]))).
Proof.
  intros Hg Hu. destruct e as [u' p]. simpl in Hu. subst u'.
  rewrite (delete_pdf_run _ _ Hg).
  destruct (Spec.source_removal_fails (Corpus.world s) (Entry (Some u) p))
    eqn:Fl.
  - split; [|discriminate]. intros _.
    eexists. split; [reflexivity|]. simpl. auto.
  - split; [discriminate|]. intros _.
    assert (Same : forall s0 pre,
      Corpus._indices s0 = Corpus._indices s ->
      Corpus._file_map s0 = Corpus._file_map s ->
      w_dirs (Corpus.world s0) = w_dirs (Corpus.world s) ->
      w_trace (Corpus.world s0) = w_trace (Corpus.world s) ++ pre ->
      exists s',
        Corpus.forget filename u s0 = (Ok Corpus.Deleted, s')
        /\ dict_get String.eqb (Corpus._indices s') u = None
        /\ dict_get String.eqb (Corpus._file_map s') filename = None
        /\ w_meta (Corpus.world s') = Some (Corpus._file_map s')
        /\ (isdir (Corpus.world s) (Corpus._index_dir_for_uid u) = true ->
            exists evs ok,
              Spec.new_events s s'
                (evs ++ [EvRmdir (Corpus._index_dir_for_uid u) ok;
                         EvSaveMeta (Corpus._file_map s')]))).
    { intros s0 pre Hi Hf Hd Ht.
      destruct (forget_spec filename u s0) as (s' & R & I & F & M & T).
      exists s'. split; [exact R|].
      split; [rewrite I; apply get_del_same|].
      split; [rewrite F; apply get_del_same|].
      split; [exact M|].
      intro D. destruct T as (evs & ok & T).
      { unfold isdir in *. now rewrite Hd. }
      exists (pre ++ evs), ok. unfold Spec.new_events in *.
      rewrite T, Ht. now rewrite <- !app_assoc. }
    destruct p as [p'|].
    + destruct (Corpus.truthy (Some p') && exists_ (Corpus.world s) p').
      * apply Same with (pre := [EvRemove p' true]); reflexivity.
      * apply Same with (pre := []); auto. now rewrite app_nil_r.
    + apply Same with (pre := []); auto. now rewrite app_nil_r.
Qed.

Lemma delete_pdf_outcome_witness :
  exists s',
    Corpus.delete_pdf "A.pdf" Scenarios.snapshot_locked
    = (Ok Corpus.Deleted, s')
    /\ dict_get String.eqb (Corpus._indices s') "63680963cf6f12a9" = None
    /\ dict_get String.eqb (Corpus._file_map s') "A.pdf" = None
    /\ w_meta (Corpus.world s') = Some (Corpus._file_map s').
Proof.
  destruct (@delete_pdf_outcome Scenarios.snapshot_locked "A.pdf"
              "63680963cf6f12a9"
              (Entry (Some "63680963cf6f12a9") (Some "data/pdfs/A.pdf")))
    as [_ H].
  - vm_compute. reflexivity.
  - reflexivity.
  - destruct H as (s' & R & I & F & M & _); [vm_compute; reflexivity|].
    exists s'. auto.
Defined.

(** In that run the removal of one snapshot file fails and is passed
    over; the directory, not empty, stays. *)
Example snapshot_failure_swallowed :
  let s' := Scenarios.after (Corpus.delete_pdf "A.pdf")
                            Scenarios.snapshot_locked in
  In (EvRemove "data/index/by_id/63680963cf6f12a9/meta.pkl" false)
     (w_trace (Corpus.world s'))
  /\ In (EvRmdir "data/index/by_id/63680963cf6f12a9" false)
        (w_trace (Corpus.world s'))
  /\ Scenarios.result (Corpus.delete_pdf "A.pdf") Scenarios.snapshot_locked
     = Ok Corpus.Deleted.
Proof. vm_compute. intuition. Qed.

(** C5 as stated fails: when the stored document cannot be removed, the
    deletion is reported as failed and nothing else is done. *)
Lemma delete_fails_on_locked_source :
  Scenarios.result (Corpus.delete_pdf "A.pdf") Scenarios.source_locked
  = Ok (Corpus.NotDeleted "Failed to remove file")
  /\ dict_keys (Corpus._indices
                  (Scenarios.after (Corpus.delete_pdf "A.pdf")
                                   Scenarios.source_locked))
     = ["63680963cf6f12a9"]
  /\ dict_keys (Corpus._file_map
                  (Scenarios.after (Corpus.delete_pdf "A.pdf")
                                   Scenarios.source_locked))
     = ["A.pdf"].
Proof. vm_compute. repeat split. Qed.

(** ** Loading and building indices *)

Lemma mem_set_mono (V : Type) (d : dict string V) (k p : string) (v : V) :
  dict_mem String.eqb d p = true ->
  dict_mem String.eqb (dict_set String.eqb d k v) p = true.
Proof.
  unfold dict_mem. destruct (String.eqb_spec k p) as [->|N].
  - now rewrite (get_set_same _ string_eqb_iff).
  - now rewrite (get_set_other _ string_eqb_iff) by assumption.
Qed.

Lemma ensure_dir_spec (w : World) (p : string) :
  w_files (ensure_dir w p) = w_files w
  /\ w_meta (ensure_dir w p) = w_meta w
  /\ w_trace (ensure_dir w p) = w_trace w
  /\ (forall q, isdir w q = true -> isdir (ensure_dir w p) q = true).
Proof.
  unfold ensure_dir. destruct (isdir w p) eqn:D; simpl; auto.
  repeat split; auto. intros q Hq. unfold isdir in *. simpl.
  now apply mem_set_mono.
Qed.

Lemma write_spec (w : World) (dir name : string) (c : content) :
  forall r w', Indexer.write w dir name c = (r, w') ->
    w_files w' = w_files w
    /\ w_meta w' = w_meta w
    /\ w_trace w' = w_trace w
    /\ (forall q, isdir w q = true -> isdir w' q = true).
Proof.
  intros r w' H. unfold Indexer.write in H.
  destruct (dict_get String.eqb (w_dirs w) dir) as [kids|].
  - destruct (Indexer.write_file kids name c); inversion H; subst; simpl; auto.
    repeat split; auto. intros q Hq. unfold isdir in *. simpl.
    now apply mem_set_mono.
  - inversion H; subst. auto.
Qed.

Lemma save_spec (ix : Indexer.ChunkIndex) (dir : string) (w : World) :
  forall r w', Indexer.save ix dir w = (r, w') ->
    w_files w' = w_files w
    /\ w_meta w' = w_meta w
    /\ w_trace w' = w_trace w
    /\ (forall q, isdir w q = true -> isdir w' q = true).
Proof.
  intros r w' H. unfold Indexer.save in H. unmonad.
  destruct (ensure_dir_spec w dir) as (F0 & M0 & T0 & D0).
  destruct (Indexer.write (ensure_dir w dir) dir "embeddings.npy" _)
    as [[[]|e1] w1] eqn:W1;
    apply write_spec in W1; destruct W1 as (F1 & M1 & T1 & D1);
    [|inversion H; subst; repeat split; try congruence; auto].
  destruct (Indexer.write w1 dir "meta.pkl" _) as [[[]|e2] w2] eqn:W2;
    apply write_spec in W2; destruct W2 as (F2 & M2 & T2 & D2);
    [|inversion H; subst; repeat split; try congruence; auto].
  apply write_spec in H. destruct H as (F3 & M3 & T3 & D3).
  repeat split; try congruence; auto.
Qed.

Lemma build_index_spec (E : Backend) (p u : string) (s : Corpus.Manager) :
  forall r s', Corpus._build_index_for_pdf E p u s = (r, s') ->
    Spec.extends s s' [EvBuild p u]
    /\ Corpus._indices s' = Corpus._indices s.
Proof.
  intros r s' H. unfold Corpus._build_index_for_pdf in H.
  unfold Spec.extends.
  cbv beta iota delta [bind gets ret raise lift modify Corpus.emit
                       Corpus.in_world] in H.
  simpl in H.
  destruct (Corpus.parse_and_chunk _ p (Corpus.basename p)) as [chunks|e];
    [|inversion H; subst; simpl; repeat split; auto].
  destruct (Indexer.build E chunks (Indexer.new Indexer.default_model))
    as [[[]|e] ix]; [|inversion H; subst; simpl; repeat split; auto].
  simpl in H.
  destruct (ensure_dir_spec (log (Corpus.world s) (EvBuild p u))
              (Corpus._index_dir_for_uid u)) as (F0 & M0 & T0 & D0).
  destruct (Indexer.save ix (Corpus._index_dir_for_uid u) _)
    as [[[]|e] w1] eqn:S1;
    apply save_spec in S1; destruct S1 as (F1 & M1 & T1 & D1);
    inversion H; subst; simpl in *;
    (repeat split; auto; try congruence;
     try (intros q Hq; apply D1, D0; exact Hq)).
Qed.

Lemma ensure_index_spec (E : Backend) (u p : string) (s : Corpus.Manager) :
  forall r s', Corpus._ensure_index_for_uid E u p s = (r, s') ->
    exists seg,
      Spec.extends s s' seg
      /\ (seg = [] \/ seg = [EvLoad (Corpus._index_dir_for_uid u) true]
          \/ seg = [EvLoad (Corpus._index_dir_for_uid u) false; EvBuild p u])
      /\ (forall ix, r = Ok ix ->
                     dict_get String.eqb (Corpus._indices s') u = Some ix)
      /\ (dict_get String.eqb (Corpus._indices s') u = None ->
          seg = [EvLoad (Corpus._index_dir_for_uid u) false; EvBuild p u])
      /\ (forall u', u' <> u ->
            dict_get String.eqb (Corpus._indices s') u'
            = dict_get String.eqb (Corpus._indices s) u').
Proof.
  intros r s' H. unfold Corpus._ensure_index_for_uid in H.
  unfold bind at 1, gets at 1 in H.
  destruct (dict_get String.eqb (Corpus._indices s) u) as [index|] eqn:G.
  - unfold ret in H. inversion H; subst. exists []. unfold Spec.extends.
    rewrite app_nil_r. repeat split; auto.
    + intros ix Hix. now inversion Hix; subst.
    + congruence.
  - unfold bind at 1, gets at 1 in H. unfold bind at 1 in H.
    destruct (Indexer.load E (Corpus.world s) (Corpus._index_dir_for_uid u))
      as [index|e].
    + cbv beta iota delta [bind ret modify Corpus.emit] in H.
      inversion H; subst. simpl.
      exists [EvLoad (Corpus._index_dir_for_uid u) true].
      unfold Spec.extends. simpl. repeat split; auto.
      * intros u0 ix0 H0. rewrite (get_set_other _ string_eqb_iff); auto.
        intro; subst; congruence.
      * intros ix Hix. inversion Hix; subst.
        apply (get_set_same _ string_eqb_iff).
      * rewrite (get_set_same _ string_eqb_iff). discriminate.
      * intros u' N. apply (get_set_other _ string_eqb_iff). congruence.
    + unfold bind at 1 in H. unfold Corpus.emit at 1, modify at 1 in H.
      destruct (Corpus._build_index_for_pdf E p u
                  (Corpus.set_world
                     (log (Corpus.world s)
                        (EvLoad (Corpus._index_dir_for_uid u) false)) s))
        as [[index|e'] s1] eqn:B;
        apply build_index_spec in B;
        destruct B as ((Fm & Ff & Fmeta & Fd & Ft & Fi) & I);
        simpl in *;
        exists [EvLoad (Corpus._index_dir_for_uid u) false; EvBuild p u];
        unfold Spec.extends.
      * cbv beta iota delta [bind ret modify] in H.
        inversion H; subst. simpl. rewrite Ft, <- app_assoc. simpl.
        repeat split; auto.
        -- intros u0 ix0 H0. rewrite (get_set_other _ string_eqb_iff).
           ++ rewrite I. exact H0.
           ++ intro; subst; congruence.
        -- intros ix Hix. inversion Hix; subst.
           apply (get_set_same _ string_eqb_iff).
        -- intros u' N. rewrite (get_set_other _ string_eqb_iff) by congruence.
           now rewrite I.
      * inversion H; subst. rewrite Ft, <- app_assoc. simpl.
        repeat split; auto; try congruence.
Qed.

(** ** Start-up *)

Lemma exists_mono (s s' : Corpus.Manager) (seg : list event) (p : string) :
  Spec.extends s s' seg ->
  exists_ (Corpus.world s) p = true -> exists_ (Corpus.world s') p = true.
Proof.
  intros (_ & F & _ & D & _) H. unfold exists_, isfile in *.
  rewrite F. apply orb_true_iff in H. apply orb_true_iff.
  destruct H; auto.
Qed.

Lemma kept_mono (w w' : World) (e : entry) :
  (forall p, exists_ w p = true -> exists_ w' p = true) ->
  Spec.kept w e = true -> Spec.kept w' e = true.
Proof.
  intros M. unfold Spec.kept.
  destruct (uid e) as [u|]; [|discriminate].
  destruct (pdf_path e) as [p|]; [|discriminate].
  rewrite !andb_true_iff. intros [H1 H2]. auto.
Qed.

Lemma get_del_some (V : Type) (d : dict string V) (k f : string) (v : V) :
  dict_get String.eqb (dict_del String.eqb d k) f = Some v ->
  dict_get String.eqb d f = Some v.
Proof.
  destruct (String.eqb_spec k f) as [->|N].
  - now rewrite get_del_same.
  - now rewrite (get_del_other _ string_eqb_iff).
Qed.

Lemma get_in_pairs (V : Type) (d : dict string V) (f : string) (v : V) :
  dict_get String.eqb d f = Some v -> In (f, v) d.
Proof.
  induction d as [|[k x] d IH]; simpl; [discriminate|].
  destruct (String.eqb_spec k f) as [->|N]; intro H.
  - inversion H; subst. auto.
  - auto.
Qed.

(** One registry entry at start-up. *)
Lemma load_entry_spec (E : Backend) (f : string) (e : entry)
      (s : Corpus.Manager) :
  exists s',
    Corpus.load_entry E (f, e) s = (Ok tt, s')
    /\ ((Spec.kept (Corpus.world s) e = false
         /\ s' = Corpus.set_file_map
                   (dict_del String.eqb (Corpus._file_map s) f) s)
        \/ (Spec.kept (Corpus.world s) e = true
            /\ exists u p seg,
                 uid e = Some u /\ pdf_path e = Some p
                 /\ Spec.extends s s' seg
                 /\ (seg = []
                     \/ seg = [EvLoad (Corpus._index_dir_for_uid u) true]
                     \/ seg = [EvLoad (Corpus._index_dir_for_uid u) false;
                               EvBuild p u])
                 /\ (dict_get String.eqb (Corpus._indices s') u = None ->
                     seg = [EvLoad (Corpus._index_dir_for_uid u) false;
                            EvBuild p u]))).
Proof.
  unfold Corpus.load_entry, Spec.kept. cbv beta iota zeta delta [fst snd].
  unfold bind at 1, gets at 1. cbv beta iota.
  destruct (uid e) as [u|]; [|eexists; split; [reflexivity | left; auto]].
  destruct (pdf_path e) as [p|]; [|eexists; split; [reflexivity | left; auto]].
  destruct (Corpus.truthy (Some u) && Corpus.truthy (Some p)
            && exists_ (Corpus.world s) p) eqn:K;
    [|eexists; split; [reflexivity | left; auto]].
  unfold try_except. unfold bind at 1.
  destruct (Corpus._ensure_index_for_uid E u p s) as [[ix|err] s1] eqn:En;
    apply ensure_index_spec in En;
    destruct En as (seg & X & Sg & _ & N & _);
    (eexists; split; [reflexivity|]); right; (split; [reflexivity|]);
    exists u, p, seg; auto.
Qed.

Lemma load_loop (E : Backend) (items : list (string * entry)) :
  forall s,
    exists s' evs,
      for_each items (Corpus.load_entry E) s = (Ok tt, s')
      /\ w_trace (Corpus.world s') = w_trace (Corpus.world s) ++ evs
      /\ Spec.rebuild_follows_failed_load evs = true
      /\ (forall p, exists_ (Corpus.world s) p = true ->
                    exists_ (Corpus.world s') p = true)
      /\ (forall u ix, dict_get String.eqb (Corpus._indices s) u = Some ix ->
                       dict_get String.eqb (Corpus._indices s') u = Some ix)
      /\ (forall f e', dict_get String.eqb (Corpus._file_map s') f = Some e' ->
                       dict_get String.eqb (Corpus._file_map s) f = Some e')
      /\ (forall f e, In (f, e) items ->
                      Spec.kept (Corpus.world s') e = false ->
                      dict_get String.eqb (Corpus._file_map s') f = None)
      /\ (forall f e, In (f, e) items ->
            dict_get String.eqb (Corpus._file_map s') f <> None ->
            Spec.kept (Corpus.world s') e = true
            /\ forall u p,
                 uid e = Some u -> pdf_path e = Some p ->
                 dict_get String.eqb (Corpus._indices s') u = None ->
                 In (EvLoad (Corpus._index_dir_for_uid u) false) evs
                 /\ In (EvBuild p u) evs).
Proof.
  induction items as [|[f e] items IH]; intro s.
  - exists s, []. simpl. unfold ret. rewrite app_nil_r.
    repeat split; auto; try contradiction.
  - destruct (load_entry_spec E f e s) as (s1 & R1 & C).
    destruct (IH s1) as (s' & evs & R & T & Ck & Mx & Mi & Mf & B & K).
    simpl. unfold bind. rewrite R1.
    destruct C as [[Kf ->]|[Kt (u & p & seg & Hu & Hp & X & Sg & N)]].
    + (* pruned *)
      exists s', evs. simpl in *.
      split; [exact R|]. split; [exact T|]. split; [exact Ck|].
      split; [exact Mx|]. split; [exact Mi|].
      split; [intros f0 e0 H0; apply Mf in H0; eapply get_del_some; eauto|].
      split.
      * intros f0 e0 [H0|H0] Kn; [|eauto].
        inversion H0; subst.
        destruct (dict_get String.eqb (Corpus._file_map s') f0) eqn:G; auto.
        apply Mf in G. now rewrite get_del_same in G.
      * intros f0 e0 [H0|H0] Nn; [|eauto].
        inversion H0; subst. exfalso. apply Nn.
        destruct (dict_get String.eqb (Corpus._file_map s') f0) eqn:G; auto.
        apply Mf in G. now rewrite get_del_same in G.
    + (* kept *)
      pose proof X as (Xm & Xf & Xmeta & Xd & Xt & Xi).
      exists s', (seg ++ evs).
      split; [exact R|].
      split; [rewrite T, Xt; now rewrite app_assoc|].
      split.
      { destruct Sg as [->|[->| ->]]; simpl; auto.
        now rewrite String.eqb_refl. }
      split; [intros q Hq; apply Mx; eapply exists_mono; eauto|].
      split; [intros u0 ix0 H0; apply Mi, Xi; exact H0|].
      split; [intros f0 e0 H0; apply Mf in H0; now rewrite Xm in H0|].
      split.
      * intros f0 e0 [H0|H0] Kn; [|eauto].
        inversion H0; subst. exfalso.
        assert (Spec.kept (Corpus.world s') e0 = true).
        { eapply kept_mono; [|exact Kt].
          intros q Hq. apply Mx. eapply exists_mono; eauto. }
        congruence.
      * intros f0 e0 [H0|H0] Nn.
        -- inversion H0; subst. split.
           ++ eapply kept_mono; [|exact Kt].
              intros q Hq. apply Mx. eapply exists_mono; eauto.
           ++ intros u0 p0 Hu0 Hp0 G.
              assert (u0 = u) by congruence. assert (p0 = p) by congruence.
              subst u0 p0.
              assert (G1 : dict_get String.eqb (Corpus._indices s1) u = None).
              { destruct (dict_get String.eqb (Corpus._indices s1) u) eqn:G1;
                  auto. apply Mi in G1. congruence. }
              rewrite (N G1). simpl. auto.
        -- destruct (K f0 e0 H0 Nn) as (K1 & K2). split; [exact K1|].
           intros u0 p0 Hu0 Hp0 G. destruct (K2 u0 p0 Hu0 Hp0 G).
           split; apply in_or_app; auto.
Qed.



(** ** Ingesting a document again *)

Lemma gather_state (E : Backend) (q : string) (per : Z)
      (idxs : list (string * Indexer.ChunkIndex)) :
  forall acc s r s',
    Corpus.gather E q per idxs acc s = (r, s') ->
    Corpus._indices s' = Corpus._indices s
    /\ Corpus._file_map s' = Corpus._file_map s.
Proof.
  induction idxs as [|[u idx] idxs IH]; intros acc s r s' H.
  - unmonad. inversion H; subst. auto.
  - simpl in H. unmonad.
    destruct (Indexer.query E idx q per) as [nb|e].
    + destruct (Corpus.tag idx nb) as [cs|e].
      * apply IH in H. simpl in H. exact H.
      * inversion H; subst. auto.
    + apply IH in H. simpl in H. exact H.
Qed.

Lemma ask_state (E : Backend) (q : string) (k : Z) (s : Corpus.Manager) :
  forall r s', Corpus.ask E q k s = (r, s') ->
    Corpus._indices s' = Corpus._indices s
    /\ Corpus._file_map s' = Corpus._file_map s.
Proof.
  intros r s' H. unfold Corpus.ask in H.
  unfold bind at 1, gets at 1 in H.
  destruct (Corpus._indices s) as [|i idxs] eqn:I.
  - unfold ret in H. inversion H; subst. auto.
  - rewrite aggregate_query_run in H.
    destruct (Corpus.gather E q _ (Corpus._indices s) [] s)
      as [[cs|e] s1] eqn:G;
      apply gather_state in G; destruct G as [G1 G2];
      inversion H; subst; simpl; rewrite <- I; auto.
Qed.

(** A loaded index is asked by every query and what it contributes is
    in the pool given to the reranker. *)
Lemma loaded_index_is_asked (E : Backend) (s : Corpus.Manager)
      (u : string) (ix : Indexer.ChunkIndex) (q : string) (k : Z) :
  dict_get String.eqb (Corpus._indices s) u = Some ix ->
  forall res s',
    Corpus._aggregate_query E q k s = (Ok res, s') ->
    exists evs pool,
      Spec.new_events s s' evs
      /\ In (EvQuery u q (Spec.per_index_k k (len (Corpus._indices s)))) evs
      /\ In (EvRerank q pool k) evs
      /\ incl (Spec.contribution E q
                 (Spec.per_index_k k (len (Corpus._indices s))) ix) pool.
Proof.
  intros G res s' H. apply get_in_pairs in G.
  rewrite aggregate_query_run in H.
  set (per := Spec.per_index_k k (len (Corpus._indices s))) in *.
  destruct (Corpus.gather E q per (Corpus._indices s) [] s)
    as [[cs|e] s1] eqn:Ga; [|discriminate].
  apply gather_ok in Ga. destruct Ga as (-> & T & _ & _).
  inversion H; subst. simpl in *.
  eexists. exists (Spec.pool E q per (Corpus._indices s)).
  split; [|split; [|split]].
  - unfold Spec.new_events in *. simpl. rewrite trace_fold_log. simpl.
    rewrite T. rewrite <- !app_assoc. reflexivity.
  - apply in_or_app. left.
    apply (in_map (fun ui => EvQuery (fst ui) q per)) in G. exact G.
  - apply in_or_app. right. simpl. auto.
  - intros c Hc. unfold Spec.pool. apply in_flat_map.
    exists (u, ix). auto.
Qed.

Lemma generate_uid_spec (E : Backend) (p : string) (s : Corpus.Manager) :
  forall r s', Corpus._generate_uid_for_file E p s = (r, s') ->
    Corpus._indices s' = Corpus._indices s
    /\ Corpus._file_map s' = Corpus._file_map s
    /\ (forall u, r = Ok u ->
          exists st,
            dict_get String.eqb (w_files (Corpus.world s)) p = Some st
            /\ u = Utils.compute_id
                     [Corpus.basename p; str_of_Z (f_size st);
                      str_of_Z (f_mtime st);
                      clock E (w_tick (Corpus.world s))]).
Proof.
  intros r s' H. unfold Corpus._generate_uid_for_file in H.
  unfold bind at 1, gets at 1 in H.
  destruct (dict_get String.eqb (w_files (Corpus.world s)) p) as [st|].
  - unmonad. inversion H; subst. simpl. repeat split; auto.
    intros u Hu. inversion Hu; subst. exists st. auto.
  - unfold raise in H. inversion H; subst. repeat split; auto.
    intros u Hu. discriminate.
Qed.

(** Ingestion never unloads an index. *)
Lemma add_loop_keeps_indices (E : Backend) (paths : list string) :
  forall acc s r s',
    Corpus.add_loop E paths acc s = (r, s') ->
    forall u ix, dict_get String.eqb (Corpus._indices s) u = Some ix ->
                 dict_get String.eqb (Corpus._indices s') u = Some ix.
Proof.
  induction paths as [|src paths IH]; intros acc s r s' H u ix G.
  - unfold Corpus.add_loop, ret in H. inversion H; subst. exact G.
  - simpl in H. unfold bind at 1, gets at 1 in H.
    destruct (negb (isfile (Corpus.world s) src)
              || negb (Corpus.endswith (Corpus.lower src) ".pdf")).
    + eapply IH; eauto.
    + unfold bind at 1 in H.
      set (s_a := snd ((if (src =? join PDF_DIR (Corpus.basename src))%string
                        then ret tt
                        else Corpus.copy2 src
                               (join PDF_DIR (Corpus.basename src))) s)).
      assert (A : (if (src =? join PDF_DIR (Corpus.basename src))%string
                   then ret tt
                   else Corpus.copy2 src (join PDF_DIR (Corpus.basename src)))
                    s = (Ok tt, s_a)
                  /\ Corpus._indices s_a = Corpus._indices s).
      { unfold s_a.
        destruct (src =? join PDF_DIR (Corpus.basename src))%string.
        - split; reflexivity.
        - unfold Corpus.copy2, modify. simpl.
          destruct (dict_get String.eqb (w_files (Corpus.world s)) src);
            split; reflexivity. }
      destruct A as [A Ai]. rewrite A in H. clearbody s_a.
      unfold bind at 1 in H.
      destruct (Corpus._generate_uid_for_file E _ s_a) as [[un|e] s_b] eqn:Gu;
        apply generate_uid_spec in Gu; destruct Gu as (Bi & _ & _).
      * unfold bind at 1, modify at 1 in H. unfold bind at 1 in H.
        destruct (Corpus._ensure_index_for_uid E un _ _) as [[ixn|e] s_d] eqn:En;
          apply ensure_index_spec in En;
          destruct En as (seg & (_ & _ & _ & _ & _ & Xi) & _).
        -- eapply IH; [exact H|]. apply Xi. simpl. congruence.
        -- inversion H; subst. apply Xi. simpl. congruence.
      * inversion H; subst. congruence.
Qed.

Lemma add_pdfs_keeps_indices (E : Backend) (paths : list string)
      (s : Corpus.Manager) :
  forall r s', Corpus.add_pdfs E paths s = (r, s') ->
    forall u ix, dict_get String.eqb (Corpus._indices s) u = Some ix ->
                 dict_get String.eqb (Corpus._indices s') u = Some ix.
Proof.
  intros r s' H u ix G. unfold Corpus.add_pdfs in H.
  unfold bind at 1 in H.
  destruct (Corpus.add_loop E paths [] s) as [[items|e] s1] eqn:L;
    pose proof (add_loop_keeps_indices _ _ _ _ L _ G) as G1.
  - unfold Corpus._save_metadata in H. unmonad. inversion H; subst. exact G1.
  - inversion H; subst. exact G1.
Qed.

Lemma delete_pdf_keeps_orphan (u : string) (ix : Indexer.ChunkIndex)
      (f : string) (s : Corpus.Manager) :
  forall r s', Corpus.delete_pdf f s = (r, s') ->
    Spec.orphaned u ix s -> Spec.orphaned u ix s'.
Proof.
  intros r s' H [G O]. unfold Spec.orphaned.
  destruct (dict_get String.eqb (Corpus._file_map s) f) as [e|] eqn:Gf.
  - destruct e as [[u'|] p].
    + (* an entry with a uid *)
      assert (Nu : u' <> u) by (intro; subst; eapply O; eauto).
      rewrite (delete_pdf_run _ _ Gf) in H.
      assert (Fg : forall s0,
        Corpus._indices s0 = Corpus._indices s ->
        Corpus._file_map s0 = Corpus._file_map s ->
        Corpus.forget f u' s0 = (r, s') ->
        dict_get String.eqb (Corpus._indices s') u = Some ix
        /\ (forall f0 e0,
              dict_get String.eqb (Corpus._file_map s') f0 = Some e0 ->
              uid e0 <> Some u)).
      { intros s0 Hi Hf H0.
        destruct (forget_spec f u' s0) as (s1 & R & I & F & _).
        rewrite R in H0. inversion H0; subst. rewrite I, F, Hi, Hf. split.
        - rewrite (get_del_other _ string_eqb_iff); auto.
        - intros f0 e0 G0. apply get_del_some in G0. eauto. }
      destruct (Spec.source_removal_fails (Corpus.world s)
                  (Entry (Some u') p)).
      * inversion H; subst. simpl. auto.
      * destruct p as [p'|].
        -- destruct (Corpus.truthy (Some p') && exists_ (Corpus.world s) p');
             refine (Fg _ _ _ H); reflexivity.
        -- refine (Fg _ _ _ H); reflexivity.
    + (* an entry without uid *)
      revert H. unfold Corpus.delete_pdf.
      cbv beta iota delta [bind gets ret try_except Corpus.in_world remove
                           modify raise].
      rewrite Gf. cbv beta iota delta [pdf_path uid].
      destruct p as [p'|].
      * destruct (Corpus.truthy (Some p') && exists_ (Corpus.world s) p').
        -- destruct (isfile (Corpus.world s) p'
                     && negb (mem p' (w_locked (Corpus.world s))));
             simpl; intro H; inversion H; subst; simpl; auto.
        -- simpl; intro H; inversion H; subst; simpl; auto.
      * intro H; inversion H; subst; auto.
  - revert H. unfold Corpus.delete_pdf.
    cbv beta iota delta [bind gets ret]. rewrite Gf.
    intro H; inversion H; subst; auto.
Qed.

Lemma later_keeps_orphan (E : Backend) (u : string)
      (ix : Indexer.ChunkIndex) (s s' : Corpus.Manager) :
  Spec.later E u s s' -> Spec.orphaned u ix s -> Spec.orphaned u ix s'.
Proof.
  induction 1 as [s|s1 s2 s3 L IH St]; auto.
  intro O. specialize (IH O). destruct St as [q k r s s' H|f r s s' H|paths r s s' H Hn].
  - apply ask_state in H. destruct H as [I F]. destruct IH as [G O2].
    split; [now rewrite I | now rewrite F].
  - eapply delete_pdf_keeps_orphan; eauto.
  - destruct IH as [G _]. split; [|exact Hn].
    eapply add_pdfs_keeps_indices; eauto.
Qed.

(** C10.  When a document whose basename is already in the registry,
    with its index loaded, is ingested again, the registry entry of that
    basename is overwritten with a newly generated uid (the id of
    basename, size, modification time and the clock reading), while the
    index stored under the old uid stays in the in-memory map.  Any query
    on a state where it is loaded asks it for its candidates and hands
    them to the reranker.  When the new uid differs from the old one and
    no other entry carried the old uid, the state after the ingestion has
    a loaded index without registry entry, and the old index stays loaded
    through every later question, deletion and ingestion that does not
    produce the old uid again. *)
Theorem reingest_keeps_old_index (E : Backend) (s s' : Corpus.Manager)
        (src u_old : string) (p_old : option string)
        (ix_old : Indexer.ChunkIndex) (items : list (string * string)) :
  let filename := Corpus.basename src in
  let dst := join PDF_DIR filename in
  isfile (Corpus.world s) src = true ->
  Corpus.endswith (Corpus.lower src) ".pdf" = true ->
  dict_get String.eqb (Corpus._file_map s) filename
  = Some (Entry (Some u_old) p_old) ->
  dict_get String.eqb (Corpus._indices s) u_old = Some ix_old ->
  Corpus.add_pdfs E [src] s = (Ok items, s') ->
  exists u_new st,
    dict_get String.eqb (w_files (Corpus.world s)) src = Some st
    /\ u_new = Utils.compute_id
                 [Corpus.basename dst; str_of_Z (f_size st);
                  str_of_Z (f_mtime st); clock E (w_tick (Corpus.world s))]
    /\ items = [(filename, u_new)]
    /\ dict_get String.eqb (Corpus._file_map s') filename
       = Some (Entry (Some u_new) (Some dst))
    /\ dict_get String.eqb (Corpus._indices s') u_old = Some ix_old
    /\ (forall s1 q k res s2,
          dict_get String.eqb (Corpus._indices s1) u_old = Some ix_old ->
          Corpus._aggregate_query E q k s1 = (Ok res, s2) ->
          exists evs pool,
            Spec.new_events s1 s2 evs
            /\ In (EvQuery u_old q
                           (Spec.per_index_k k (len (Corpus._indices s1)))) evs
            /\ In (EvRerank q pool k) evs
            /\ incl (Spec.contribution E q
                       (Spec.per_index_k k (len (Corpus._indices s1)))
                       ix_old) pool)
    /\ (u_new <> u_old ->
        (forall f e, dict_get String.eqb (Corpus._file_map s) f = Some e ->
                     uid e = Some u_old -> f = filename) ->
        ~ Spec.loaded_are_current s'
        /\ forall s1, Spec.later E u_old s' s1 ->
                      dict_get String.eqb (Corpus._indices s1) u_old
                      = Some ix_old).
Proof.
  intros filename dst Hfile Hpdf Hreg Hidx Hadd.
  unfold Corpus.add_pdfs in Hadd. unfold bind at 1 in Hadd.
  destruct (Corpus.add_loop E [src] [] s) as [[its|e] s1] eqn:L;
    [|discriminate].
  unfold Corpus._save_metadata in Hadd.
  cbv beta iota delta [bind gets modify Corpus.emit ret] in Hadd.
  inversion Hadd; subst items s'. clear Hadd.
  (* one turn of the loop *)
  simpl in L. unfold bind at 1, gets at 1 in L.
  rewrite Hfile, Hpdf in L. simpl in L.
  fold filename in L. fold dst in L.
  unfold isfile, dict_mem in Hfile.
  destruct (dict_get String.eqb (w_files (Corpus.world s)) src) as [st|] eqn:Gs;
    [|discriminate].
  unfold bind at 1 in L.
  set (s_a := snd ((if (src =? dst)%string then ret tt
                    else Corpus.copy2 src dst) s)) in *.
  assert (A : (if (src =? dst)%string then ret tt else Corpus.copy2 src dst) s
              = (Ok tt, s_a)
              /\ Corpus._indices s_a = Corpus._indices s
              /\ Corpus._file_map s_a = Corpus._file_map s
              /\ w_tick (Corpus.world s_a) = w_tick (Corpus.world s)
              /\ dict_get String.eqb (w_files (Corpus.world s_a)) dst = Some st).
  { unfold s_a. destruct (String.eqb_spec src dst) as [Eq|Ne].
    - simpl. repeat split; auto. now rewrite <- Eq.
    - unfold Corpus.copy2, modify. simpl. rewrite Gs. simpl.
      repeat split; auto. apply (get_set_same _ string_eqb_iff). }
  destruct A as (A & Ai & Af & At & Ad). rewrite A in L. clearbody s_a.
  unfold bind at 1 in L.
  destruct (Corpus._generate_uid_for_file E dst s_a) as [[u_new|e] s_b] eqn:Gu;
    [|discriminate].
  apply generate_uid_spec in Gu. destruct Gu as (Bi & Bf & Bu).
  destruct (Bu u_new eq_refl) as (st' & Gst & Hu). clear Bu.
  rewrite Ad in Gst. inversion Gst; subst st'. clear Gst. rewrite At in Hu.
  unfold bind at 1, modify at 1 in L. unfold bind at 1 in L.
  destruct (Corpus._ensure_index_for_uid E u_new dst _) as [[ixn|e] s_d] eqn:En;
    [|discriminate].
  apply ensure_index_spec in En.
  destruct En as (seg & (Xm & _ & _ & _ & _ & Xi) & _). simpl in Xm, Xi.
  unfold Corpus.add_loop, ret in L. inversion L; subst its s1. clear L.
  assert (Idx : dict_get String.eqb (Corpus._indices s_d) u_old = Some ix_old)
    by (apply Xi; congruence).
  assert (Fm : Corpus._file_map s_d
               = dict_set String.eqb (Corpus._file_map s) filename
                          (Entry (Some u_new) (Some dst)))
    by congruence.
  exists u_new, st. simpl.
  split; [reflexivity|]. split; [exact Hu|]. split; [reflexivity|].
  split; [rewrite Fm; apply (get_set_same _ string_eqb_iff)|].
  split; [exact Idx|].
  split; [intros; eapply loaded_index_is_asked; eauto|].
  intros Nu Uniq.
  assert (Orph : forall f e,
             dict_get String.eqb (Corpus._file_map s_d) f = Some e ->
             uid e <> Some u_old).
  { intros f e G Hue. rewrite Fm in G.
    destruct (String.eqb_spec filename f) as [Eq|Ne].
    - subst f. rewrite (get_set_same _ string_eqb_iff) in G.
      inversion G; subst e. simpl in Hue. congruence.
    - rewrite (get_set_other _ string_eqb_iff) in G by assumption.
      apply Ne. symmetry. eapply Uniq; eauto. }
  split.
  - intro LC. destruct (LC u_old) as (f & e & G & Hue).
    + simpl. unfold dict_mem. now rewrite Idx.
    + simpl in G. eapply Orph; eauto.
  - intros s1 Lt.
    apply (@later_keeps_orphan E u_old ix_old _ s1 Lt).
    split; simpl; auto.
Qed.

Lemma reingest_keeps_old_index_witness :
  dict_get String.eqb (Corpus._indices Scenarios.reingested)
           "63680963cf6f12a9" = Some Scenarios.first_index
  /\ dict_get String.eqb (Corpus._file_map Scenarios.reingested) "A.pdf"
     = Some (Entry (Some "fde154ffbcfca4f1") (Some "data/pdfs/A.pdf"))
  /\ ~ Spec.loaded_are_current Scenarios.reingested.
Proof.
  destruct (@reingest_keeps_old_index Scenarios.strict Scenarios.ingested
              Scenarios.reingested "up/A.pdf" "63680963cf6f12a9"
              (Some "data/pdfs/A.pdf") Scenarios.first_index
              [("A.pdf", "fde154ffbcfca4f1")])
    as (u_new & st & _ & Hu & Hi & Hf & Hx & _ & Ho).
  - vm_compute. reflexivity.
  - vm_compute. reflexivity.
  - vm_compute. reflexivity.
  - vm_compute. reflexivity.
  - vm_compute. reflexivity.
  - clear Hu. injection Hi as Hn. subst u_new.
    split; [exact Hx|]. split; [exact Hf|].
    apply Ho; [discriminate|].
    intros f e G _. revert G. unfold Scenarios.ingested.
    cbv beta iota delta [Corpus._file_map dict_get].
    destruct (String.eqb_spec "A.pdf" f) as [<-|]; [reflexivity|discriminate].
Defined.

(** ** Deleting after a second ingestion *)

(** C7 at its failing input.  [A.pdf] is ingested twice and deleted: the
    deletion succeeds, and the next question still returns the passages
    of [A.pdf], from the index of its first ingestion. *)
Theorem deleted_document_still_returned :
  Scenarios.result (Corpus.delete_pdf "A.pdf") Scenarios.reingested
  = Ok Corpus.Deleted
  /\ Corpus._file_map
       (Scenarios.after (Corpus.delete_pdf "A.pdf") Scenarios.reingested) = []
  /\ exists cs,
       Scenarios.result (Corpus.ask Scenarios.strict "q" 7)
         (Scenarios.after (Corpus.delete_pdf "A.pdf") Scenarios.reingested)
       = Ok cs
       /\ Spec.paper_ids cs = [Some (VStr "A.pdf"); Some (VStr "A.pdf")].
Proof.
  split; [vm_compute; reflexivity|]. split; [vm_compute; reflexivity|].
  eexists. split; vm_compute; reflexivity.
Qed.


(** ** Sliding windows *)

Lemma window_prefix (mc : Z) (rest : list Chunker.text) :
  forall total,
    Chunker.window mc rest total
    = firstn (List.length (Chunker.window mc rest total)) rest.
Proof.
  induction rest as [|s rest IH]; intro total; simpl; [reflexivity|].
  destruct (total + len s + 1 <=? mc); simpl; [|reflexivity].
  now rewrite <- IH.
Qed.

Lemma join_space_length (l : list Chunker.text) :
  l <> [] ->
  len (Chunker.join_space l) + 1
  = fold_right (fun s acc => len s + 1 + acc) 0 l.
Proof.
  induction l as [|s l IH]; [congruence|]. intros _.
  destruct l as [|s' l].
  - simpl. lia.
  - specialize (IH ltac:(discriminate)).
    change (Chunker.join_space (s :: s' :: l))
      with (s ++ Chunker.space :: Chunker.join_space (s' :: l)).
    cbn [fold_right]. cbn [fold_right] in IH. rewrite <- IH.
    unfold len. rewrite length_app. cbn [List.length]. lia.
Qed.

Lemma window_total (mc : Z) (rest : list Chunker.text) :
  forall total,
    total + fold_right (fun s acc => len s + 1 + acc) 0
              (Chunker.window mc rest total) <= Z.max total mc.
Proof.
  induction rest as [|s rest IH]; intro total; simpl; [lia|].
  destruct (total + len s + 1 <=? mc) eqn:L; simpl; [|lia].
  apply Z.leb_le in L. specialize (IH (total + len s + 1)). lia.
Qed.

Lemma slice_to_length (A : Type) (k : Z) (l : list A) :
  0 <= k -> len (slice_to k l) <= k.
Proof.
  intro H. unfold slice_to, len.
  destruct (0 <=? k) eqn:L; [|apply Z.leb_gt in L; lia].
  rewrite length_firstn. lia.
Qed.

Lemma windows_round (mc ov : Z) (fuel : nat) (sentences : list Chunker.text)
      (start : nat) (first : Chunker.text) (rest' : list Chunker.text) :
  skipn start sentences = first :: rest' ->
  Chunker.windows mc ov (S fuel) sentences start
  = let taken := Chunker.window mc (first :: rest') 0 in
    let current :=
      match taken with
      | [] => [slice_to mc first]
      | _ :: _ => taken
      end in
    let i :=
      match taken with
      | [] => S start
      | _ :: _ => (start + List.length taken)%nat
      end in
    if (List.length sentences <=? i)%nat
    then Some [Chunker.join_space current]
    else
      option_map (cons (Chunker.join_space current))
        (Chunker.windows mc ov fuel sentences
           (Z.to_nat (Z.max (Z.of_nat i - ov) (Z.of_nat start + 1)))).
Proof. intro Sk. cbn [Chunker.windows]. rewrite Sk. reflexivity. Qed.

(** What the loop yields from [start] on, when it has fuel for every
    sentence left. *)
Lemma windows_run (mc ov : Z) (sentences : list Chunker.text) :
  forall fuel start,
    (List.length sentences - start <= fuel)%nat ->
    exists chunks,
      Chunker.windows mc ov fuel sentences start = Some chunks
      /\ (0 <= mc -> Forall (fun c => len c <= mc) chunks)
      /\ (List.length chunks <= List.length sentences - start)%nat
      /\ ((start < List.length sentences)%nat -> chunks <> []).
Proof.
  induction fuel as [|fuel IH]; intros start Hf.
  - simpl. rewrite skipn_all2 by lia. exists [].
    split; [reflexivity|]. split; [intro; constructor|].
    split; [simpl; lia|]. intro. lia.
  - destruct (skipn start sentences) as [|first rest'] eqn:Sk.
    + cbn [Chunker.windows]. rewrite Sk.
      exists []. split; [reflexivity|]. split; [intro; constructor|].
      split; [simpl; lia|]. intro Hlt.
      apply (f_equal (@List.length _)) in Sk. rewrite length_skipn in Sk.
      simpl in Sk. lia.
    + assert (Hlt : (start < List.length sentences)%nat).
      { apply (f_equal (@List.length _)) in Sk. rewrite length_skipn in Sk.
        simpl in Sk. lia. }
      rewrite (windows_round mc ov fuel _ _ Sk). cbv zeta.
      set (taken := Chunker.window mc (first :: rest') 0).
      set (current := match taken with
                      | [] => [slice_to mc first] | _ :: _ => taken end).
      set (i := match taken with
                | [] => S start
                | _ :: _ => (start + List.length taken)%nat end).
      assert (Hi : (start < i)%nat).
      { unfold i. destruct taken; simpl; lia. }
      assert (Hc : 0 <= mc -> len (Chunker.join_space current) <= mc).
      { intro Hmc. unfold current. destruct taken as [|t ts] eqn:T.
        - simpl. now apply slice_to_length.
        - pose proof (window_total mc (first :: rest') 0) as W.
          fold taken in W. rewrite T in W.
          rewrite <- join_space_length in W by discriminate. lia. }
      destruct (List.length sentences <=? i)%nat eqn:L.
      * exists [Chunker.join_space current].
        split; [reflexivity|]. split; [intro; constructor; auto|].
        split; [simpl; lia|]. discriminate.
      * apply Nat.leb_gt in L.
        destruct (IH (Z.to_nat (Z.max (Z.of_nat i - ov) (Z.of_nat start + 1))))
          as (chunks & R & F & Ln & _); [lia|].
        rewrite R. simpl.
        exists (Chunker.join_space current :: chunks).
        split; [reflexivity|]. split; [intro; constructor; auto|].
        split; [simpl; lia|]. discriminate.
Qed.

(** X1.  [sliding_window_chunks] ends within [len(sentences)] rounds for
    every [max_chars] and every overlap, also negative ones.  There are
    at most as many chunks as sentences, a non-empty input gives at least
    one chunk, and when [max_chars] is not negative no chunk is longer
    than [max_chars]. *)
Theorem sliding_window_bounds (max_chars overlap_sentences : Z)
        (sentences : list Chunker.text) :
  exists chunks,
    Chunker.sliding_window_chunks max_chars overlap_sentences sentences
    = Some chunks
    /\ (List.length chunks <= List.length sentences)%nat
    /\ (sentences <> [] -> chunks <> [])
    /\ (0 <= max_chars -> Forall (fun c => len c <= max_chars) chunks).
Proof.
  destruct (@windows_run max_chars overlap_sentences sentences
              (List.length sentences) 0%nat ltac:(lia))
    as (chunks & R & F & L & N).
  exists chunks. split; [exact R|]. split; [lia|]. split; [|exact F].
  intro Hne. apply N. destruct sentences; [congruence | simpl; lia].
Qed.

Lemma sliding_window_chunks_total (mc ov : Z) (sentences : list Chunker.text) :
  exists chunks, Chunker.sliding_window_chunks mc ov sentences = Some chunks.
Proof.
  destruct (@windows_run mc ov sentences (List.length sentences) 0%nat
              ltac:(lia)) as (chunks & R & _).
  now exists chunks.
Qed.

Lemma nth_error_lt (A : Type) (l : list A) (j : nat) (x : A) :
  nth_error l j = Some x -> (j < List.length l)%nat.
Proof. intro H. apply nth_error_Some. congruence. Qed.

Lemma join_space_infix (l : list Chunker.text) (s : Chunker.text) :
  In s l -> exists pre post, Chunker.join_space l = pre ++ s ++ post.
Proof.
  induction l as [|t l IH]; [contradiction|]. intros [->|H].
  - destruct l as [|t' l].
    + exists [], []. simpl. now rewrite app_nil_r.
    + exists [], (Chunker.space :: Chunker.join_space (t' :: l)). reflexivity.
  - destruct l as [|t' l]; [contradiction|].
    destruct (IH H) as (pre & post & E).
    exists (t ++ Chunker.space :: pre), post.
    change (Chunker.join_space (t :: t' :: l))
      with (t ++ Chunker.space :: Chunker.join_space (t' :: l)).
    rewrite E. now rewrite <- app_assoc.
Qed.

Lemma windows_cover (mc ov : Z) (sentences : list Chunker.text) :
  0 <= ov ->
  (forall s, In s sentences -> len s + 1 <= mc) ->
  forall fuel start,
    (List.length sentences - start <= fuel)%nat ->
    exists chunks,
      Chunker.windows mc ov fuel sentences start = Some chunks
      /\ forall j s,
           nth_error sentences j = Some s -> (start <= j)%nat ->
           exists c pre post, In c chunks /\ c = pre ++ s ++ post.
Proof.
  intros Hov Hfit. induction fuel as [|fuel IH]; intros start Hf.
  - cbn [Chunker.windows]. rewrite skipn_all2 by lia. exists [].
    split; [reflexivity|]. intros j s Hj Hs.
    apply nth_error_lt in Hj. lia.
  - destruct (skipn start sentences) as [|first rest'] eqn:Sk.
    + cbn [Chunker.windows]. rewrite Sk. exists [].
      split; [reflexivity|]. intros j s Hj Hs.
      apply nth_error_lt in Hj.
      apply (f_equal (@List.length _)) in Sk. rewrite length_skipn in Sk.
      simpl in Sk. lia.
    + rewrite (windows_round mc ov fuel _ _ Sk). cbv zeta.
      assert (Hfirst : In first sentences).
      { rewrite <- (firstn_skipn start sentences), Sk.
        apply in_or_app. right. now left. }
      pose proof (window_prefix mc (first :: rest') 0) as Pre.
      destruct (Chunker.window mc (first :: rest') 0) as [|t ts] eqn:T.
      { pose proof (Hfit _ Hfirst) as Hf1.
        assert (L : (0 + len first + 1 <=? mc) = true)
          by (apply Z.leb_le; lia).
        cbn [Chunker.window] in T. rewrite L in T. discriminate. }
      set (taken := t :: ts) in *.
      assert (Hin : forall j s,
                 nth_error sentences j = Some s -> (start <= j)%nat ->
                 (j < start + List.length taken)%nat ->
                 exists c pre post,
                   In c [Chunker.join_space taken] /\ c = pre ++ s ++ post).
      { intros j s Hj Hs Hlt.
        assert (In s taken).
        { rewrite Pre. rewrite <- Sk.
          apply nth_error_In with (n := (j - start)%nat).
          rewrite nth_error_firstn.
          destruct (j - start <? List.length taken)%nat eqn:B;
            [|apply Nat.ltb_ge in B; lia].
          rewrite nth_error_skipn.
          now replace (start + (j - start))%nat with j by lia. }
        destruct (join_space_infix taken s H) as (pre & post & E).
        exists (Chunker.join_space taken), pre, post. split; [now left|exact E]. }
      destruct (List.length sentences <=? start + List.length taken)%nat eqn:L.
      * apply Nat.leb_le in L. eexists. split; [reflexivity|].
        intros j s Hj Hs. apply (Hin j s Hj Hs).
        apply nth_error_lt in Hj. lia.
      * apply Nat.leb_gt in L.
        set (next := Z.to_nat (Z.max (Z.of_nat (start + List.length taken) - ov)
                                     (Z.of_nat start + 1))).
        assert (Hlen : (0 < List.length taken)%nat) by (simpl; lia).
        destruct (IH next) as (chunks & R & C); [unfold next; lia|].
        rewrite R. cbn [option_map]. eexists. split; [reflexivity|].
        intros j s Hj Hs.
        destruct (Nat.lt_ge_cases j (start + List.length taken)) as [Lt|Ge].
        -- destruct (Hin j s Hj Hs Lt) as (c & pre & post & [<-|[]] & E).
           exists (Chunker.join_space taken), pre, post.
           split; [now left | exact E].
        -- destruct (C j s Hj) as (c & pre & post & Ic & E);
             [unfold next; lia|].
           exists c, pre, post. split; [now right | exact E].
Qed.

(** X2.  With a non-negative overlap, when every sentence fits a window
    (its length plus one is at most [max_chars]) no sentence is lost:
    every sentence is contained, whole, in some chunk. *)
Theorem sliding_window_covers (max_chars overlap_sentences : Z)
        (sentences : list Chunker.text) :
  0 <= overlap_sentences ->
  (forall s, In s sentences -> len s + 1 <= max_chars) ->
  exists chunks,
    Chunker.sliding_window_chunks max_chars overlap_sentences sentences
    = Some chunks
    /\ forall s, In s sentences ->
         exists c pre post, In c chunks /\ c = pre ++ s ++ post.
Proof.
  intros Hov Hfit.
  destruct (@windows_cover max_chars overlap_sentences sentences Hov Hfit
              (List.length sentences) 0%nat ltac:(lia)) as (chunks & R & C).
  exists chunks. split; [exact R|].
  intros s Hs. apply In_nth_error in Hs. destruct Hs as (j & Hj).
  apply (C j s Hj). lia.
Qed.

Lemma sliding_window_covers_witness :
  exists chunks,
    Chunker.sliding_window_chunks 8 1 [[97; 98]; [99; 100]; [103]; [104; 105]]%N
    = Some chunks
    /\ forall s, In s [[97; 98]; [99; 100]; [103]; [104; 105]]%N ->
         exists c pre post, In c chunks /\ c = pre ++ s ++ post.
Proof.
  apply (@sliding_window_covers 8 1
           [[97; 98]; [99; 100]; [103]; [104; 105]]%N).
  - lia.
  - intros s H. simpl in H.
    repeat (destruct H as [<-|H]; [vm_compute; discriminate|]).
    contradiction.
Defined.

(** X3.  What the fallback loses: a sentence longer than [max_chars]
    is cut to its first [max_chars] characters; what follows them is in
    no chunk. *)
Theorem sliding_window_truncates (max_chars overlap_sentences : Z)
        (s : Chunker.text) :
  0 <= max_chars < len s ->
  Chunker.sliding_window_chunks max_chars overlap_sentences [s]
  = Some [firstn (Z.to_nat max_chars) s].
Proof.
  intros [H0 H1]. unfold Chunker.sliding_window_chunks.
  cbn [List.length]. rewrite (@windows_round _ _ _ _ _ s []) by reflexivity.
  cbv zeta. cbn [Chunker.window].
  destruct (0 + len s + 1 <=? max_chars) eqn:L;
    [apply Z.leb_le in L; lia|].
  cbn [List.length Nat.leb Chunker.join_space]. unfold slice_to.
  destruct (0 <=? max_chars) eqn:L0; [reflexivity|].
  apply Z.leb_gt in L0. lia.
Qed.

Lemma sliding_window_truncates_witness :
  Chunker.sliding_window_chunks 3 1 [[99; 100; 101; 102]]%N
  = Some [firstn (Z.to_nat 3) [99; 100; 101; 102]%N].
Proof.
  apply (@sliding_window_truncates 3 1 [99; 100; 101; 102]%N).
  vm_compute. split; [discriminate | reflexivity].
Defined.

(** ** Chunks of a document *)

Lemma text_eqb_eq (a b : Chunker.text) :
  Chunker.text_eqb a b = true <-> a = b.
Proof.
  revert b. induction a as [|x a IH]; intros [|y b]; simpl;
    try (split; [discriminate|congruence]); [tauto|].
  rewrite andb_true_iff, N.eqb_eq, IH. split.
  - intros [-> ->]. reflexivity.
  - intro H. inversion H. auto.
Qed.

Lemma key_eqb_eq (a b : Chunker.text * Z * Chunker.text * Chunker.text) :
  Chunker.key_eqb a b = true <-> a = b.
Proof.
  destruct a as [[[d p] t] c], b as [[[d' p'] t'] c']. unfold Chunker.key_eqb.
  rewrite !andb_true_iff, !text_eqb_eq, Z.eqb_eq. split.
  - intros [[[-> ->] ->] ->]. reflexivity.
  - intro H. inversion H. auto.
Qed.

Lemma seen_in (k : Chunker.text * Z * Chunker.text * Chunker.text)
      (seen : list (Chunker.text * Z * Chunker.text * Chunker.text)) :
  existsb (Chunker.key_eqb k) seen = true <-> In k seen.
Proof.
  rewrite existsb_exists. split.
  - intros (x & Hx & E). apply key_eqb_eq in E. now subst.
  - intro H. exists k. split; [exact H | now apply key_eqb_eq].
Qed.

Lemma dedup_spec (output : list Chunker.piece) :
  forall seen,
    NoDup (map Chunker.key (Chunker.dedup seen output))
    /\ (forall ch, In ch (Chunker.dedup seen output) ->
                   In ch output /\ ~ In (Chunker.key ch) seen)
    /\ (forall ch, In ch output ->
                   In (Chunker.key ch) seen
                   \/ In (Chunker.key ch)
                         (map Chunker.key (Chunker.dedup seen output))).
Proof.
  induction output as [|ch output IH]; intro seen; simpl.
  - split; [constructor|]. split; intros ch []; contradiction.
  - destruct (existsb (Chunker.key_eqb (Chunker.key ch)) seen) eqn:S.
    + apply seen_in in S. destruct (IH seen) as (N & I & C).
      split; [exact N|]. split.
      * intros c Hc. destruct (I c Hc). auto.
      * intros c [<-|Hc]; auto.
    + assert (S' : ~ In (Chunker.key ch) seen).
      { intro H. apply seen_in in H. congruence. }
      destruct (IH (Chunker.key ch :: seen)) as (N & I & C).
      split; [|split].
      * simpl. constructor; [|exact N].
        intro H. apply in_map_iff in H. destruct H as (c & E & Hc).
        destruct (I c Hc) as (_ & Nc). apply Nc. left. auto.
      * intros c [<-|Hc]; [auto|].
        destruct (I c Hc) as (Ho & Nc). split; [auto|].
        intro H. apply Nc. now right.
      * intros c [<-|Hc]; [right; now left|].
        destruct (C c Hc) as [[E|H]|H]; auto.
        -- right. left. exact E.
        -- right. now right.
Qed.

Lemma pieces_of_spec (mc ov : Z) (it : Chunker.page_item) :
  exists ps,
    Chunker.pieces_of mc ov it = Some ps
    /\ (forall ch, In ch ps ->
          Chunker.c_paper_id ch = Chunker.i_paper_id it
          /\ Chunker.c_page ch = Chunker.i_page it
          /\ Chunker.c_type ch = Chunker.i_type it
          /\ Chunker.c_refs ch = Chunker.refs_of it)
    /\ (Chunker.i_type it <> Chunker.kw_text ->
        ps = [Chunker.Piece (Chunker.i_type it) (Chunker.i_paper_id it)
                (Chunker.i_page it) (Chunker.i_content it)
                (Chunker.refs_of it)]).
Proof.
  unfold Chunker.pieces_of.
  destruct (Chunker.text_eqb (Chunker.i_type it) Chunker.kw_text) eqn:T.
  - apply text_eqb_eq in T.
    destruct (sliding_window_chunks_total mc ov
                (match Chunker.i_sentences it with Some s => s | None => [] end))
      as (chunks & R).
    rewrite R. eexists. split; [reflexivity|]. split; [|congruence].
    intros ch H. apply in_map_iff in H. destruct H as (c & <- & _).
    simpl. auto.
  - eexists. split; [reflexivity|]. split; [|reflexivity].
    intros ch [<-|[]]. simpl. auto.
Qed.

Lemma collect_spec (mc ov : Z) (pages : list Chunker.page_item) :
  exists output,
    Chunker.collect mc ov pages = Some output
    /\ (forall ch, In ch output ->
          exists it, In it pages
                     /\ Chunker.c_paper_id ch = Chunker.i_paper_id it
                     /\ Chunker.c_page ch = Chunker.i_page it
                     /\ Chunker.c_type ch = Chunker.i_type it
                     /\ Chunker.c_refs ch = Chunker.refs_of it)
    /\ (forall it, In it pages ->
          Chunker.i_type it <> Chunker.kw_text ->
          In (Chunker.Piece (Chunker.i_type it) (Chunker.i_paper_id it)
                (Chunker.i_page it) (Chunker.i_content it)
                (Chunker.refs_of it)) output).
Proof.
  induction pages as [|it pages IH]; simpl.
  - exists []. split; [reflexivity|]. split; intros ? [].
  - destruct (pieces_of_spec mc ov it) as (ps & R & P & Q).
    destruct IH as (output & R' & P' & Q'). rewrite R, R'.
    exists (ps ++ output). split; [reflexivity|]. split.
    + intros ch H. apply in_app_or in H. destruct H as [H|H].
      * exists it. split; [now left | now apply P].
      * destruct (P' ch H) as (it' & I & F). exists it'. split; [now right|auto].
    + intros it' [<-|H] NT; apply in_or_app.
      * left. rewrite (Q NT). now left.
      * right. now apply Q'.
Qed.

(** X4.  [build_chunks] returns for every input.  No two returned chunks
    agree on paper, page, type and content; every returned chunk carries
    the paper, page, type and cross references of one of the page items;
    and every item that is not of type ["text"] (a caption or a table) is
    represented by a chunk with its content. *)
Theorem build_chunks_deduplicates (max_chars overlap_sentences : Z)
        (pages : list Chunker.page_item) :
  exists out,
    Chunker.build_chunks max_chars overlap_sentences pages = Some out
    /\ NoDup (map Chunker.key out)
    /\ (forall ch, In ch out ->
          exists it, In it pages
                     /\ Chunker.c_paper_id ch = Chunker.i_paper_id it
                     /\ Chunker.c_page ch = Chunker.i_page it
                     /\ Chunker.c_type ch = Chunker.i_type it
                     /\ Chunker.c_refs ch = Chunker.refs_of it)
    /\ (forall it, In it pages ->
          Chunker.i_type it <> Chunker.kw_text ->
          In (Chunker.i_paper_id it, Chunker.i_page it, Chunker.i_type it,
              Chunker.i_content it)
             (map Chunker.key out)).
Proof.
  unfold Chunker.build_chunks.
  destruct (collect_spec max_chars overlap_sentences pages)
    as (output & R & P & Q).
  rewrite R. cbn [option_map]. eexists. split; [reflexivity|].
  destruct (dedup_spec output []) as (N & I & C).
  split; [exact N|]. split.
  - intros ch H. apply P. now apply I.
  - intros it H NT. destruct (C _ (Q it H NT)) as [[]|K]. exact K.
Qed.

(** ** Snapshots: what [save] writes, [load] reads *)

Lemma read_write_same (kids kids' : list node) (name : string) (c : content) :
  Indexer.write_file kids name c = Ok kids' ->
  Indexer.read_file kids' name = Ok c.
Proof.
  revert kids'. induction kids as [|k kids IH]; intros kids' H; simpl in H.
  - inversion H; subst. simpl. now rewrite String.eqb_refl.
  - destruct k as [n c'|n ks]; destruct (String.eqb n name) eqn:N.
    + inversion H; subst. simpl. now rewrite N.
    + destruct (Indexer.write_file kids name c) as [r|]; [|discriminate].
      inversion H; subst. simpl. rewrite N. now apply IH.
    + discriminate.
    + destruct (Indexer.write_file kids name c) as [r|]; [|discriminate].
      inversion H; subst. simpl. rewrite N. now apply IH.
Qed.

Lemma read_write_other (kids kids' : list node) (name other : string)
      (c : content) :
  Indexer.write_file kids name c = Ok kids' ->
  other <> name ->
  Indexer.read_file kids' other = Indexer.read_file kids other.
Proof.
  intros H D. revert kids' H.
  induction kids as [|k kids IH]; intros kids' H; simpl in H.
  - inversion H; subst. simpl.
    destruct (String.eqb_spec name other); [congruence | reflexivity].
  - destruct k as [n c'|n ks]; destruct (String.eqb_spec n name) as [->|N].
    + inversion H; subst. simpl.
      destruct (String.eqb_spec name other); [congruence | reflexivity].
    + destruct (Indexer.write_file kids name c) as [r|]; [|discriminate].
      inversion H; subst. simpl. now rewrite (IH r).
    + discriminate.
    + destruct (Indexer.write_file kids name c) as [r|]; [|discriminate].
      inversion H; subst. simpl. now rewrite (IH r).
Qed.

Lemma write_ok (w w' : World) (dir name : string) (c : content) :
  Indexer.write w dir name c = (Ok tt, w') ->
  exists kids kids',
    dict_get String.eqb (w_dirs w) dir = Some kids
    /\ Indexer.write_file kids name c = Ok kids'
    /\ dict_get String.eqb (w_dirs w') dir = Some kids'.
Proof.
  unfold Indexer.write. intro H.
  destruct (dict_get String.eqb (w_dirs w) dir) as [kids|]; [|discriminate].
  destruct (Indexer.write_file kids name c) as [kids'|] eqn:W; [|discriminate].
  inversion H; subst. exists kids, kids'. simpl.
  repeat split; auto. apply (get_set_same _ string_eqb_iff).
Qed.

(** The three files of a snapshot, after [save]. *)
Lemma save_reads (ix : Indexer.ChunkIndex) (dir : string) (w w' : World) :
  Indexer.save ix dir w = (Ok tt, w') ->
  exists kids,
    dict_get String.eqb (w_dirs w') dir = Some kids
    /\ Indexer.read_file kids "embeddings.npy"
       = Ok (match Indexer.embeddings ix with
             | Some e => CArray e
             | None => CJunk
             end)
    /\ Indexer.read_file kids "meta.pkl" = Ok (CPickle (Indexer.meta ix))
    /\ Indexer.read_file kids "model_name.txt"
       = Ok (CText (Indexer.model_name ix)).
Proof.
  unfold Indexer.save. intro H. unmonad.
  destruct (Indexer.write (ensure_dir w dir) dir "embeddings.npy" _)
    as [[[]|e1] w1] eqn:W1; [|discriminate].
  destruct (Indexer.write w1 dir "meta.pkl" _) as [[[]|e2] w2] eqn:W2;
    [|discriminate].
  apply write_ok in W1, W2, H.
  destruct W1 as (k0 & k1 & G0 & F1 & G1).
  destruct W2 as (k1' & k2 & G1' & F2 & G2).
  destruct H as (k2' & k3 & G2' & F3 & G3).
  rewrite G1 in G1'. inversion G1'; subst k1'.
  rewrite G2 in G2'. inversion G2'; subst k2'.
  exists k3. split; [exact G3|]. split; [|split].
  - rewrite (read_write_other _ _ F3) by discriminate.
    rewrite (read_write_other _ _ F2) by discriminate.
    exact (read_write_same _ _ _ F1).
  - rewrite (read_write_other _ _ F3) by discriminate.
    exact (read_write_same _ _ _ F2).
  - exact (read_write_same _ _ _ F3).
Qed.

Lemma build_loop_keeps (E : Backend) (chunks : list chunk) :
  forall a b : Indexer.ChunkIndex,
    for_each chunks
      (fun ch =>
         ch_id <- lift (Indexer.chunk_id E ch) ;;
         modify (fun s => Indexer.set_meta
                            (Indexer.meta s ++ [set ch "id" (VStr ch_id)]) s))
      a = (Ok tt, b) ->
    Indexer.model_name b = Indexer.model_name a
    /\ Indexer.embeddings b = Indexer.embeddings a.
Proof.
  induction chunks as [|c cs IH]; intros a b Hc.
  - unmonad. now inversion Hc.
  - simpl in Hc. unmonad.
    destruct (Indexer.chunk_id E c); [|discriminate].
    apply IH in Hc. simpl in Hc. exact Hc.
Qed.

(** The index [build] leaves behind. *)
Lemma build_result (E : Backend) (chunks : list chunk)
      (s ix : Indexer.ChunkIndex) :
  Indexer.build E chunks s = (Ok tt, ix) ->
  exists texts embs,
    map_outcome Indexer.content_of chunks = Ok texts
    /\ encode E texts = Ok embs
    /\ nn_fit E embs = Ok tt
    /\ Indexer.model_name ix = Indexer.model_name s
    /\ Indexer.index ix = Some (Indexer.Fitted embs)
    /\ Indexer.embeddings ix = Some embs
    /\ (if bm25_available E
        then bm25_init E (map (tokenize E) texts) = Ok tt
             /\ Indexer._bm25 ix = Some (map (tokenize E) texts)
             /\ Indexer._bm25_corpus ix = map (tokenize E) texts
        else Indexer._bm25 ix = None /\ Indexer._bm25_corpus ix = []).
Proof.
  unfold Indexer.build. intro H.
  unfold bind at 1, lift at 1 in H.
  destruct (map_outcome Indexer.content_of chunks) as [texts|]; [|discriminate].
  unfold bind at 1, lift at 1 in H.
  destruct (encode E texts) as [embs|] eqn:En; [|discriminate].
  unfold bind at 1, modify at 1 in H.
  unfold bind at 1, modify at 1 in H.
  unfold bind at 1 in H.
  destruct (for_each chunks _ _) as [[[]|e] s1] eqn:L; [|discriminate].
  apply build_loop_keeps in L. simpl in L. destruct L as (K1 & K2).
  exists texts, embs. split; [reflexivity|]. split; [exact En|].
  unmonad. destruct (nn_fit E embs) as [[]|]; [|discriminate].
  split; [reflexivity|].
  destruct (bm25_available E).
  - destruct (bm25_init E (map (tokenize E) texts)) as [[]|]; [|discriminate].
    inversion H; subst. simpl. repeat split; auto.
  - inversion H; subst. simpl. repeat split; auto.
Qed.

(** The texts [load] gives to BM25 are those [build] indexed. *)
Lemma meta_texts (E : Backend) (chunks : list chunk) :
  forall (metas : list chunk) (texts : list string),
    Forall2 (fun ch m => exists i, Indexer.chunk_id E ch = Ok i
                                   /\ m = set ch "id" (VStr i))
            chunks metas ->
    map_outcome Indexer.content_of chunks = Ok texts ->
    map_outcome
      (fun c => as_str (dict_get_or String.eqb c "content" (VStr ""))) metas
    = Ok texts.
Proof.
  induction chunks as [|ch chunks IH]; intros metas texts F H.
  - inversion F; subst. simpl in H. inversion H; subst. reflexivity.
  - inversion F as [|? m ? ms (i & _ & Hm) F']; subst. simpl in H.
    destruct (Indexer.content_of ch) as [t|] eqn:C; [|discriminate].
    destruct (map_outcome Indexer.content_of chunks) as [ts|] eqn:Cs;
      [|discriminate].
    simpl in H. inversion H; subst. simpl.
    rewrite (IH ms ts F' eq_refl).
    unfold Indexer.content_of, get in C.
    unfold dict_get_or, set.
    rewrite (get_set_other _ string_eqb_iff) by discriminate.
    destruct (dict_get String.eqb ch "content") as [[]|]; try discriminate.
    inversion C; subst. reflexivity.
Qed.

(** What [load] makes of a snapshot written by [save]. *)
Lemma load_saved (E : Backend) (ix : Indexer.ChunkIndex) (dir : string)
      (w w' : World) (embs : list vec) (texts : list string) :
  Indexer.save ix dir w = (Ok tt, w') ->
  strip (Indexer.model_name ix) = Indexer.model_name ix ->
  Indexer.embeddings ix = Some embs ->
  Indexer.index ix = Some (Indexer.Fitted embs) ->
  nn_fit E embs = Ok tt ->
  map_outcome
    (fun c => as_str (dict_get_or String.eqb c "content" (VStr "")))
    (Indexer.meta ix) = Ok texts ->
  (if bm25_available E
   then bm25_init E (map (tokenize E) texts) = Ok tt
        /\ Indexer._bm25 ix = Some (map (tokenize E) texts)
        /\ Indexer._bm25_corpus ix = map (tokenize E) texts
   else Indexer._bm25 ix = None /\ Indexer._bm25_corpus ix = []) ->
  Indexer.load E w' dir = Ok ix.
Proof.
  intros S Hn Em Ix Fit MT Bm.
  destruct (save_reads _ _ _ S) as (kids & G & R1 & R2 & R3).
  unfold Indexer.load. rewrite G. simpl.
  rewrite R3, R2, R1, Em. simpl. rewrite Fit. simpl. rewrite Hn.
  destruct ix as [n i e m b bc]. simpl in *. subst.
  destruct (bm25_available E).
  - destruct Bm as (Bi & -> & ->). rewrite MT. simpl. rewrite Bi. reflexivity.
  - destruct Bm as (-> & ->). reflexivity.
Qed.



(** A rebuilt index is on disk when [_build_index_for_pdf] returns. *)
Lemma built_index_on_disk (E : Backend) (p u : string)
      (s s1 : Corpus.Manager) (index : Indexer.ChunkIndex) :
  Corpus._build_index_for_pdf E p u s = (Ok index, s1) ->
  Indexer.load E (Corpus.world s1) (Corpus._index_dir_for_uid u) = Ok index.
Proof.
  intro B. unfold Corpus._build_index_for_pdf in B.
  cbv beta iota delta [bind gets ret raise lift modify Corpus.emit
                       Corpus.in_world] in B.
  simpl in B.
  destruct (Corpus.parse_and_chunk _ p (Corpus.basename p)) as [chunks|];
    [|discriminate].
  destruct (Indexer.build E chunks (Indexer.new Indexer.default_model))
    as [[[]|] built] eqn:Bd; [|discriminate].
  simpl in B.
  destruct (Indexer.save built (Corpus._index_dir_for_uid u) _)
    as [[[]|] w1] eqn:Sv; [|discriminate].
  inversion B; subst. simpl.
  pose proof (build_meta _ _ _ Bd) as F.
  destruct (build_result _ _ _ Bd)
    as (texts & embs & T & _ & Fit & Nm & Ix & Em & Bm).
  pose proof (@meta_texts E chunks _ _ F T) as MT.
  apply (@load_saved E index _ _ _ embs texts Sv); auto.
  rewrite Nm. reflexivity.
Qed.

(** X6.  The snapshot agrees with the memory: when
    [_ensure_index_for_uid] returns an index for a uid that was not
    loaded before, whether it read the snapshot or rebuilt it from the
    document, [load] on the snapshot directory of that uid now gives
    exactly the index that was returned and stored in memory. *)
Theorem ensured_index_is_on_disk (E : Backend) (u p : string)
        (s s' : Corpus.Manager) (ix : Indexer.ChunkIndex) :
  dict_get String.eqb (Corpus._indices s) u = None ->
  Corpus._ensure_index_for_uid E u p s = (Ok ix, s') ->
  Indexer.load E (Corpus.world s') (Corpus._index_dir_for_uid u) = Ok ix
  /\ dict_get String.eqb (Corpus._indices s') u = Some ix.
Proof.
  intros G H. split.
  2:{ destruct (ensure_index_spec _ _ _ _ H) as (_ & _ & _ & I & _).
      now apply I. }
  unfold Corpus._ensure_index_for_uid in H.
  unfold bind at 1, gets at 1 in H. rewrite G in H.
  unfold bind at 1, gets at 1 in H. unfold bind at 1 in H.
  destruct (Indexer.load E (Corpus.world s) (Corpus._index_dir_for_uid u))
    as [index|e] eqn:Ld.
  - cbv beta iota delta [bind ret modify Corpus.emit] in H.
    inversion H; subst. simpl. exact Ld.
  - unfold bind at 1 in H. unfold Corpus.emit at 1, modify at 1 in H.
    destruct (Corpus._build_index_for_pdf E p u
                (Corpus.set_world
                   (log (Corpus.world s)
                      (EvLoad (Corpus._index_dir_for_uid u) false)) s))
      as [[index|e'] s1] eqn:B; [|discriminate].
    cbv beta iota delta [bind ret modify] in H. inversion H; subst.
    simpl. exact (built_index_on_disk _ _ _ _ B).
Qed.

Lemma ensured_index_is_on_disk_witness :
  Indexer.load Scenarios.strict
    (Corpus.world
       (snd (Corpus._ensure_index_for_uid Scenarios.strict "u1"
               "up/A.pdf" (Scenarios.started Scenarios.strict Scenarios.upload))))
    (Corpus._index_dir_for_uid "u1")
  = Ok Scenarios.first_index
  /\ dict_get String.eqb
       (Corpus._indices
          (snd (Corpus._ensure_index_for_uid Scenarios.strict "u1"
                  "up/A.pdf"
                  (Scenarios.started Scenarios.strict Scenarios.upload))))
       "u1"
     = Some Scenarios.first_index.
Proof.
  apply (@ensured_index_is_on_disk Scenarios.strict "u1" "up/A.pdf"
           (Scenarios.started Scenarios.strict Scenarios.upload));
    vm_compute; reflexivity.
Defined.

(** X7.  An index is loaded or built at most once per uid: after
    [_ensure_index_for_uid] has returned an index, a further call for the
    same uid returns that index, whatever path it is given, without
    touching the file system, the trace or the manager. *)
Theorem ensure_index_cached (E : Backend) (u p p' : string)
        (s s' : Corpus.Manager) (ix : Indexer.ChunkIndex) :
  Corpus._ensure_index_for_uid E u p s = (Ok ix, s') ->
  Corpus._ensure_index_for_uid E u p' s' = (Ok ix, s').
Proof.
  intro H.
  destruct (ensure_index_spec _ _ _ _ H) as (_ & _ & _ & I & _).
  specialize (I ix eq_refl).
  unfold Corpus._ensure_index_for_uid.
  unfold bind at 1, gets at 1. now rewrite I.
Qed.

Lemma ensure_index_cached_witness :
  Corpus._ensure_index_for_uid Scenarios.strict "u1" "elsewhere.pdf"
    (snd (Corpus._ensure_index_for_uid Scenarios.strict "u1" "up/A.pdf"
            (Scenarios.started Scenarios.strict Scenarios.upload)))
  = (Ok Scenarios.first_index,
     snd (Corpus._ensure_index_for_uid Scenarios.strict "u1" "up/A.pdf"
            (Scenarios.started Scenarios.strict Scenarios.upload))).
Proof.
  apply (@ensure_index_cached Scenarios.strict "u1" "up/A.pdf"
           "elsewhere.pdf"
           (Scenarios.started Scenarios.strict Scenarios.upload)).
  vm_compute. reflexivity.
Defined.

(** ** Removing a snapshot when nothing is protected *)











(** ** Reset *)






(** ** Ingestion, step by step *)

Lemma add_loop_skip (E : Backend) (src : string) (rest : list string)
      (acc : list (string * string)) (s : Corpus.Manager) :
  negb (isfile (Corpus.world s) src)
  || negb (Corpus.endswith (Corpus.lower src) ".pdf") = true ->
  Corpus.add_loop E (src :: rest) acc s = Corpus.add_loop E rest acc s.
Proof.
  intro H. cbn [Corpus.add_loop]. unfold bind at 1, gets at 1.
  now rewrite H.
Qed.

(** One turn of the loop of [add_pdfs] on an accepted path. *)
Lemma add_loop_round (E : Backend) (src : string) (rest : list string)
      (acc : list (string * string)) (s : Corpus.Manager) :
  negb (isfile (Corpus.world s) src)
  || negb (Corpus.endswith (Corpus.lower src) ".pdf") = false ->
  let filename := Corpus.basename src in
  let dst := join PDF_DIR filename in
  let s_a := if String.eqb src dst then s
             else snd (Corpus.copy2 src dst s) in
  Corpus.add_loop E (src :: rest) acc s
  = match Corpus._generate_uid_for_file E dst s_a with
    | (Raise e, s_b) => (Raise e, s_b)
    | (Ok u, s_b) =>
        match Corpus._ensure_index_for_uid E u dst
                (Corpus.set_file_map
                   (dict_set String.eqb (Corpus._file_map s_b) filename
                      (Entry (Some u) (Some dst))) s_b) with
        | (Raise e, s_d) => (Raise e, s_d)
        | (Ok _, s_d) => Corpus.add_loop E rest (acc ++ [(filename, u)]) s_d
        end
    end.
Proof.
  intros H filename dst s_a. cbn [Corpus.add_loop].
  unfold bind at 1, gets at 1. rewrite H.
  fold filename. fold dst.
  unfold bind at 1.
  assert (A : (if String.eqb src dst then ret tt else Corpus.copy2 src dst) s
              = (Ok tt, s_a)).
  { unfold s_a. destruct (String.eqb src dst); [reflexivity|].
    unfold Corpus.copy2, modify. reflexivity. }
  rewrite A. unfold bind at 1.
  destruct (Corpus._generate_uid_for_file E dst s_a) as [[u|e] s_b];
    [|reflexivity].
  unfold bind at 1, modify at 1. unfold bind at 1.
  destruct (Corpus._ensure_index_for_uid E u dst _) as [[ix|e] s_d];
    reflexivity.
Qed.

Lemma compute_id_length (parts : list string) :
  String.length (Utils.compute_id parts) = 16%nat.
Proof.
  unfold Utils.compute_id, Sha256.hexdigest. cbv zeta.
  generalize (Sha256.digest_state
                (Sha256.bytes_of_string (String.concat "" parts))).
  intro st.
  cbn [map String.concat Sha256.hex append Utils.prefix_str String.length].
  reflexivity.
Qed.

Lemma generated_uid_length (E : Backend) (p u : string)
      (s s' : Corpus.Manager) :
  Corpus._generate_uid_for_file E p s = (Ok u, s') ->
  String.length u = 16%nat.
Proof.
  intro H. apply generate_uid_spec in H. destruct H as (_ & _ & H).
  destruct (H u eq_refl) as (st & _ & ->). apply compute_id_length.
Qed.

(** A property that every step of an ingestion keeps is kept by the
    whole loop, whether it ends normally or not. *)
Lemma add_loop_stable (E : Backend) (P : Corpus.Manager -> Prop) :
  (forall s src, P s ->
     P (snd (Corpus.copy2 src (join PDF_DIR (Corpus.basename src)) s))) ->
  (forall s p, P s -> P (snd (Corpus._generate_uid_for_file E p s))) ->
  (forall s src u, P s -> String.length u = 16%nat ->
     P (Corpus.set_file_map
          (dict_set String.eqb (Corpus._file_map s) (Corpus.basename src)
             (Entry (Some u) (Some (join PDF_DIR (Corpus.basename src))))) s)) ->
  (forall s u p, P s -> P (snd (Corpus._ensure_index_for_uid E u p s))) ->
  forall paths acc s, P s -> P (snd (Corpus.add_loop E paths acc s)).
Proof.
  intros Hc Hu Hs He. induction paths as [|src rest IH]; intros acc s Ps.
  - exact Ps.
  - destruct (negb (isfile (Corpus.world s) src)
              || negb (Corpus.endswith (Corpus.lower src) ".pdf")) eqn:A.
    + rewrite (add_loop_skip _ _ _ _ _ A). now apply IH.
    + rewrite (add_loop_round _ _ _ _ _ A). cbv zeta.
      set (dst := join PDF_DIR (Corpus.basename src)).
      set (s_a := if String.eqb src dst then s
                  else snd (Corpus.copy2 src dst s)).
      assert (Pa : P s_a).
      { unfold s_a. destruct (String.eqb src dst); [exact Ps | now apply Hc]. }
      pose proof (Hu s_a dst Pa) as Pb.
      destruct (Corpus._generate_uid_for_file E dst s_a) as [[u|e] s_b] eqn:G;
        simpl in Pb; [|exact Pb].
      pose proof (He _ u dst (Hs s_b src u Pb (generated_uid_length _ _ _ G)))
        as Pd.
      destruct (Corpus._ensure_index_for_uid E u dst _) as [[ix|e] s_d];
        simpl in Pd; [|exact Pd].
      now apply IH.
Qed.

Lemma generate_uid_world (E : Backend) (p : string) (s : Corpus.Manager) :
  forall r s', Corpus._generate_uid_for_file E p s = (r, s') ->
    Corpus._indices s' = Corpus._indices s
    /\ Corpus._file_map s' = Corpus._file_map s
    /\ w_files (Corpus.world s') = w_files (Corpus.world s)
    /\ w_dirs (Corpus.world s') = w_dirs (Corpus.world s)
    /\ w_meta (Corpus.world s') = w_meta (Corpus.world s)
    /\ w_locked (Corpus.world s') = w_locked (Corpus.world s).
Proof.
  intros r s' H. unfold Corpus._generate_uid_for_file in H.
  unfold bind at 1, gets at 1 in H.
  destruct (dict_get String.eqb (w_files (Corpus.world s)) p) as [st|].
  - unmonad. inversion H; subst. simpl. repeat split.
  - unfold raise in H. inversion H; subst. repeat split.
Qed.

Lemma copy2_world (src dst : string) (s : Corpus.Manager) :
  Corpus._indices (snd (Corpus.copy2 src dst s)) = Corpus._indices s
  /\ Corpus._file_map (snd (Corpus.copy2 src dst s)) = Corpus._file_map s
  /\ w_meta (Corpus.world (snd (Corpus.copy2 src dst s)))
     = w_meta (Corpus.world s)
  /\ (forall p, isfile (Corpus.world s) p = true ->
                isfile (Corpus.world (snd (Corpus.copy2 src dst s))) p = true)
  /\ (isfile (Corpus.world s) src = true ->
      isfile (Corpus.world (snd (Corpus.copy2 src dst s))) dst = true).
Proof.
  unfold Corpus.copy2, modify, isfile, dict_mem. simpl.
  destruct (dict_get String.eqb (w_files (Corpus.world s)) src) as [f|] eqn:G;
    simpl; repeat split; auto; try discriminate.
  - intros p Hp.
    pose proof (@mem_set_mono pdf (w_files (Corpus.world s)) dst p f) as M.
    unfold dict_mem in M. now apply M.
  - intros _. now rewrite (get_set_same _ string_eqb_iff).
Qed.

(** *** The registry keeps complete entries *)








(** [CorpusManager()] is the start-up loop over the registry read from
    disk, followed by a save. *)
Lemma init_loop (E : Backend) (w : World) :
  exists s1,
    for_each (Spec.registry_of w) (Corpus.load_entry E)
      {| Corpus._indices := []; Corpus._file_map := Spec.registry_of w;
         Corpus.world := w |} = (Ok tt, s1)
    /\ Corpus._file_map (snd (Corpus.init E w)) = Corpus._file_map s1
    /\ Corpus._indices (snd (Corpus.init E w)) = Corpus._indices s1
    /\ w_dirs (Corpus.world (snd (Corpus.init E w)))
       = w_dirs (Corpus.world s1).
Proof.
  destruct (load_loop E (Spec.registry_of w)
              {| Corpus._indices := []; Corpus._file_map := Spec.registry_of w;
                 Corpus.world := w |}) as (s1 & evs & R & _).
  exists s1. split; [exact R|].
  unfold Corpus.init, Corpus._load_metadata, Corpus._load_existing_indices,
    Corpus._save_metadata.
  cbv beta iota delta [bind gets modify Corpus.emit].
  clear - R. unfold Spec.registry_of in R.
  simpl. destruct (w_meta w); simpl.
  - unfold Corpus.set_file_map at 1 2 3. simpl. rewrite R.
    repeat split; reflexivity.
  - unfold ret in R. inversion R; subst. repeat split; reflexivity.
Qed.




(** *** What an ingestion leaves *)


Lemma add_loop_files (E : Backend) (p : string) (paths : list string)
      (acc : list (string * string)) (s : Corpus.Manager) :
  isfile (Corpus.world s) p = true ->
  isfile (Corpus.world (snd (Corpus.add_loop E paths acc s))) p = true.
Proof.
  apply (@add_loop_stable E (fun s => isfile (Corpus.world s) p = true)).
  - intros s0 src C. now apply copy2_world.
  - intros s0 q C.
    destruct (Corpus._generate_uid_for_file E q s0) as [r s1] eqn:G.
    apply generate_uid_world in G. simpl. destruct G as (_ & _ & X & _).
    unfold isfile in *. now rewrite X.
  - intros s0 src u C _. exact C.
  - intros s0 u q C.
    destruct (Corpus._ensure_index_for_uid E u q s0) as [r s1] eqn:G.
    apply ensure_index_spec in G. destruct G as (seg & (_ & X & _) & _).
    simpl. unfold isfile in *. now rewrite X.
Qed.

Lemma add_loop_meta (E : Backend) (m : option registry) (paths : list string)
      (acc : list (string * string)) (s : Corpus.Manager) :
  w_meta (Corpus.world s) = m ->
  w_meta (Corpus.world (snd (Corpus.add_loop E paths acc s))) = m.
Proof.
  apply (@add_loop_stable E (fun s => w_meta (Corpus.world s) = m)).
  - intros s0 src C. now rewrite (proj1 (proj2 (proj2 (copy2_world src _ s0)))).
  - intros s0 q C.
    destruct (Corpus._generate_uid_for_file E q s0) as [r s1] eqn:G.
    apply generate_uid_world in G. simpl.
    destruct G as (_ & _ & _ & _ & X & _). now rewrite X.
  - intros s0 src u C _. exact C.
  - intros s0 u q C.
    destruct (Corpus._ensure_index_for_uid E u q s0) as [r s1] eqn:G.
    apply ensure_index_spec in G. destruct G as (seg & (_ & _ & X & _) & _).
    simpl. now rewrite X.
Qed.





(** X12.  When [add_pdfs] raises (a document cannot be read, parsed,
    indexed or written), the registry file is left as it was before the
    call: what the call had registered in memory is not persisted, and
    the indices loaded before the call stay loaded. *)
Theorem add_pdfs_failure_not_persisted (E : Backend) (paths : list string)
        (s s' : Corpus.Manager) (e : exn) :
  Corpus.add_pdfs E paths s = (Raise e, s') ->
  w_meta (Corpus.world s') = w_meta (Corpus.world s)
  /\ (forall p, isfile (Corpus.world s) p = true ->
                isfile (Corpus.world s') p = true)
  /\ (forall u ix, dict_get String.eqb (Corpus._indices s) u = Some ix ->
                   dict_get String.eqb (Corpus._indices s') u = Some ix).
Proof.
  intro H. pose proof (add_pdfs_keeps_indices _ _ _ H) as K.
  unfold Corpus.add_pdfs in H. unfold bind at 1 in H.
  destruct (Corpus.add_loop E paths [] s) as [[its|e'] s1] eqn:L.
  - unfold Corpus._save_metadata in H. unmonad. discriminate.
  - inversion H; subst.
    assert (S' : s' = snd (Corpus.add_loop E paths [] s)) by now rewrite L.
    split; [rewrite S'; now apply add_loop_meta|].
    split; [|exact K].
    intros p Hp. rewrite S'. now apply add_loop_files.
Qed.

Lemma add_pdfs_failure_not_persisted_witness :
  let s := Scenarios.started Scenarios.strict Laws.scanned in
  let s' := snd (Corpus.add_pdfs Scenarios.strict ["up/S.pdf"] s) in
  w_meta (Corpus.world s') = w_meta (Corpus.world s)
  /\ (forall p, isfile (Corpus.world s) p = true ->
                isfile (Corpus.world s') p = true)
  /\ (forall u ix, dict_get String.eqb (Corpus._indices s) u = Some ix ->
                   dict_get String.eqb (Corpus._indices s') u = Some ix).
Proof.
  intros s s'.
  apply (@add_pdfs_failure_not_persisted Scenarios.strict ["up/S.pdf"] s s'
           ValueError).
  vm_compute. reflexivity.
Defined.

(** ** The shape of ids *)

Lemma hexchar_is_hex (d : Z) : Laws.is_hex (Sha256.hexchar d) = true.
Proof.
  unfold Sha256.hexchar. generalize (Z.to_nat d). intro n.
  do 16 (destruct n as [|n]; [reflexivity|]).
  destruct n; reflexivity.
Qed.

(** X13.  [compute_id] returns 16 lower-case hexadecimal digits, for any
    parts; so does every chunk id stored by [build] and every uid. *)
Theorem compute_id_format (parts : list string) :
  String.length (Utils.compute_id parts) = 16%nat
  /\ Forall (fun c => Laws.is_hex c = true)
            (list_ascii_of_string (Utils.compute_id parts)).
Proof.
  unfold Utils.compute_id, Sha256.hexdigest. cbv zeta.
  generalize (Sha256.digest_state
                (Sha256.bytes_of_string (String.concat "" parts))).
  intro st.
  cbn [map String.concat Sha256.hex append Utils.prefix_str String.length
       list_ascii_of_string].
  split; [reflexivity|].
  repeat (constructor; [apply hexchar_is_hex|]). constructor.
Qed.

Lemma digits_numeral (d : Decimal.uint) :
  forallb Laws.numeral (list_ascii_of_string (NilEmpty.string_of_uint d))
  = true.
Proof.
  induction d; cbn [NilEmpty.string_of_uint list_ascii_of_string forallb];
    [reflexivity | rewrite IHd; reflexivity ..].
Qed.

Lemma string_of_uint_numeral (d : Decimal.uint) :
  forallb Laws.numeral (list_ascii_of_string (NilZero.string_of_uint d)) = true.
Proof.
  destruct d; [reflexivity | apply digits_numeral ..].
Qed.

Lemma str_of_Z_numeral (n : Z) :
  forallb Laws.numeral (list_ascii_of_string (str_of_Z n)) = true.
Proof.
  unfold str_of_Z, NilZero.string_of_int.
  destruct (Z.to_int n); cbn [list_ascii_of_string forallb];
    [|change (Laws.numeral "-") with true; cbn [andb]];
    apply string_of_uint_numeral.
Qed.

(** Where a numeral ends is decided by the first character that is not
    one. *)
Lemma numeral_prefix_unique (a b x y : string) :
  forallb Laws.numeral (list_ascii_of_string a) = true ->
  forallb Laws.numeral (list_ascii_of_string b) = true ->
  (exists c x', x = String c x' /\ Laws.numeral c = false) ->
  (exists c y', y = String c y' /\ Laws.numeral c = false) ->
  (a ++ x)%string = (b ++ y)%string ->
  a = b /\ x = y.
Proof.
  revert b. induction a as [|ca a IH]; intros [|cb b] Ha Hb Hx Hy H;
    simpl in *.
  - auto.
  - destruct Hx as (c & x' & -> & N). inversion H; subst.
    apply andb_true_iff in Hb. destruct Hb as [Hb _]. congruence.
  - destruct Hy as (c & y' & -> & N). inversion H; subst.
    apply andb_true_iff in Ha. destruct Ha as [Ha _]. congruence.
  - apply andb_true_iff in Ha, Hb. destruct Ha as [_ Ha], Hb as [_ Hb].
    inversion H; subst. destruct (IH b Ha Hb Hx Hy H2) as [-> ->]. auto.
Qed.

Lemma kind_prefix_unique (k k' c c' : string) :
  In k Laws.kinds -> In k' Laws.kinds ->
  (k ++ c)%string = (k' ++ c')%string -> k = k' /\ c = c'.
Proof.
  unfold Laws.kinds. simpl.
  intros [<-|[<-|[<-|[]]]] [<-|[<-|[<-|[]]]] H; simpl in H;
    try (inversion H; subst; auto; fail); discriminate.
Qed.

(** X14.  Within one document the hashed message determines the passage:
    for the passage types the parser makes (text, caption, table), two
    passages of the same document that differ in page, type or content
    have different messages, also when several of the three differ at
    once.  Ids of passages of one document therefore coincide only when
    SHA-256 collides on its first 16 digits. *)
Theorem message_determines_passage (d : string) (p p' : Z)
        (k k' c c' : string) :
  In k Laws.kinds -> In k' Laws.kinds ->
  (p <> p' \/ k <> k' \/ c <> c') ->
  Spec.message d p k c <> Spec.message d p' k' c'.
Proof.
  intros Hk Hk' Hne H. unfold Spec.message in H.
  apply append_inv_head in H.
  assert (Hd : forall k0 c0, In k0 Laws.kinds ->
            exists ch x', (k0 ++ c0)%string = String ch x'
                          /\ Laws.numeral ch = false).
  { unfold Laws.kinds. simpl.
    intros k0 c0 [<-|[<-|[<-|[]]]]; simpl; eexists; eexists;
      split; reflexivity. }
  destruct (numeral_prefix_unique _ _ (str_of_Z_numeral p)
              (str_of_Z_numeral p') (Hd k c Hk) (Hd k' c' Hk') H) as [P Q].
  apply str_of_Z_inj in P.
  destruct (@kind_prefix_unique k k' c c' Hk Hk' Q). tauto.
Qed.

Lemma message_determines_passage_witness :
  Spec.message "A.pdf" 1 "text" "2 pages"
  <> Spec.message "A.pdf" 12 "table" " pages".
Proof.
  apply (@message_determines_passage "A.pdf" 1 12 "text" "table"
           "2 pages" " pages").
  - left. reflexivity.
  - right. right. left. reflexivity.
  - left. lia.
Defined.

(** X15.  The parts of an id are hashed without separators, so across
    documents the id does not tell the paper from the page: whenever the
    paper id followed by the page number reads the same, two passages with
    the same type and content get the same id. *)
Theorem passage_id_ignores_boundary (d d' : string) (p p' : Z)
        (k c : string) :
  (d ++ str_of_Z p)%string = (d' ++ str_of_Z p')%string ->
  Spec.passage_id d p k c = Spec.passage_id d' p' k c.
Proof.
  intro H. unfold Spec.passage_id, Utils.compute_id. do 2 f_equal.
  cbn [String.concat].
  change (fun s => (d ++ "" ++ str_of_Z p ++ "" ++ k ++ "" ++ s)%string
                   = (d' ++ "" ++ str_of_Z p' ++ "" ++ k ++ "" ++ s)%string)
    with (fun s => (d ++ str_of_Z p ++ k ++ s)%string
                   = (d' ++ str_of_Z p' ++ k ++ s)%string).
  cbn [append].
  assert (A : forall x y z, (x ++ y ++ z)%string = ((x ++ y) ++ z)%string).
  { intros x y z. induction x; simpl; congruence. }
  rewrite (A d), (A d'). now rewrite H.
Qed.

Lemma passage_id_ignores_boundary_witness :
  Spec.passage_id "A1" 2 "text" "alpha" = Spec.passage_id "A" 12 "text" "alpha".
Proof.
  apply (@passage_id_ignores_boundary "A1" "A" 2 12 "text" "alpha").
  reflexivity.
Defined.

(** ** Reranking twice *)

Lemma dict_set_twice (V : Type) (d : dict string V) (k : string) (v v' : V) :
  dict_set String.eqb (dict_set String.eqb d k v) k v'
  = dict_set String.eqb d k v'.
Proof.
  induction d as [|[k0 v0] d IH]; simpl.
  - now rewrite String.eqb_refl.
  - destruct (String.eqb k0 k) eqn:K; simpl; rewrite K; [reflexivity|].
    now rewrite IH.
Qed.

Lemma scored_twice (E : Backend) (q : string) (c : chunk) :
  Spec.scored E q (Spec.scored E q c) = Spec.scored E q c.
Proof.
  unfold Spec.scored at 1.
  assert (C : dict_get_or String.eqb (Spec.scored E q c) "content" (VStr "")
              = dict_get_or String.eqb c "content" (VStr "")).
  { unfold dict_get_or. pose proof (@scored_fields E q c "content") as F.
    unfold get in F. rewrite F by discriminate. reflexivity. }
  rewrite C. unfold Spec.scored, set. apply dict_set_twice.
Qed.

Lemma sorted_desc_fixed (A : Type) (gtb : A -> A -> bool) (l : list A) :
  StronglySorted (fun a b => gtb b a = false) l -> sorted_desc gtb l = l.
Proof.
  induction 1 as [|x l S IH F]; simpl; [reflexivity|].
  rewrite IH. destruct l as [|y l]; simpl; [reflexivity|].
  inversion F; subst. now rewrite H1.
Qed.

Lemma in_firstn (A : Type) (n : nat) (l : list A) (x : A) :
  In x (firstn n l) -> In x l.
Proof.
  intro H. rewrite <- (firstn_skipn n l). apply in_or_app. now left.
Qed.

Lemma strongly_sorted_firstn (A : Type) (R : A -> A -> Prop) (n : nat)
      (l : list A) :
  StronglySorted R l -> StronglySorted R (firstn n l).
Proof.
  intro S. revert n. induction S as [|x l S IH F]; intros [|n]; simpl;
    try constructor; auto.
  apply Forall_forall. intros y Hy. rewrite Forall_forall in F.
  apply F. eapply in_firstn. exact Hy.
Qed.

(** X16.  Reranking is idempotent: giving the result of [rerank] back to
    [rerank] with the same query and the same [top_k >= 0] returns it
    unchanged, in the same order and with the same relevance values. *)
Theorem rerank_idempotent (E : Backend) (q : string) (cands : list chunk)
        (top_k : Z) :
  0 <= top_k ->
  snd (Rerank.rerank E q (snd (Rerank.rerank E q cands top_k)) top_k)
  = snd (Rerank.rerank E q cands top_k).
Proof.
  intro Hk.
  assert (Sl : forall l : list chunk,
             slice_to top_k l = firstn (Z.to_nat top_k) l).
  { intro l. unfold slice_to. destruct (0 <=? top_k) eqn:L; [reflexivity|].
    apply Z.leb_gt in L. lia. }
  destruct cands as [|c cs]; [reflexivity|].
  set (ranked := sorted_desc Rerank.key_gtb (map (Spec.scored E q) (c :: cs))).
  assert (R1 : snd (Rerank.rerank E q (c :: cs) top_k)
               = firstn (Z.to_nat top_k) ranked).
  { unfold Rerank.rerank. cbn [snd]. now rewrite attach_scored, Sl. }
  rewrite R1.
  assert (St : StronglySorted (fun a b => Rerank.key_gtb b a = false)
                 (firstn (Z.to_nat top_k) ranked)).
  { apply strongly_sorted_firstn.
    apply (@sorted_desc_sorted _ Rerank.key_gtb key_gtb_asym key_ge_trans). }
  assert (Sc : map (Spec.scored E q) (firstn (Z.to_nat top_k) ranked)
               = firstn (Z.to_nat top_k) ranked).
  { rewrite <- (map_id (firstn (Z.to_nat top_k) ranked)) at 2.
    apply map_ext_in. intros a Ha. apply in_firstn in Ha.
    apply (Permutation_in _ (Permutation_sym (sorted_desc_perm _ _))) in Ha.
    apply in_map_iff in Ha. destruct Ha as (c0 & <- & _).
    apply scored_twice. }
  destruct (firstn (Z.to_nat top_k) ranked) as [|r rs] eqn:F; [reflexivity|].
  unfold Rerank.rerank. cbn [snd]. rewrite attach_scored, Sc, Sl.
  rewrite (sorted_desc_fixed _ St).
  rewrite <- F. rewrite firstn_firstn. now rewrite Nat.min_id.
Qed.

Lemma rerank_idempotent_witness :
  snd (Rerank.rerank Scenarios.strict "q"
         (snd (Rerank.rerank Scenarios.strict "q" Scenarios.two_chunks 1)) 1)
  = snd (Rerank.rerank Scenarios.strict "q" Scenarios.two_chunks 1).
Proof.
  apply (@rerank_idempotent Scenarios.strict "q" Scenarios.two_chunks 1).
  lia.
Defined.

(** ** Listing the documents *)

Lemma insert_asc_perm (x : string) (l : list string) :
  Permutation (x :: l) (Admin.insert_asc x l).
Proof.
  induction l as [|y l IH]; simpl; auto.
  destruct (String.leb x y); auto.
  eapply perm_trans; [apply perm_swap|]. now constructor.
Qed.

Lemma sorted_asc_perm (l : list string) : Permutation l (Admin.sorted_asc l).
Proof.
  induction l as [|x l IH]; simpl; auto.
  eapply perm_trans; [|apply insert_asc_perm]. now constructor.
Qed.

Lemma insert_asc_sorted (x : string) (l : list string) :
  Sorted (fun a b => String.leb a b = true) l ->
  Sorted (fun a b => String.leb a b = true) (Admin.insert_asc x l).
Proof.
  induction 1 as [|y l S IH H]; simpl.
  - repeat constructor.
  - destruct (String.leb x y) eqn:L.
    + repeat constructor; auto.
    + constructor; [exact IH|].
      assert (Lyx : String.leb y x = true).
      { destruct (String.leb_total x y); congruence. }
      destruct l as [|z l]; simpl.
      * now constructor.
      * inversion H; subst. destruct (String.leb x z); now constructor.
Qed.

Lemma sorted_asc_sorted (l : list string) :
  Sorted (fun a b => String.leb a b = true) (Admin.sorted_asc l).
Proof.
  induction l; simpl; [constructor | now apply insert_asc_sorted].
Qed.

(** X17.  [list_pdfs] names exactly the files of the registry, in
    ascending order of their names. *)
Theorem list_pdfs_sorted_registry (s : Corpus.Manager) :
  Permutation (dict_keys (Corpus._file_map s)) (Admin.list_pdfs s)
  /\ Sorted (fun a b => String.leb a b = true) (Admin.list_pdfs s)
  /\ forall f, In f (Admin.list_pdfs s)
               <-> dict_mem String.eqb (Corpus._file_map s) f = true.
Proof.
  unfold Admin.list_pdfs. split; [apply sorted_asc_perm|].
  split; [apply sorted_asc_sorted|].
  intro f. rewrite (mem_true_in _ string_eqb_iff). split; intro H.
  - eapply Permutation_in; [apply Permutation_sym, sorted_asc_perm | exact H].
  - eapply Permutation_in; [apply sorted_asc_perm | exact H].
Qed.

(** What a completed deletion leaves. *)
Lemma delete_pdf_deleted (f : string) (s s' : Corpus.Manager) :
  Corpus.delete_pdf f s = (Ok Corpus.Deleted, s') ->
  Corpus._file_map s' = dict_del String.eqb (Corpus._file_map s) f
  /\ exists u, Corpus._indices s' = dict_del String.eqb (Corpus._indices s) u.
Proof.
  intro H.
  destruct (dict_get String.eqb (Corpus._file_map s) f) as [[[u|] p]|] eqn:G.
  - rewrite (delete_pdf_run _ _ G) in H.
    destruct (Spec.source_removal_fails _ _); [discriminate|].
    assert (K : forall s0,
               Corpus._file_map s0 = Corpus._file_map s ->
               Corpus._indices s0 = Corpus._indices s ->
               Corpus.forget f u s0 = (Ok Corpus.Deleted, s') ->
               Corpus._file_map s'
               = dict_del String.eqb (Corpus._file_map s) f
               /\ exists u, Corpus._indices s'
                            = dict_del String.eqb (Corpus._indices s) u).
    { intros s0 F0 I0 R.
      destruct (forget_spec f u s0) as (s1 & R1 & I & M & _).
      rewrite R1 in R. inversion R; subst s1.
      rewrite M, F0. split; [reflexivity|]. exists u. now rewrite I, I0. }
    destruct p as [p|]; [|now apply (K s)].
    destruct (Corpus.truthy (Some p) && exists_ (Corpus.world s) p);
      [|now apply (K s)].
    eapply K; [| |exact H]; reflexivity.
  - exfalso. unfold Corpus.delete_pdf in H.
    unfold bind at 1, gets at 1 in H. rewrite G in H.
    destruct p as [p|]; [|unfold ret in H; discriminate].
    cbv beta iota delta [bind gets pdf_path uid] in H.
    destruct (Corpus.truthy (Some p) && exists_ (Corpus.world s) p).
    + unfold try_except, bind, Corpus.in_world, ret in H.
      destruct (remove (Corpus.world s) p) as [[[]|] w1];
        unfold raise in H; simpl in H; discriminate.
    + unfold ret, raise in H. simpl in H. discriminate.
  - exfalso. unfold Corpus.delete_pdf in H.
    unfold bind at 1, gets at 1 in H. rewrite G in H.
    unfold ret in H. discriminate.
Qed.

(** X18.  After a completed deletion the file is not listed any more,
    and the listing of every other file is as before. *)
Theorem deleted_file_not_listed (f : string) (s s' : Corpus.Manager) :
  Corpus.delete_pdf f s = (Ok Corpus.Deleted, s') ->
  ~ In f (Admin.list_pdfs s')
  /\ forall g, g <> f ->
       (In g (Admin.list_pdfs s') <-> In g (Admin.list_pdfs s)).
Proof.
  intro H. apply delete_pdf_deleted in H. destruct H as [M _].
  assert (L : forall t g,
             In g (Admin.list_pdfs t) <-> In g (dict_keys (Corpus._file_map t))).
  { intros t g. unfold Admin.list_pdfs. split; intro K.
    - eapply Permutation_in; [apply Permutation_sym, sorted_asc_perm | exact K].
    - eapply Permutation_in; [apply sorted_asc_perm | exact K]. }
  split.
  - rewrite L, M. rewrite (keys_del _ string_eqb_iff). tauto.
  - intros g N. rewrite !L, M. rewrite (keys_del _ string_eqb_iff). tauto.
Qed.

Lemma deleted_file_not_listed_witness :
  let s' := snd (Corpus.delete_pdf "A.pdf" Scenarios.ingested) in
  ~ In "A.pdf" (Admin.list_pdfs s')
  /\ forall g, g <> "A.pdf" ->
       (In g (Admin.list_pdfs s') <-> In g (Admin.list_pdfs Scenarios.ingested)).
Proof.
  intro s'.
  apply (@deleted_file_not_listed "A.pdf" Scenarios.ingested s').
  vm_compute. reflexivity.
Defined.

(** ** What [retrieve] returns, for any result lists *)

Lemma set_keys_in (d : dict nat score) (k : nat) (v : score) (i : nat) :
  In i (dict_keys (dict_set Nat.eqb d k v)) <-> In i (dict_keys d) \/ i = k.
Proof.
  induction d as [|[k' v'] d IH]; simpl.
  - intuition.
  - destruct (Nat.eqb k' k) eqn:E; simpl.
    + apply Nat.eqb_eq in E. subst. intuition.
    + rewrite IH. intuition.
Qed.

Lemma set_keys_nodup (d : dict nat score) (k : nat) (v : score) :
  NoDup (dict_keys d) -> NoDup (dict_keys (dict_set Nat.eqb d k v)).
Proof.
  induction d as [|[k' v'] d IH]; simpl; intro N.
  - repeat constructor. intros [].
  - inversion N as [|? ? Hn N']; subst.
    destruct (Nat.eqb k' k) eqn:E; simpl.
    + now constructor.
    + constructor; [|now apply IH].
      rewrite set_keys_in. intros [H|H]; [contradiction|].
      subst. rewrite Nat.eqb_refl in E. discriminate.
Qed.

(** Keys after a loop of assignments [d[i] = ...], whatever the rows. *)
Lemma fold_set_rows (val : dict nat score -> nat * score -> score)
      (L : list (nat * score)) :
  forall d,
    NoDup (dict_keys d) ->
    NoDup (dict_keys
             (fold_left (fun d is_ => dict_set Nat.eqb d (fst is_) (val d is_))
                        L d))
    /\ forall i,
         In i (dict_keys
                 (fold_left
                    (fun d is_ => dict_set Nat.eqb d (fst is_) (val d is_))
                    L d))
         <-> In i (dict_keys d) \/ In i (map fst L).
Proof.
  induction L as [|[j x] L IH]; intros d N; simpl.
  - split; [exact N | intuition].
  - destruct (IH (dict_set Nat.eqb d j (val d (j, x)))
                 (set_keys_nodup _ _ _ N)) as [N' K].
    split; [exact N'|]. intro i. rewrite K, set_keys_in. intuition.
Qed.

Lemma nodup_firstn (A : Type) (n : nat) (l : list A) :
  NoDup l -> NoDup (firstn n l).
Proof.
  intro N. rewrite <- (firstn_skipn n l) in N.
  now apply NoDup_app_remove_r in N.
Qed.

Lemma slice_to_firstn (A : Type) (k : Z) (l : list A) :
  0 <= k -> slice_to k l = firstn (Z.to_nat k) l.
Proof.
  intro H. unfold slice_to. destruct (0 <=? k) eqn:L; [reflexivity|].
  apply Z.leb_gt in L. lia.
Qed.

Lemma fuse_rows (dense bm25 : list (nat * score)) (k : Z) (alpha : score) :
  0 <= k ->
  (List.length (Indexer.fuse dense bm25 k alpha) <= Z.to_nat k)%nat
  /\ NoDup (map fst (Indexer.fuse dense bm25 k alpha))
  /\ forall i, In i (map fst (Indexer.fuse dense bm25 k alpha)) ->
               In i (map fst dense) \/ In i (map fst bm25).
Proof.
  intro Hk.
  pose (add := fun (c : score) (d : dict nat score) (is_ : nat * score) =>
                 dict_set Nat.eqb d (fst is_)
                   (dict_get_or Nat.eqb d (fst is_) 0 + c * snd is_)%Qc).
  pose (bm_max := Spec.top bm25).
  pose (s1 := fold_left (add alpha) dense []).
  pose (bm_norm :=
          if score_ltb 0%Qc bm_max
          then fold_left (fun d is_ => dict_set Nat.eqb d (fst is_)
                                         (snd is_ / bm_max)%Qc) bm25 []
          else fold_left (fun d (is_ : nat * score) =>
                            dict_set Nat.eqb d (fst is_) 0%Qc) bm25 []).
  pose (s2 := fold_left (add (1 - alpha)%Qc) bm_norm s1).
  change (Indexer.fuse dense bm25 k alpha)
    with (slice_to k (sorted_desc Spec.higher s2)).
  assert (Kn : forall i, In i (dict_keys bm_norm) -> In i (map fst bm25)).
  { intros i Hi. unfold bm_norm in Hi.
    destruct (score_ltb 0%Qc bm_max).
    - apply (fold_set_rows (fun _ is_ => (snd is_ / bm_max)%Qc) bm25 [])
        in Hi; [|constructor]. destruct Hi as [[]|Hi]. exact Hi.
    - apply (fold_set_rows (fun _ _ => 0%Qc) bm25 []) in Hi; [|constructor].
      destruct Hi as [[]|Hi]. exact Hi. }
  destruct (fold_set_rows
              (fun d is_ => (dict_get_or Nat.eqb d (fst is_) 0 + alpha * snd is_)%Qc)
              dense [] (NoDup_nil _)) as [N1 K1].
  change (fold_left _ dense []) with s1 in N1, K1.
  destruct (fold_set_rows
              (fun d is_ => (dict_get_or Nat.eqb d (fst is_) 0
                             + (1 - alpha) * snd is_)%Qc)
              bm_norm s1 N1) as [N2 K2].
  change (fold_left _ bm_norm s1) with s2 in N2, K2.
  rewrite slice_to_firstn by assumption.
  set (ranked := sorted_desc Spec.higher s2).
  assert (P : Permutation (map fst s2) (map fst ranked))
    by (apply Permutation_map, sorted_desc_perm).
  split; [apply firstn_le_length|]. split.
  - rewrite <- firstn_map. apply nodup_firstn.
    eapply Permutation_NoDup; [exact P | exact N2].
  - intros i Hi. rewrite <- firstn_map in Hi. apply in_firstn in Hi.
    apply (Permutation_in _ (Permutation_sym P)) in Hi.
    apply K2 in Hi. destruct Hi as [Hi|Hi].
    + apply K1 in Hi. destruct Hi as [[]|Hi]. now left.
    + right. now apply Kn.
Qed.

(** X19.  For any answers of the two searches (also with repeated rows)
    and any [alpha], [retrieve] with [top_k >= 0] returns at most [top_k]
    rows, each of them found by the dense or by the sparse search; when
    the sparse search found something, no row is returned twice. *)
Theorem retrieve_rows (E : Backend) (self : Indexer.ChunkIndex)
        (text : string) (k : Z) (alpha : score)
        (res : list (nat * score)) :
  0 <= k ->
  Indexer.retrieve E self text k alpha = Ok res ->
  exists dense bm25,
    Indexer.query_dense E self text k = Ok dense
    /\ Indexer.query_bm25 E self text k = Ok bm25
    /\ (List.length res <= Z.to_nat k)%nat
    /\ (forall i, In i (map fst res) ->
                  In i (map fst dense) \/ In i (map fst bm25))
    /\ (bm25 <> [] -> NoDup (map fst res))
    /\ (bm25 = [] -> res = firstn (Z.to_nat k) dense).
Proof.
  intros Hk H. unfold Indexer.retrieve in H.
  destruct (Indexer.query_dense E self text k) as [dense|] eqn:D;
    [|discriminate].
  destruct (Indexer.query_bm25 E self text k) as [bm25|] eqn:B;
    [|discriminate].
  simpl in H. exists dense, bm25. split; [reflexivity|]. split; [reflexivity|].
  destruct bm25 as [|b bm25]; inversion H; subst.
  - rewrite slice_to_firstn by assumption.
    split; [apply firstn_le_length|]. split; [|split; [congruence|reflexivity]].
    intros i Hi. left. rewrite <- firstn_map in Hi. now apply in_firstn in Hi.
  - destruct (fuse_rows dense (b :: bm25) alpha Hk) as (L & N & I).
    split; [exact L|]. split; [exact I|]. split; [auto | discriminate].
Qed.

Lemma retrieve_rows_witness :
  exists dense bm25,
    Indexer.query_dense Scenarios.tied Scenarios.two_rows "q" 2 = Ok dense
    /\ Indexer.query_bm25 Scenarios.tied Scenarios.two_rows "q" 2 = Ok bm25
    /\ (List.length
          (Scenarios.rows_of
             (Indexer.retrieve Scenarios.tied Scenarios.two_rows "q" 2
                Indexer.default_alpha)) <= Z.to_nat 2)%nat
    /\ (forall i,
          In i (map fst
                  (Scenarios.rows_of
                     (Indexer.retrieve Scenarios.tied Scenarios.two_rows "q" 2
                        Indexer.default_alpha))) ->
          In i (map fst dense) \/ In i (map fst bm25))
    /\ (bm25 <> [] ->
        NoDup (map fst
                 (Scenarios.rows_of
                    (Indexer.retrieve Scenarios.tied Scenarios.two_rows "q" 2
                       Indexer.default_alpha))))
    /\ (bm25 = [] ->
        Scenarios.rows_of
          (Indexer.retrieve Scenarios.tied Scenarios.two_rows "q" 2
             Indexer.default_alpha)
        = firstn (Z.to_nat 2) dense).
Proof.
  apply (@retrieve_rows Scenarios.tied Scenarios.two_rows "q" 2
           Indexer.default_alpha).
  - lia.
  - vm_compute. reflexivity.
Defined.

(** X20.  Without BM25 retrieval is dense only: on an index built, or
    loaded from a snapshot, while [rank_bm25] is not installed,
    [retrieve] returns the first [top_k] dense neighbours in their order
    with their similarities, and [alpha] has no effect. *)
Theorem retrieve_without_bm25 (E : Backend) (ix : Indexer.ChunkIndex)
        (text : string) (k : Z) (alpha : score) :
  bm25_available E = false ->
  ((exists chunks s0, Indexer.build E chunks s0 = (Ok tt, ix))
   \/ (exists w dir, Indexer.load E w dir = Ok ix)) ->
  Indexer.query_bm25 E ix text k = Ok []
  /\ Indexer.retrieve E ix text k alpha
     = match Indexer.query_dense E ix text k with
       | Ok dense => Ok (slice_to k dense)
       | Raise e => Raise e
       end.
Proof.
  intros Hb Hix.
  assert (N : Indexer._bm25 ix = None).
  { destruct Hix as [(chunks & s0 & B)|(w & dir & L)].
    - destruct (build_result _ _ _ B) as (texts & embs & _ & _ & _ & _ & _ & _ & Bm).
      rewrite Hb in Bm. now destruct Bm.
    - unfold Indexer.load in L.
      destruct (dict_get String.eqb (w_dirs w) dir); [|discriminate].
      simpl in L.
      destruct (Indexer.read_file l "model_name.txt") as [[]|]; try discriminate.
      simpl in L.
      destruct (Indexer.read_file l "meta.pkl") as [[]|]; try discriminate.
      simpl in L.
      destruct (Indexer.read_file l "embeddings.npy") as [[]|]; try discriminate.
      simpl in L. destruct (nn_fit E e); [|discriminate]. simpl in L.
      rewrite Hb in L. inversion L; subst. reflexivity. }
  assert (Q : Indexer.query_bm25 E ix text k = Ok []).
  { unfold Indexer.query_bm25. now rewrite N. }
  split; [exact Q|]. unfold Indexer.retrieve. rewrite Q.
  destruct (Indexer.query_dense E ix text k); reflexivity.
Qed.

Lemma retrieve_without_bm25_witness :
  Indexer.query_bm25 Laws.dense_only Laws.dense_rows "q" 1 = Ok []
  /\ Indexer.retrieve Laws.dense_only Laws.dense_rows "q" 1
       Indexer.default_alpha
     = match Indexer.query_dense Laws.dense_only Laws.dense_rows "q" 1 with
       | Ok dense => Ok (slice_to 1 dense)
       | Raise e => Raise e
       end.
Proof.
  apply (@retrieve_without_bm25 Laws.dense_only Laws.dense_rows "q" 1
           Indexer.default_alpha).
  - reflexivity.
  - left. exists Scenarios.two_chunks, (Indexer.new Indexer.default_model).
    vm_compute. reflexivity.
Defined.

(** ** The sparse search *)

Lemma map_outcome_ok (A B : Type) (f : A -> outcome B) (g : A -> B)
      (l : list A) :
  (forall x, In x l -> f x = Ok (g x)) -> map_outcome f l = Ok (map g l).
Proof.
  induction l as [|x l IH]; intro H; simpl; [reflexivity|].
  rewrite (H x) by now left. simpl. rewrite IH; [reflexivity|].
  intros y Hy. apply H. now right.
Qed.

Lemma strongly_sorted_app (A : Type) (R : A -> A -> Prop) (l1 l2 : list A) :
  StronglySorted R (l1 ++ l2) ->
  forall a b, In a l1 -> In b l2 -> R a b.
Proof.
  induction l1 as [|x l1 IH]; simpl; intros S a b Ha Hb; [contradiction|].
  inversion S as [|? ? S' F]; subst. destruct Ha as [<-|Ha].
  - rewrite Forall_forall in F. apply F. apply in_or_app. now right.
  - now apply IH.
Qed.

Lemma strongly_sorted_snoc (A : Type) (R : A -> A -> Prop) (l : list A)
      (x : A) :
  StronglySorted R l -> Forall (fun y => R y x) l ->
  StronglySorted R (l ++ [x]).
Proof.
  induction 1 as [|y l S IH F]; intro H; simpl.
  - repeat constructor.
  - inversion H; subst. constructor; [now apply IH|].
    apply Forall_app. split; [exact F | now constructor].
Qed.

Lemma strongly_sorted_rev (A : Type) (R : A -> A -> Prop) (l : list A) :
  StronglySorted R l -> StronglySorted (fun a b => R b a) (rev l).
Proof.
  induction 1 as [|x l S IH F]; simpl; [constructor|].
  apply strongly_sorted_snoc; [exact IH|].
  apply Forall_forall. intros y Hy. apply in_rev in Hy.
  rewrite Forall_forall in F. now apply F.
Qed.

Lemma strongly_sorted_map (A B : Type) (R : B -> B -> Prop) (f : A -> B)
      (l : list A) :
  StronglySorted (fun a b => R (f a) (f b)) l -> StronglySorted R (map f l).
Proof.
  induction 1 as [|x l S IH F]; simpl; constructor; auto.
  apply Forall_forall. intros y Hy. apply in_map_iff in Hy.
  destruct Hy as (z & <- & Hz). rewrite Forall_forall in F. now apply F.
Qed.

(** X21.  When [np.argsort] keeps its contract on the BM25 scores of a
    query (a permutation of the rows, ascending), [query_bm25] with
    [top_k >= 0] raises nothing and returns [min(top_k, rows)] distinct
    rows, each with its own score, best first; no row left out has a
    higher score than a returned one. *)
Theorem sparse_search_best_first (E : Backend) (self : Indexer.ChunkIndex)
        (corpus : list (list string)) (text : string) (k : Z) :
  Indexer._bm25 self = Some corpus ->
  0 <= k ->
  Laws.ascending (bm25_scores E corpus (tokenize E text))
                 (argsort E (bm25_scores E corpus (tokenize E text))) ->
  exists res,
    Indexer.query_bm25 E self text k = Ok res
    /\ List.length res
       = Nat.min (Z.to_nat k)
                 (List.length (bm25_scores E corpus (tokenize E text)))
    /\ NoDup (map fst res)
    /\ (forall i s, In (i, s) res ->
          nth_error (bm25_scores E corpus (tokenize E text)) i = Some s)
    /\ StronglySorted (fun a b => (snd b <= snd a)%Qc) res
    /\ (forall j i s,
          (j < List.length (bm25_scores E corpus (tokenize E text)))%nat ->
          ~ In j (map fst res) -> In (i, s) res ->
          (nth j (bm25_scores E corpus (tokenize E text)) 0 <= s)%Qc).
Proof.
  intros Hb Hk. set (scores := bm25_scores E corpus (tokenize E text)).
  intros [P S].
  set (A := argsort E scores) in *.
  set (n := List.length scores) in *.
  unfold Indexer.query_bm25. rewrite Hb. cbv zeta. fold scores. fold A.
  assert (Hm : 0 <= Z.min k (len scores)) by (unfold len; lia).
  rewrite (slice_to_firstn _ Hm).
  set (m := Z.to_nat (Z.min k (len scores))).
  assert (Em : m = Nat.min (Z.to_nat k) n) by (unfold m, len, n; lia).
  set (idxs := firstn m (rev A)).
  assert (Pr : Permutation (rev A) (seq 0 n)).
  { eapply perm_trans; [apply Permutation_sym, Permutation_rev | exact P]. }
  assert (Lt : forall i, In i (rev A) -> (i < n)%nat).
  { intros i Hi. apply (Permutation_in _ Pr) in Hi. apply in_seq in Hi. lia. }
  assert (Nd : NoDup (rev A)).
  { eapply Permutation_NoDup; [apply Permutation_sym, Pr | apply seq_NoDup]. }
  assert (Sr : StronglySorted
                 (fun i j => (nth j scores 0 <= nth i scores 0)%Qc) (rev A))
    by now apply strongly_sorted_rev.
  assert (Ok_ : map_outcome
                  (fun i => match nth_error scores i with
                            | Some s => Ok (i, s)
                            | None => Raise IndexError
                            end) idxs
                = Ok (map (fun i => (i, nth i scores 0%Qc)) idxs)).
  { apply map_outcome_ok. intros i Hi. apply in_firstn in Hi.
    apply Lt in Hi. fold n in Hi.
    rewrite (nth_error_nth' scores 0%Qc) by exact Hi. reflexivity. }
  rewrite Ok_. eexists. split; [reflexivity|].
  assert (Mf : map fst (map (fun i => (i, nth i scores 0%Qc)) idxs) = idxs).
  { rewrite map_map. simpl. apply map_id. }
  split; [|split; [|split; [|split]]].
  - rewrite length_map. unfold idxs. rewrite length_firstn, length_rev.
    rewrite (Permutation_length P), length_seq. lia.
  - rewrite Mf. now apply nodup_firstn.
  - intros i s Hi. apply in_map_iff in Hi. destruct Hi as (j & Hj & Hi).
    inversion Hj; subst. apply in_firstn in Hi. apply Lt in Hi.
    now apply nth_error_nth'.
  - apply strongly_sorted_map. simpl. now apply strongly_sorted_firstn.
  - intros j i s Hj Nj Hi. rewrite Mf in Nj.
    apply in_map_iff in Hi. destruct Hi as (i0 & Hi0 & Hi).
    inversion Hi0; subst.
    assert (Hjr : In j (rev A)).
    { apply (Permutation_in _ (Permutation_sym Pr)). apply in_seq. lia. }
    rewrite <- (firstn_skipn m (rev A)) in Hjr, Sr.
    apply in_app_or in Hjr. destruct Hjr as [Hjr|Hjr]; [contradiction|].
    exact (@strongly_sorted_app _ _ _ _ Sr _ _ Hi Hjr).
Qed.

Lemma sparse_search_best_first_witness :
  exists res,
    Indexer.query_bm25 Scenarios.tied Scenarios.two_rows "q" 1 = Ok res
    /\ List.length res
       = Nat.min (Z.to_nat 1)
           (List.length (bm25_scores Scenarios.tied
                           [["alpha beta"]; ["gamma"]]
                           (tokenize Scenarios.tied "q")))
    /\ NoDup (map fst res)
    /\ (forall i s, In (i, s) res ->
          nth_error (bm25_scores Scenarios.tied [["alpha beta"]; ["gamma"]]
                       (tokenize Scenarios.tied "q")) i = Some s)
    /\ StronglySorted (fun a b => (snd b <= snd a)%Qc) res
    /\ (forall j i s,
          (j < List.length (bm25_scores Scenarios.tied
                              [["alpha beta"]; ["gamma"]]
                              (tokenize Scenarios.tied "q")))%nat ->
          ~ In j (map fst res) -> In (i, s) res ->
          (nth j (bm25_scores Scenarios.tied [["alpha beta"]; ["gamma"]]
                    (tokenize Scenarios.tied "q")) 0 <= s)%Qc).
Proof.
  apply (@sparse_search_best_first Scenarios.tied Scenarios.two_rows
           [["alpha beta"]; ["gamma"]] "q" 1).
  - reflexivity.
  - lia.
  - split.
    + vm_compute. apply perm_swap.
    + repeat constructor. vm_compute. discriminate.
Defined.

(** ** The prompt of the generator *)

(** X22.  The generator sees at most four passages: with no context
    [answer] returns "Insufficient evidence." without calling the model,
    and otherwise the answer is the one for the first four contexts and
    the first four ids; whatever follows them has no influence. *)
Theorem answer_reads_four_contexts (generate : string -> Z -> string)
        (style query : string) (contexts : list string)
        (ids : option (list string)) (max_new_tokens : Z) :
  Qa.answer generate style query [] ids max_new_tokens
  = "Insufficient evidence."
  /\ Qa.answer generate style query contexts ids max_new_tokens
     = Qa.answer generate style query (firstn 4 contexts)
         (option_map (firstn 4) ids) max_new_tokens.
Proof.
  split; [reflexivity|].
  destruct contexts as [|c cs]; [reflexivity|].
  change (firstn 4 (c :: cs)) with (c :: firstn 3 cs).
  unfold Qa.answer. f_equal. unfold Qa.prompt. cbv zeta.
  change (c :: firstn 3 cs) with (firstn 4 (c :: cs)).
  rewrite firstn_firstn. rewrite Nat.min_id.
  destruct ids as [l|]; [|reflexivity].
  cbn [option_map]. rewrite firstn_firstn.
  replace (Nat.min (List.length (firstn 4 (c :: cs))) 4)
    with (List.length (firstn 4 (c :: cs)));
    [reflexivity|].
  pose proof (firstn_le_length 4 (c :: cs)). lia.
Qed.

(** ** The digest of a set of files *)

Lemma ascii_compare_trans (a b c : ascii) :
  Ascii.compare a b <> Gt -> Ascii.compare b c <> Gt ->
  Ascii.compare a c <> Gt
  /\ (Ascii.compare a c = Eq ->
      Ascii.compare a b = Eq /\ Ascii.compare b c = Eq).
Proof.
  unfold Ascii.compare.
  destruct (N.compare_spec (N_of_ascii a) (N_of_ascii b)),
           (N.compare_spec (N_of_ascii b) (N_of_ascii c)),
           (N.compare_spec (N_of_ascii a) (N_of_ascii c));
    intros; split; intros; try split; try congruence; try lia.
Qed.

Lemma string_leb_trans (a b c : string) :
  String.leb a b = true -> String.leb b c = true -> String.leb a c = true.
Proof.
  unfold String.leb.
  assert (G : forall a b c,
             String.compare a b <> Gt -> String.compare b c <> Gt ->
             String.compare a c <> Gt).
  { clear. induction a as [|x a IH]; intros [|y b] [|z c]; simpl;
      try congruence.
    intros H1 H2.
    destruct (Ascii.compare x y) eqn:Exy; try congruence;
      destruct (Ascii.compare y z) eqn:Eyz; try congruence;
      destruct (@ascii_compare_trans x y z) as [T1 T2];
      try (rewrite ?Exy, ?Eyz; congruence);
      destruct (Ascii.compare x z) eqn:Exz; try congruence;
      try (destruct (T2 eq_refl); congruence).
    now apply (IH b c). }
  intros H1 H2.
  destruct (String.compare a b) eqn:E1; try discriminate;
    destruct (String.compare b c) eqn:E2; try discriminate;
    destruct (String.compare a c) eqn:E3; try reflexivity;
    exfalso; apply (G a b c); congruence.
Qed.

Lemma insert_asc_strongly (x : string) (l : list string) :
  StronglySorted (fun a b => String.leb a b = true) l ->
  StronglySorted (fun a b => String.leb a b = true) (Admin.insert_asc x l).
Proof.
  induction 1 as [|y l S IH F]; simpl.
  - repeat constructor.
  - destruct (String.leb x y) eqn:L.
    + constructor; [now constructor|]. constructor; [exact L|].
      apply Forall_forall. intros z Hz. rewrite Forall_forall in F.
      eapply string_leb_trans; [exact L | now apply F].
    + constructor; [exact IH|].
      assert (Lyx : String.leb y x = true).
      { destruct (String.leb_total x y); congruence. }
      apply Forall_forall. intros z Hz.
      apply (Permutation_in _ (Permutation_sym (insert_asc_perm x l))) in Hz.
      destruct Hz as [<-|Hz]; [exact Lyx|].
      rewrite Forall_forall in F. now apply F.
Qed.

Lemma sorted_asc_strongly (l : list string) :
  StronglySorted (fun a b => String.leb a b = true) (Admin.sorted_asc l).
Proof.
  induction l; simpl; [constructor | now apply insert_asc_strongly].
Qed.

Lemma sorted_unique (l l' : list string) :
  StronglySorted (fun a b => String.leb a b = true) l ->
  StronglySorted (fun a b => String.leb a b = true) l' ->
  Permutation l l' -> l = l'.
Proof.
  intros S. revert l'. induction S as [|x l S IH F]; intros l' S' P.
  - apply Permutation_nil in P. now subst.
  - destruct S' as [|y l' S' F'].
    + apply Permutation_sym, Permutation_nil in P. discriminate.
    + assert (x = y).
      { rewrite Forall_forall in F, F'.
        assert (Hx : In x (y :: l'))
          by (apply (Permutation_in _ P); now left).
        assert (Hy : In y (x :: l))
          by (apply (Permutation_in _ (Permutation_sym P)); now left).
        destruct Hx as [->|Hx]; [reflexivity|].
        destruct Hy as [->|Hy]; [reflexivity|].
        apply String.leb_antisym; auto. }
      subst y. f_equal. apply IH; [exact S'|].
      now apply Permutation_cons_inv in P.
Qed.

Lemma sorted_asc_permutation (l l' : list string) :
  Permutation l l' -> Admin.sorted_asc l = Admin.sorted_asc l'.
Proof.
  intro P. apply sorted_unique; try apply sorted_asc_strongly.
  eapply perm_trans; [apply Permutation_sym, sorted_asc_perm|].
  eapply perm_trans; [exact P | apply sorted_asc_perm].
Qed.

Lemma updates_missing (stat : string -> Digest.stat_result) (p : string)
      (l : list string) :
  stat p = Digest.NotFound ->
  Digest.updates stat (Admin.insert_asc p l) = Digest.updates stat l.
Proof.
  intro H. induction l as [|y l IH]; simpl.
  - now rewrite H.
  - destruct (String.leb p y); simpl.
    + now rewrite H.
    + now rewrite IH.
Qed.

(** X23.  [compute_files_digest] depends on the files, not on the order
    in which their paths are given, and a path that does not exist
    contributes nothing: the digest is that of the other paths. *)
Theorem files_digest_order_free (stat : string -> Digest.stat_result)
        (paths paths' : list string) (missing : string) :
  Permutation paths paths' ->
  stat missing = Digest.NotFound ->
  Digest.compute_files_digest stat paths
  = Digest.compute_files_digest stat paths'
  /\ Digest.compute_files_digest stat (missing :: paths)
     = Digest.compute_files_digest stat paths.
Proof.
  intros P M. unfold Digest.compute_files_digest. split.
  - now rewrite (sorted_asc_permutation P).
  - cbn [Admin.sorted_asc]. now rewrite updates_missing.
Qed.

Lemma files_digest_order_free_witness :
  let stat := fun p : string =>
                if String.eqb p "a.pdf" then Digest.Stat 10 20
                else if String.eqb p "b.pdf" then Digest.Stat 30 40
                else Digest.NotFound in
  Digest.compute_files_digest stat ["b.pdf"; "a.pdf"]
  = Digest.compute_files_digest stat ["a.pdf"; "b.pdf"]
  /\ Digest.compute_files_digest stat ["c.pdf"; "b.pdf"; "a.pdf"]
     = Digest.compute_files_digest stat ["b.pdf"; "a.pdf"].
Proof.
  intro stat.
  apply (@files_digest_order_free stat ["b.pdf"; "a.pdf"]
           ["a.pdf"; "b.pdf"] "c.pdf").
  - apply perm_swap.
  - reflexivity.
Defined.

(** ** Building again *)

(** The loop of [build] reads and writes [meta] only. *)
Lemma build_loop_meta (E : Backend) (chunks : list chunk) :
  forall (a a' : Indexer.ChunkIndex) (r : outcome unit),
    for_each chunks
      (fun ch =>
         ch_id <- lift (Indexer.chunk_id E ch) ;;
         modify (fun s => Indexer.set_meta
                            (Indexer.meta s ++ [set ch "id" (VStr ch_id)]) s))
      a = (r, a') ->
    forall b, Indexer.meta b = Indexer.meta a ->
      for_each chunks
        (fun ch =>
           ch_id <- lift (Indexer.chunk_id E ch) ;;
           modify (fun s => Indexer.set_meta
                              (Indexer.meta s ++ [set ch "id" (VStr ch_id)]) s))
        b = (r, Indexer.set_meta (Indexer.meta a') b).
Proof.
  induction chunks as [|c cs IH]; intros a a' r H b M.
  - unmonad. inversion H; subst. rewrite <- M. now destruct b.
  - simpl in H. simpl. unmonad.
    destruct (Indexer.chunk_id E c) as [i|e].
    + rewrite (IH _ _ _ H (Indexer.set_meta
                             (Indexer.meta b ++ [set c "id" (VStr i)]) b))
        by (simpl; now rewrite M).
      reflexivity.
    + inversion H; subst. rewrite <- M. now destruct b.
Qed.

(** X24.  [build] overwrites: when it succeeds on an index object, the
    resulting index does not depend on what the object held before
    (an earlier build, a loaded snapshot, nothing), only on the chunks
    and on the model name; in particular it equals the index built from
    the same chunks on a fresh object. *)
Theorem build_overwrites (E : Backend) (chunks : list chunk)
        (s s' ix : Indexer.ChunkIndex) :
  Indexer.build E chunks s = (Ok tt, ix) ->
  Indexer.model_name s' = Indexer.model_name s ->
  Indexer.build E chunks s' = (Ok tt, ix).
Proof.
  unfold Indexer.build. intros H Hn.
  unfold bind at 1, lift at 1 in H. unfold bind at 1, lift at 1.
  destruct (map_outcome Indexer.content_of chunks) as [texts|]; [|discriminate].
  unfold bind at 1, lift at 1 in H. unfold bind at 1, lift at 1.
  destruct (encode E texts) as [embs|]; [|discriminate].
  unfold bind at 1, modify at 1 in H. unfold bind at 1, modify at 1.
  unfold bind at 1, modify at 1 in H. unfold bind at 1, modify at 1.
  unfold bind at 1 in H. unfold bind at 1.
  destruct (for_each chunks _
              (Indexer.set_meta [] (Indexer.set_embeddings (Some embs) s)))
    as [r a'] eqn:L.
  rewrite (@build_loop_meta E chunks _ _ _ L
             (Indexer.set_meta [] (Indexer.set_embeddings (Some embs) s'))
             eq_refl).
  destruct r as [[]|]; [|discriminate].
  assert (F : Indexer.model_name a' = Indexer.model_name s
              /\ Indexer.embeddings a' = Some embs).
  { apply build_loop_keeps in L. exact L. }
  destruct F as [F1 F2].
  unmonad. destruct (nn_fit E embs) as [[]|]; [|discriminate].
  destruct (bm25_available E).
  - destruct (bm25_init E (map (tokenize E) texts)) as [[]|]; [|discriminate].
    inversion H; subst. f_equal.
    unfold Indexer.set_bm25, Indexer.set_bm25_corpus, Indexer.set_index,
      Indexer.set_meta. simpl. now rewrite Hn, F1, F2.
  - inversion H; subst. f_equal.
    unfold Indexer.set_bm25, Indexer.set_bm25_corpus, Indexer.set_index,
      Indexer.set_meta. simpl. now rewrite Hn, F1, F2.
Qed.

Lemma build_overwrites_witness :
  Indexer.build Scenarios.tied Scenarios.two_chunks Scenarios.first_index
  = (Ok tt, Scenarios.two_rows).
Proof.
  apply (@build_overwrites Scenarios.tied Scenarios.two_chunks
           (Indexer.new Indexer.default_model) Scenarios.first_index
           Scenarios.two_rows).
  - vm_compute. reflexivity.
  - reflexivity.
Defined.


(** ** Start-up keeps what exists *)

Lemma load_loop_keeps (E : Backend) (f : string)
      (items : list (string * entry)) :
  forall s s',
    for_each items (Corpus.load_entry E) s = (Ok tt, s') ->
    (forall e, In (f, e) items -> Spec.kept (Corpus.world s) e = true) ->
    dict_get String.eqb (Corpus._file_map s') f
    = dict_get String.eqb (Corpus._file_map s) f.
Proof.
  induction items as [|[g e0] items IH]; intros s s' H K.
  - unfold for_each, ret in H. now inversion H.
  - simpl in H. unfold bind in H.
    destruct (load_entry_spec E g e0 s) as (s1 & R1 & C). rewrite R1 in H.
    destruct C as [[Kf ->]|[Kt (u & p & seg & _ & _ & X & _)]].
    + assert (N : g <> f).
      { intros ->. rewrite K in Kf by now left. discriminate. }
      rewrite (IH _ _ H); [|intros e He; apply K; now right].
      simpl. now apply (get_del_other _ string_eqb_iff).
    + rewrite (IH _ _ H).
      * destruct X as (Fm & _). now rewrite Fm.
      * intros e He. apply kept_mono with (w := Corpus.world s);
          [|apply K; now right].
        intros q. now apply (@exists_mono s s1 seg q X).
Qed.

(** X25.  Start-up loses no document that is still there: a registry
    entry that has a uid and the path of an existing file is kept as it
    is by [CorpusManager()], also when its snapshot cannot be read and
    the rebuild of its index fails. *)
Theorem startup_keeps_existing (E : Backend) (w : World) (f : string)
        (e : entry) :
  dict_get String.eqb (Spec.registry_of w) f = Some e ->
  (forall e', In (f, e') (Spec.registry_of w) -> Spec.kept w e' = true) ->
  dict_get String.eqb (Corpus._file_map (snd (Corpus.init E w))) f = Some e.
Proof.
  intros G K.
  destruct (init_loop E w) as (s1 & R & I & _ & _).
  rewrite I. rewrite (@load_loop_keeps E f _ _ _ R); [exact G | exact K].
Qed.

Lemma startup_keeps_existing_witness :
  dict_get String.eqb
    (Corpus._file_map (snd (Corpus.init Scenarios.strict Scenarios.restart)))
    "A.pdf"
  = Some (Entry (Some "63680963cf6f12a9") (Some "data/pdfs/A.pdf")).
Proof.
  apply (@startup_keeps_existing Scenarios.strict Scenarios.restart "A.pdf").
  - reflexivity.
  - intros e' H. simpl in H.
    destruct H as [H|[H|[]]]; inversion H; subst. reflexivity.
Defined.

(** ** What a question returns *)

Lemma tag_rows (idx : Indexer.ChunkIndex) (nb : list (nat * score)) :
  forall cs, Corpus.tag idx nb = Ok cs ->
    forall c, In c cs ->
      exists i x m, In (i, x) nb
                    /\ nth_error (Indexer.meta idx) i = Some m
                    /\ c = set m "score" (VFloat x).
Proof.
  unfold Corpus.tag. induction nb as [|[i x] nb IH]; intros cs H c Hc.
  - simpl in H. inversion H; subst. contradiction.
  - simpl in H.
    destruct (nth_error (Indexer.meta idx) i) as [m|] eqn:N; [|discriminate].
    simpl in H.
    destruct (map_outcome _ nb) as [r|]; [|discriminate].
    simpl in H. inversion H; subst. destruct Hc as [<-|Hc].
    + exists i, x, m. split; [now left | auto].
    + destruct (IH r eq_refl c Hc) as (i' & x' & m' & I & M & Eq).
      exists i', x', m'. split; [now right | auto].
Qed.

Lemma pool_rows (E : Backend) (q : string) (per : Z)
      (idxs : dict string Indexer.ChunkIndex) (c : chunk) :
  In c (Spec.pool E q per idxs) ->
  exists u idx i x m,
    In (u, idx) idxs
    /\ nth_error (Indexer.meta idx) i = Some m
    /\ c = set m "score" (VFloat x).
Proof.
  unfold Spec.pool. intro H. apply in_flat_map in H.
  destruct H as ([u idx] & Hi & Hc). unfold Spec.contribution in Hc.
  simpl in Hc.
  destruct (Indexer.query E idx q per) as [nb|]; [|contradiction].
  destruct (Corpus.tag idx nb) as [cs|] eqn:T; [|contradiction].
  destruct (tag_rows _ _ T _ Hc) as (i & x & m & _ & M & Eq).
  exists u, idx, i, x, m. auto.
Qed.

(** X26.  [ask] returns indexed passages only: when it returns, with
    [top_k >= 0], it gives at most [top_k] chunks; each of them is a meta
    entry of a loaded index (so it carries that passage's id, paper,
    page, type and content unchanged) to which the retrieval score and
    the relevance have been added; and the registry and the loaded
    indices are as before the call. *)
Theorem ask_returns_indexed_passages (E : Backend) (q : string) (k : Z)
        (s s' : Corpus.Manager) (res : list chunk) :
  0 <= k ->
  Corpus.ask E q k s = (Ok res, s') ->
  (List.length res <= Z.to_nat k)%nat
  /\ (forall c, In c res ->
        exists u idx i x m,
          In (u, idx) (Corpus._indices s)
          /\ nth_error (Indexer.meta idx) i = Some m
          /\ c = Spec.scored E q (set m "score" (VFloat x))
          /\ forall key, key <> "score" -> key <> "rerank_score" ->
                         get c key = get m key)
  /\ Corpus._indices s' = Corpus._indices s
  /\ Corpus._file_map s' = Corpus._file_map s.
Proof.
  intros Hk H. pose proof (ask_state _ _ _ _ H) as [I F].
  split; [|split; [|split; [exact I | exact F]]];
    unfold Corpus.ask in H; unfold bind at 1, gets at 1 in H;
    destruct (Corpus._indices s) as [|i0 idxs] eqn:Ix;
    try (unfold ret in H; inversion H; subst; simpl; try lia;
         intros c []; fail);
    rewrite <- Ix in *; rewrite aggregate_query_run in H;
    destruct (Corpus.gather E q _ (Corpus._indices s) [] s)
      as [[cs|e] s1] eqn:G; try discriminate;
    apply gather_ok in G; destruct G as (-> & _);
    inversion H; subst; clear H; simpl app.
  - destruct (Spec.pool E q _ (Corpus._indices s)) as [|c0 cs0];
      [simpl; lia|].
    unfold Rerank.rerank. cbn [snd]. rewrite slice_to_firstn by assumption.
    apply firstn_le_length.
  - intros c Hc.
    destruct (Spec.pool E q _ (Corpus._indices s)) as [|c0 cs0] eqn:P;
      [contradiction|].
    unfold Rerank.rerank in Hc. cbn [snd] in Hc.
    rewrite attach_scored, slice_to_firstn in Hc by assumption.
    apply in_firstn in Hc.
    apply (Permutation_in _ (Permutation_sym (sorted_desc_perm _ _))) in Hc.
    apply in_map_iff in Hc. destruct Hc as (c1 & <- & Hc1).
    rewrite <- P in Hc1. apply pool_rows in Hc1.
    destruct Hc1 as (u & idx & i & x & m & Hi & M & ->).
    exists u, idx, i, x, m. split; [exact Hi|]. split; [exact M|].
    split; [reflexivity|]. intros key N1 N2.
    rewrite scored_fields by assumption. unfold get, set.
    apply (get_set_other _ string_eqb_iff). congruence.
Qed.

Lemma ask_returns_indexed_passages_witness :
  let r := Corpus.ask Scenarios.strict "q" 3 Scenarios.ingested in
  let res := match fst r with Ok l => l | Raise _ => [] end in
  (List.length res <= Z.to_nat 3)%nat
  /\ (forall c, In c res ->
        exists u idx i x m,
          In (u, idx) (Corpus._indices Scenarios.ingested)
          /\ nth_error (Indexer.meta idx) i = Some m
          /\ c = Spec.scored Scenarios.strict "q" (set m "score" (VFloat x))
          /\ forall key, key <> "score" -> key <> "rerank_score" ->
                         get c key = get m key)
  /\ Corpus._indices (snd r) = Corpus._indices Scenarios.ingested
  /\ Corpus._file_map (snd r) = Corpus._file_map Scenarios.ingested.
Proof.
  intros r res.
  apply (@ask_returns_indexed_passages Scenarios.strict "q" 3
           Scenarios.ingested (snd r) res).
  - lia.
  - vm_compute. reflexivity.
Defined.

(** ** Ingested documents and restart *)





(** ** Loaded indices and their snapshots *)

Lemma load_ext (E : Backend) (w w' : World) (d : string) :
  dict_get String.eqb (w_dirs w') d = dict_get String.eqb (w_dirs w) d ->
  Indexer.load E w' d = Indexer.load E w d.
Proof. intro H. unfold Indexer.load. now rewrite H. Qed.

Lemma index_dir_inj (u u' : string) :
  Corpus._index_dir_for_uid u = Corpus._index_dir_for_uid u' -> u = u'.
Proof.
  unfold Corpus._index_dir_for_uid, join. intro H.
  now apply append_inv_head, append_inv_head in H.
Qed.

Lemma ensure_dir_other (w : World) (p d : string) :
  d <> p ->
  dict_get String.eqb (w_dirs (ensure_dir w p)) d
  = dict_get String.eqb (w_dirs w) d.
Proof.
  intro N. unfold ensure_dir. destruct (isdir w p); [reflexivity|].
  simpl. apply (get_set_other _ string_eqb_iff). congruence.
Qed.

Lemma write_other (w : World) (dir name : string) (c : content) (d : string) :
  forall r w', Indexer.write w dir name c = (r, w') ->
    d <> dir ->
    dict_get String.eqb (w_dirs w') d = dict_get String.eqb (w_dirs w) d.
Proof.
  intros r w' H N. unfold Indexer.write in H.
  destruct (dict_get String.eqb (w_dirs w) dir) as [kids|].
  - destruct (Indexer.write_file kids name c); inversion H; subst; simpl; auto.
    apply (get_set_other _ string_eqb_iff). congruence.
  - inversion H; subst. reflexivity.
Qed.

Lemma save_other (ix : Indexer.ChunkIndex) (dir : string) (w : World)
      (d : string) :
  forall r w', Indexer.save ix dir w = (r, w') ->
    d <> dir ->
    dict_get String.eqb (w_dirs w') d = dict_get String.eqb (w_dirs w) d.
Proof.
  intros r w' H N. unfold Indexer.save in H. unmonad.
  pose proof (ensure_dir_other w N) as D0.
  destruct (Indexer.write (ensure_dir w dir) dir "embeddings.npy" _)
    as [[[]|e1] w1] eqn:W1;
    apply (@write_other _ _ _ _ d) in W1; auto;
    [|inversion H; subst; congruence].
  destruct (Indexer.write w1 dir "meta.pkl" _) as [[[]|e2] w2] eqn:W2;
    apply (@write_other _ _ _ _ d) in W2; auto;
    [|inversion H; subst; congruence].
  apply (@write_other _ _ _ _ d) in H; auto. congruence.
Qed.

Lemma build_index_other (E : Backend) (p u : string) (s : Corpus.Manager)
      (d : string) :
  forall r s', Corpus._build_index_for_pdf E p u s = (r, s') ->
    d <> Corpus._index_dir_for_uid u ->
    dict_get String.eqb (w_dirs (Corpus.world s')) d
    = dict_get String.eqb (w_dirs (Corpus.world s)) d.
Proof.
  intros r s' H N. unfold Corpus._build_index_for_pdf in H.
  cbv beta iota delta [bind gets ret raise lift modify Corpus.emit
                       Corpus.in_world] in H.
  simpl in H.
  destruct (Corpus.parse_and_chunk _ p (Corpus.basename p)) as [chunks|e];
    [|inversion H; subst; reflexivity].
  destruct (Indexer.build E chunks (Indexer.new Indexer.default_model))
    as [[[]|e] ix]; [|inversion H; subst; reflexivity].
  simpl in H.
  pose proof (ensure_dir_other (log (Corpus.world s) (EvBuild p u)) N) as D0.
  destruct (Indexer.save ix (Corpus._index_dir_for_uid u) _)
    as [[[]|e] w1] eqn:S1;
    apply (@save_other _ _ _ d) in S1; auto;
    inversion H; subst; simpl in *; congruence.
Qed.

(** What [_ensure_index_for_uid] does, case by case. *)
Lemma ensure_cases (E : Backend) (u p : string) (s : Corpus.Manager) :
  forall r s', Corpus._ensure_index_for_uid E u p s = (r, s') ->
    (exists ix, dict_get String.eqb (Corpus._indices s) u = Some ix
                /\ r = Ok ix /\ s' = s)
    \/ (dict_get String.eqb (Corpus._indices s) u = None
        /\ exists ix,
             Indexer.load E (Corpus.world s) (Corpus._index_dir_for_uid u)
             = Ok ix
             /\ r = Ok ix
             /\ Corpus._indices s'
                = dict_set String.eqb (Corpus._indices s) u ix
             /\ w_dirs (Corpus.world s') = w_dirs (Corpus.world s))
    \/ (dict_get String.eqb (Corpus._indices s) u = None
        /\ (exists e, Indexer.load E (Corpus.world s)
                        (Corpus._index_dir_for_uid u) = Raise e)
        /\ (forall d, d <> Corpus._index_dir_for_uid u ->
              dict_get String.eqb (w_dirs (Corpus.world s')) d
              = dict_get String.eqb (w_dirs (Corpus.world s)) d)
        /\ ((exists ix,
               r = Ok ix
               /\ Corpus._indices s'
                  = dict_set String.eqb (Corpus._indices s) u ix
               /\ Indexer.load E (Corpus.world s')
                    (Corpus._index_dir_for_uid u) = Ok ix)
            \/ ((exists e, r = Raise e)
                /\ Corpus._indices s' = Corpus._indices s))).
Proof.
  intros r s' H. unfold Corpus._ensure_index_for_uid in H.
  unfold bind at 1, gets at 1 in H.
  destruct (dict_get String.eqb (Corpus._indices s) u) as [index|] eqn:G.
  - left. unfold ret in H. inversion H; subst. eauto.
  - right. unfold bind at 1, gets at 1 in H. unfold bind at 1 in H.
    destruct (Indexer.load E (Corpus.world s) (Corpus._index_dir_for_uid u))
      as [index|e] eqn:Ld.
    + left. cbv beta iota delta [bind ret modify Corpus.emit] in H.
      inversion H; subst. simpl. split; [reflexivity|]. exists index. auto.
    + right. split; [reflexivity|]. split; [eauto|].
      unfold bind at 1 in H. unfold Corpus.emit at 1, modify at 1 in H.
      destruct (Corpus._build_index_for_pdf E p u
                  (Corpus.set_world
                     (log (Corpus.world s)
                        (EvLoad (Corpus._index_dir_for_uid u) false)) s))
        as [[index|e'] s1] eqn:B.
      * pose proof (built_index_on_disk _ _ _ _ B) as Ld1.
        pose proof (build_index_spec _ _ _ _ B) as [_ I].
        cbv beta iota delta [bind ret modify] in H. inversion H; subst.
        simpl. split.
        -- intros d N. exact (@build_index_other E p u _ d _ _ B N).
        -- left. exists index. rewrite I. auto.
      * pose proof (build_index_spec _ _ _ _ B) as [_ I].
        inversion H; subst. split.
        -- intros d N. exact (@build_index_other E p u _ d _ _ B N).
        -- right. split; [eauto | exact I].
Qed.


















(** ** Restart *)

(** One turn of the start-up loop, seen from a snapshot that loads. *)
Lemma load_entry_restores (E : Backend) (u : string)
      (ix : Indexer.ChunkIndex) (fe : string * entry) (s : Corpus.Manager) :
  Indexer.load E (Corpus.world s) (Corpus._index_dir_for_uid u) = Ok ix ->
  (forall ix', dict_get String.eqb (Corpus._indices s) u = Some ix' ->
               ix' = ix) ->
  exists s1,
    Corpus.load_entry E fe s = (Ok tt, s1)
    /\ Indexer.load E (Corpus.world s1) (Corpus._index_dir_for_uid u) = Ok ix
    /\ (forall ix', dict_get String.eqb (Corpus._indices s1) u = Some ix' ->
                    ix' = ix)
    /\ (dict_get String.eqb (Corpus._indices s) u = Some ix ->
        dict_get String.eqb (Corpus._indices s1) u = Some ix)
    /\ (forall q, exists_ (Corpus.world s) q = true ->
                  exists_ (Corpus.world s1) q = true)
    /\ (uid (snd fe) = Some u ->
        Spec.kept (Corpus.world s) (snd fe) = true ->
        dict_get String.eqb (Corpus._indices s1) u = Some ix).
Proof.
  intros Ld Un. unfold Corpus.load_entry, Spec.kept.
  unfold bind at 1, gets at 1.
  destruct (uid (snd fe)) as [u2|];
    [|eexists; split; [reflexivity|]; simpl; repeat split; auto;
      discriminate].
  destruct (pdf_path (snd fe)) as [p|];
    [|eexists; split; [reflexivity|]; simpl; repeat split; auto;
      discriminate].
  destruct (Corpus.truthy (Some u2) && Corpus.truthy (Some p)
            && exists_ (Corpus.world s) p);
    [|eexists; split; [reflexivity|]; simpl; repeat split; auto;
      discriminate].
  unfold try_except, bind.
  destruct (Corpus._ensure_index_for_uid E u2 p s) as [r s1] eqn:En.
  pose proof (ensure_index_spec _ _ _ _ En) as (seg & X & _).
  assert (Ex : forall q, exists_ (Corpus.world s) q = true ->
                         exists_ (Corpus.world s1) q = true)
    by (intros q; now apply (@exists_mono s s1 seg q X)).
  apply ensure_cases in En.
  assert (K : Indexer.load E (Corpus.world s1) (Corpus._index_dir_for_uid u)
              = Ok ix
              /\ (forall ix', dict_get String.eqb (Corpus._indices s1) u
                              = Some ix' -> ix' = ix)
              /\ (dict_get String.eqb (Corpus._indices s) u = Some ix ->
                  dict_get String.eqb (Corpus._indices s1) u = Some ix)
              /\ (Some u2 = Some u ->
                  dict_get String.eqb (Corpus._indices s1) u = Some ix)).
  { destruct En as [(ix2 & G & -> & ->)
                   |[(G & ix2 & Ld2 & -> & I & D)
                    |(G & (e & Ld2) & D & Rest)]].
    - split; [exact Ld|]. split; [exact Un|]. split; [auto|].
      intro Eq. inversion Eq; subst u2. rewrite G. f_equal. now apply Un.
    - assert (L1 : Indexer.load E (Corpus.world s1)
                     (Corpus._index_dir_for_uid u) = Ok ix)
        by (rewrite <- Ld; apply load_ext; now rewrite D).
      split; [exact L1|]. rewrite I.
      destruct (String.eqb_spec u2 u) as [->|N].
      + rewrite (get_set_same _ string_eqb_iff).
        assert (ix2 = ix) by congruence. subst ix2.
        repeat split; auto. intros ix' H. now inversion H.
      + rewrite (get_set_other _ string_eqb_iff) by assumption.
        repeat split; auto. intro Eq. inversion Eq. congruence.
    - assert (N : u2 <> u) by (intros ->; congruence).
      assert (L1 : Indexer.load E (Corpus.world s1)
                     (Corpus._index_dir_for_uid u) = Ok ix).
      { rewrite <- Ld. apply load_ext. apply D.
        intro Eq. apply index_dir_inj in Eq. congruence. }
      split; [exact L1|].
      assert (I : dict_get String.eqb (Corpus._indices s1) u
                  = dict_get String.eqb (Corpus._indices s) u).
      { destruct Rest as [(ix2 & _ & I & _)|(_ & I)]; rewrite I;
          [now apply (get_set_other _ string_eqb_iff) | reflexivity]. }
      rewrite I. repeat split; auto. intro Eq. inversion Eq. congruence. }
  destruct K as (K1 & K2 & K3 & K4).
  destruct r as [ix2|e]; eexists; (split; [reflexivity|]);
    repeat split; auto.
Qed.

Lemma load_entries_restore (E : Backend) (u : string)
      (ix : Indexer.ChunkIndex) (f : string) (e : entry)
      (items : list (string * entry)) :
  uid e = Some u ->
  forall s,
    Indexer.load E (Corpus.world s) (Corpus._index_dir_for_uid u) = Ok ix ->
    (forall ix', dict_get String.eqb (Corpus._indices s) u = Some ix' ->
                 ix' = ix) ->
    Spec.kept (Corpus.world s) e = true ->
    (In (f, e) items \/ dict_get String.eqb (Corpus._indices s) u = Some ix) ->
    dict_get String.eqb
      (Corpus._indices (snd (for_each items (Corpus.load_entry E) s))) u
    = Some ix.
Proof.
  intro Hu. induction items as [|fe items IH]; intros s Ld Un K H.
  - destruct H as [[]|H]. exact H.
  - destruct (@load_entry_restores E u ix fe s Ld Un)
      as (s1 & R & Ld1 & Un1 & Keep & Ex & Hit).
    simpl. unfold bind. rewrite R.
    apply IH; auto.
    + revert K. apply kept_mono. exact Ex.
    + destruct H as [[->|H]|H]; auto.
Qed.

(** X29.  A restart restores the loaded index: when every loaded index
    agrees with its snapshot (as on every reachable manager), an index
    whose uid the persisted registry names for a file that exists is
    loaded again by a manager started on the same disk, and it is the
    same index. *)
Theorem restart_restores_index (E : Backend) (s : Corpus.Manager)
        (f u p : string) (ix : Indexer.ChunkIndex) :
  Laws.backed E s ->
  dict_get String.eqb (Corpus._indices s) u = Some ix ->
  dict_get String.eqb (Spec.registry_of (Corpus.world s)) f
  = Some (Entry (Some u) (Some p)) ->
  Spec.kept (Corpus.world s) (Entry (Some u) (Some p)) = true ->
  dict_get String.eqb
    (Corpus._indices (snd (Corpus.init E (Corpus.world s)))) u
  = Some ix.
Proof.
  intros B G Rg K.
  destruct (init_loop E (Corpus.world s)) as (s1 & R & _ & I & _).
  rewrite I.
  replace s1
    with (snd (for_each (Spec.registry_of (Corpus.world s))
                 (Corpus.load_entry E)
                 {| Corpus._indices := [];
                    Corpus._file_map := Spec.registry_of (Corpus.world s);
                    Corpus.world := Corpus.world s |}))
    by now rewrite R.
  apply (@load_entries_restore E u ix f (Entry (Some u) (Some p))).
  - reflexivity.
  - simpl. now apply B.
  - simpl. intros ix' H. discriminate H.
  - exact K.
  - left. now apply get_in_pairs.
Qed.

Lemma restart_restores_index_witness :
  dict_get String.eqb
    (Corpus._indices
       (snd (Corpus.init Scenarios.strict (Corpus.world Scenarios.ingested))))
    "63680963cf6f12a9"
  = Some Scenarios.first_index.
Proof.
  apply (@restart_restores_index Scenarios.strict Scenarios.ingested
           "A.pdf" "63680963cf6f12a9" "data/pdfs/A.pdf").
  - intros u ix G. unfold Scenarios.ingested in G.
    cbv beta iota delta [Corpus._indices dict_get] in G.
    destruct (String.eqb_spec "63680963cf6f12a9" u) as [<-|];
      [|discriminate].
    inversion G; subst. vm_compute. reflexivity.
  - vm_compute. reflexivity.
  - vm_compute. reflexivity.
  - vm_compute. reflexivity.
Defined.
